(** * candilib: the CSV row expander, the CSV document and the header
      mini-language of the table pipeline

    A shallow embedding of [candicsv.js] (classes [CSV] and [CSVEntry]) and
    of the header compiler and row assembler of [candiutil.js]
    ([processHeaders], [putDataInObject], [rowToObj], [rowsToArrayOfObj],
    [tableToArrayOfObj]), followed by the properties proved about them.

    Modelling conventions.
    - JavaScript values are the inductive [value]; numbers are the integers
      among the doubles (no NaN, no fractions), written in decimal digits
      as the platform writes the safe integers; strings are sequences of
      code units below 256, and [candiutil.wide] has sanitise and
      isEmptyString on the code units of 16 bits.
    - Both files are ES modules, hence strict code: a write to a property of
      a primitive throws a TypeError.
    - Arrays and objects are passed by value.  A hole of a sparse array is
      [VUndefined]: every read the code performs on its arrays (indexing,
      [for ... of], [length]) sees a hole as undefined.
    - An object is the list of its own enumerable properties in enumeration
      order.  The records that candiutil.js builds are ordinary objects
      under [Object.prototype]: [candiutil.read] and [candiutil.assign] say
      what a read without an own property and a write do there, and a run
      that leaves those records is [None].
    - A call either completes normally, throws, or ends the process
      ([process.exit]); see [completion].
    - The regular expressions written inside header templates are compiled
      and run by the platform, which is an interface ([RegExpHost]); the
      four fixed regular expressions of the header grammar are modelled by
      a matcher of their own.
    - The cells of a table row are taken as [rowToArray] delivers them; the
      HTML parsing behind it is outside the embedding.
    - The tracing calls [logStart] and [logEnd] and the output of
      [console.log] are instrumentation and are left out. *)

From Stdlib Require Import ZArith String Ascii List Bool Lia DecimalString.
From stdpp Require Import base list strings.

Local Open Scope string_scope.
Set Warnings "-register-all".

(** ** JavaScript values *)

Module JS.

Inductive value : Type :=
| VUndefined
| VNull
| VBool (b : bool)
| VNum (n : Z)
| VStr (s : string)
| VArr (xs : list value)
| VObj (props : list (string * value)).

(** What a [throw] or a failing built-in raises. *)
Inductive error : Type :=
| Thrown (msg : string)          (* throw <string> *)
| TypeError
| ReferenceError (name : string)
| SyntaxError.

(** How a call ends. *)
Inductive completion (A : Type) : Type :=
| Normal (a : A)
| Throw (e : error)
| Exit (code : Z).

Arguments Normal {A} a.
Arguments Throw {A} e.
Arguments Exit {A} code.

Definition bind {A B : Type} (c : completion A) (k : A -> completion B)
  : completion B :=
  match c with
  | Normal a => k a
  | Throw e => Throw e
  | Exit n => Exit n
  end.

(** ToBoolean *)
Definition truthy (v : value) : bool :=
  match v with
  | VUndefined | VNull => false
  | VBool b => b
  | VNum n => negb (n =? 0)%Z
  | VStr EmptyString => false
  | VStr (String _ _) => true
  | VArr _ | VObj _ => true
  end.

Definition isArray (v : value) : bool :=
  match v with VArr _ => true | _ => false end.

Definition typeof (v : value) : string :=
  match v with
  | VUndefined => "undefined"
  | VNull => "object"
  | VBool _ => "boolean"
  | VNum _ => "number"
  | VStr _ => "string"
  | VArr _ | VObj _ => "object"
  end.

Definition string_of_Z (n : Z) : string := NilZero.string_of_int (Z.to_int n).
Definition string_of_nat (n : nat) : string := string_of_Z (Z.of_nat n).

Definition join (sep : string) (parts : list string) : string :=
  String.concat sep parts.

(** ToString; an array is its elements joined by a comma, with null and
    undefined elements rendered empty. *)
Fixpoint to_string (v : value) : string :=
  match v with
  | VUndefined => "undefined"
  | VNull => "null"
  | VBool true => "true"
  | VBool false => "false"
  | VNum n => string_of_Z n
  | VStr s => s
  | VArr xs =>
      join ","
        (map (fun x => match x with
                       | VUndefined | VNull => ""
                       | _ => to_string x
                       end) xs)
  | VObj _ => "[object Object]"
  end.

(** [a[i] = v] on an array: in range it replaces, past the end it extends
    the array, leaving holes. *)
Definition array_set (xs : list value) (i : nat) (v : value) : list value :=
  if decide (i < length xs)
  then <[i := v]> xs
  else xs ++ replicate (i - length xs) VUndefined ++ [v].

(** [a[i]] on an array. *)
Definition array_get (xs : list value) (i : nat) : value :=
  default VUndefined (xs !! i).

(** [x === key] for a string [key]. *)
Definition strict_eq_str (x : value) (key : string) : bool :=
  match x with
  | VStr s => String.eqb s key
  | _ => false
  end.

(** [Array.prototype.indexOf] for a string: first position, or -1. *)
Fixpoint indexOf_from (xs : list value) (key : string) (i : Z) : Z :=
  match xs with
  | [] => (-1)%Z
  | x :: rest => if strict_eq_str x key then i else indexOf_from rest key (i + 1)%Z
  end.

Definition array_indexOf (xs : list value) (key : string) : Z :=
  indexOf_from xs key 0%Z.

(** [Array.prototype.includes] for a string. *)
Definition array_includes (xs : list value) (key : string) : bool :=
  existsb (fun x => strict_eq_str x key) xs.

(** Own property read [o[key]] of an object; of an array, its elements under
    their decimal indices and its length. *)
Fixpoint assoc (props : list (string * value)) (key : string) : option value :=
  match props with
  | [] => None
  | (k, v) :: rest => if String.eqb k key then Some v else assoc rest key
  end.

Fixpoint index_named (xs : list value) (key : string) (i : nat) : option value :=
  match xs with
  | [] => None
  | x :: rest =>
      if String.eqb (string_of_nat i) key then Some x
      else index_named rest key (S i)
  end.

Definition get_prop (o : value) (key : string) : value :=
  match o with
  | VObj props => default VUndefined (assoc props key)
  | VArr xs =>
      if String.eqb key "length" then VNum (Z.of_nat (length xs))
      else default VUndefined (index_named xs key 0)
  | _ => VUndefined
  end.

(** [Object.keys]: throws on null and undefined. *)
Definition object_keys (o : value) : completion (list string) :=
  match o with
  | VUndefined | VNull => Throw TypeError
  | VObj props => Normal (map fst props)
  | VArr xs => Normal (map string_of_nat (seq 0 (length xs)))
  | VStr s => Normal (map string_of_nat (seq 0 (String.length s)))
  | VBool _ | VNum _ => Normal []
  end.

End JS.

Import JS.

Notation "'let*' x ':=' c 'in' k" := (bind c (fun x => k))
  (at level 10, x name, c at level 100, k at level 200, only parsing).

(** ** candicsv.js, class CSVEntry *)

Module CSVEntry.

(** [data_minus1] is the property of the [data] array named -1, which [add]
    reads and writes when [indexOf] does not find the header. *)
Record t : Type := {
  headers : list value;
  data : list value;
  data_minus1 : value
}.

(** constructor(headersIn, dataIn = null) *)
Definition new (headersIn : list value) (dataIn : value) : completion t :=
  if negb (truthy dataIn)
  then Normal {| headers := headersIn; data := []; data_minus1 := VUndefined |}
  else
    match dataIn with
    | VArr xs =>
        if negb (length xs =? length headersIn)%nat
        then Throw (Thrown ("Input length " ++ string_of_nat (length xs)
                            ++ "; expected " ++ string_of_nat (length headersIn)))
        else Normal {| headers := headersIn; data := xs; data_minus1 := VUndefined |}
    | _ => Throw (Thrown "Expected array")
    end.

(** indexOf(header): the guard [!index && index !== 0] never holds for a
    number, so an unknown header yields -1 and nothing is thrown. *)
Definition indexOf (this : t) (header : string) : completion Z :=
  let index := array_indexOf (headers this) header in
  if (index =? 0)%Z && negb (index =? 0)%Z
  then Throw (Thrown ("Could not find header " ++ header))
  else Normal index.

(** [this.data[index]] *)
Definition data_get (this : t) (index : Z) : value :=
  match index with
  | Zneg _ => data_minus1 this
  | _ => array_get (data this) (Z.to_nat index)
  end.

(** [this.data[index] = v] *)
Definition data_set (this : t) (index : Z) (v : value) : t :=
  match index with
  | Zneg _ =>
      {| headers := headers this; data := data this; data_minus1 := v |}
  | _ =>
      {| headers := headers this;
         data := array_set (data this) (Z.to_nat index) v;
         data_minus1 := data_minus1 this |}
  end.

(** get(header) *)
Definition get (this : t) (header : string) : completion value :=
  let* index := indexOf this header in
  Normal (data_get this index).

(** add(header, value) *)
Definition add (this : t) (header : string) (v : value) : completion unit * t :=
  if String.eqb (typeof v) "object" && negb (isArray v)
  then (Throw (Thrown "Cannot add object to cell"), this)
  else
    match indexOf this header with
    | Normal index =>
        let old := data_get this index in
        if truthy old
        then
          match old with
          | VArr xs => (Normal tt, data_set this index (VArr (xs ++ [v])))
          | _ => (Normal tt, data_set this index (VArr [old; v]))
          end
        else (Normal tt, data_set this index v)
    | Throw e => (Throw e, this)
    | Exit n => (Exit n, this)
    end.

(** The first loop of getOutputRows. *)
Definition longest_of (data : list value) : nat :=
  fold_left
    (fun longest row =>
       match row with
       | VArr xs => if decide (longest < length xs) then length xs else longest
       | _ => longest
       end)
    data 1.

(** The second loop: [longest] rows holding the empty string under every
    header. *)
Definition blank_row (headers : list value) : list value :=
  map (fun _ => VStr "") headers.

Definition blank_output (headers : list value) (longest : nat)
  : list (list value) :=
  replicate longest (blank_row headers).

(** [while (output[index][col]) index++], entered with [rows] the rows from
    [index] on; running past the last row reads a property of undefined. *)
Fixpoint find_slot (rows : list (list value)) (col index : nat)
  : completion nat :=
  match rows with
  | [] => Throw TypeError
  | r :: rest =>
      if truthy (array_get r col)
      then find_slot rest col (S index)
      else Normal index
  end.

(** [output[index][col] = v] *)
Definition put (output : list (list value)) (index col : nat) (v : value)
  : completion (list (list value)) :=
  match output !! index with
  | Some r => Normal (<[index := array_set r col v]> output)
  | None => Throw TypeError
  end.

(** The loop over the elements of an array cell. *)
Fixpoint place_list (output : list (list value)) (col : nat)
    (colData : list value) : completion (list (list value)) :=
  match colData with
  | [] => Normal output
  | x :: rest =>
      let* index := find_slot output col 0 in
      let* output' := put output index col x in
      place_list output' col rest
  end.

(** The loop over the columns, entered at column [col] with [data] the cells
    from there on. *)
Fixpoint fill_columns (data : list value) (col : nat)
    (output : list (list value)) : completion (list (list value)) :=
  match data with
  | [] => Normal output
  | colData :: rest =>
      match colData with
      | VArr xs =>
          let* output' := place_list output col xs in
          fill_columns rest (S col) output'
      | _ =>
          let* output' := put output 0 col colData in
          fill_columns rest (S col) output'
      end
  end.

(** getOutputRows() *)
Definition getOutputRows (this : t) : completion (list (list value)) :=
  let longest := longest_of (data this) in
  let output := blank_output (headers this) longest in
  fill_columns (data this) 0 output.

End CSVEntry.

(** ** candicsv.js, class CSV *)

Module CSV.

(** What [entries] holds: addObject pushes a CSVEntry, addLine pushes the
    array it was given. *)
Inductive entry : Type :=
| Instance (row : CSVEntry.t)
| Raw (line : value).

Record t : Type := {
  currentLine : value;
  headers : list value;
  entries : list entry;
  qualifier : string;
  delimeter : string
}.

(** The first argument of the constructor: an array of headers, an object
    whose keys become the headers, or null. *)
Inductive headers_arg : Type :=
| HeaderArray (xs : list value)
| HeaderObject (props : list (string * value))
| HeaderNull.

Definition to_lower_char (c : ascii) : ascii :=
  let n := nat_of_ascii c in
  if ((65 <=? n) && (n <=? 90))%nat
     || ((192 <=? n) && (n <=? 222) && negb (n =? 215))%nat
  then ascii_of_nat (n + 32)
  else c.

Fixpoint toLowerCase (s : string) : string :=
  match s with
  | EmptyString => EmptyString
  | String c rest => String (to_lower_char c) (toLowerCase rest)
  end.

Definition quote : string := String (ascii_of_nat 34) EmptyString.

(** The loop over the keys of [options]. *)
Fixpoint apply_options (options : list (string * string)) (this : t)
  : completion t :=
  match options with
  | [] => Normal this
  | (option, v) :: rest =>
      let o := toLowerCase option in
      if String.eqb o "qualifier"
      then apply_options rest
             {| currentLine := currentLine this; headers := headers this;
                entries := entries this; qualifier := v;
                delimeter := delimeter this |}
      else if String.eqb o "delimiter"
      then apply_options rest
             {| currentLine := currentLine this; headers := headers this;
                entries := entries this; qualifier := qualifier this;
                delimeter := v |}
      else Throw (Thrown ("Unrecognised option: " ++ option))
  end.

(** constructor(headersIn, options = null); an absent [options] is the empty
    list. *)
Definition new (headersIn : headers_arg) (options : list (string * string))
  : completion t :=
  let* hs :=
    match headersIn with
    | HeaderArray xs => Normal xs
    | HeaderObject props => Normal (map (fun p => VStr (fst p)) props)
    | HeaderNull => Throw TypeError
    end in
  apply_options options
    {| currentLine := VUndefined; headers := hs; entries := [];
       qualifier := quote; delimeter := "," |}.

Definition push_entry (this : t) (e : entry) : t :=
  {| currentLine := currentLine this; headers := headers this;
     entries := entries this ++ [e]; qualifier := qualifier this;
     delimeter := delimeter this |}.

Definition set_currentLine (this : t) (line : value) : t :=
  {| currentLine := line; headers := headers this;
     entries := entries this; qualifier := qualifier this;
     delimeter := delimeter this |}.

(** addLine(line): the CSVEntry is built for its checks only; the array
    itself is what gets pushed. *)
Definition addLine (this : t) (line : value) : completion unit * t :=
  match CSVEntry.new (headers this) line with
  | Normal row =>
      (Normal tt, set_currentLine (push_entry this (Raw line)) line)
  | Throw e => (Throw e, this)
  | Exit n => (Exit n, this)
  end.

(** The loop of addObject over [Object.keys(obj)], building [row]. *)
Fixpoint add_keys (this : t) (obj : value) (keys : list string)
    (row : CSVEntry.t) : completion CSVEntry.t :=
  match keys with
  | [] => Normal row
  | key :: rest =>
      let v := get_prop obj key in
      if negb (array_includes (headers this) key)
      then Throw (Thrown ("Could not find header " ++ key))
      else
        match CSVEntry.add row key v with
        | (Normal _, row') => add_keys this obj rest row'
        | (Throw e, _) => Throw e
        | (Exit n, _) => Exit n
        end
  end.

(** addObject(obj).  The message of the key-count check mentions [headers],
    a name bound nowhere in the module, so evaluating the operand of that
    [throw] raises a ReferenceError. *)
Definition addObject (this : t) (obj : value) : completion unit * t :=
  match CSVEntry.new (headers this) VNull with
  | Normal row =>
      if negb (String.eqb (typeof obj) "object")
      then (Throw (Thrown "Expected object"), this)
      else
        match object_keys obj with
        | Normal keys =>
            if negb (length keys =? length (headers this))%nat
            then (Throw (ReferenceError "headers"), this)
            else
              match add_keys this obj keys row with
              | Normal row' => (Normal tt, push_entry this (Instance row'))
              | Throw e => (Throw e, this)
              | Exit n => (Exit n, this)
              end
        | Throw e => (Throw e, this)
        | Exit n => (Exit n, this)
        end
  | Throw e => (Throw e, this)
  | Exit n => (Exit n, this)
  end.

(** [entry.getOutputRows()]: an array, or any other value of the model, has
    no such method. *)
Definition call_getOutputRows (e : entry) : completion (list (list value)) :=
  match e with
  | Instance row => CSVEntry.getOutputRows row
  | Raw _ => Throw TypeError
  end.

(** The first loop of writeFile. *)
Fixpoint collect_lines (es : list entry) (lines : list (list value))
  : completion (list (list value)) :=
  match es with
  | [] => Normal lines
  | e :: rest =>
      let* line := call_getOutputRows e in
      collect_lines rest (lines ++ line)
  end.

(** One turn of the inner loop: the field, then the delimiter unless the
    column is the last one. *)
Definition write_field (this : t) (data : value) (last : bool) (text : string)
  : string :=
  let text := if truthy (VStr (qualifier this))
              then text ++ qualifier this else text in
  let text :=
    if (match data with VNull => true | _ => false end || negb (truthy data))
       && negb (match data with VNum 0 => true | _ => false end)
    then text ++ ""
    else text ++ to_string data in
  let text := if truthy (VStr (qualifier this))
              then text ++ qualifier this else text in
  if last then text else text ++ delimeter this.

Fixpoint write_cols (this : t) (cols : list value) (text : string) : string :=
  match cols with
  | [] => text
  | data :: rest =>
      write_cols this rest
        (write_field this data (match rest with [] => true | _ => false end) text)
  end.

Definition newline : string := String (ascii_of_nat 10) EmptyString.

Fixpoint write_rows (this : t) (lines : list (list value)) (text : string)
  : string :=
  match lines with
  | [] => text
  | row :: rest =>
      let text := write_cols this row text in
      let text := match rest with [] => text | _ => text ++ newline end in
      write_rows this rest text
  end.

(** writeFile(filename): the result is the text handed to
    [fs.writeFileSync]. *)
Definition writeFile (this : t) : completion string :=
  let* lines := collect_lines (entries this) [headers this] in
  Normal (write_rows this lines "").

End CSV.

(** ** candiutil.js: the header compiler and the row assembler *)

Module candiutil.

(** *** The four recognisers of the header grammar

    Each of multiDataRegex, splitDataRegex, mapDataRegex and
    transformDataRegex has the shape [(.+?)OPEN(.+?)CLOSE], unanchored: two
    lazy groups of one or more characters other than line terminators, each
    followed by a literal token. *)

Record grammar_regex : Type := { open_tok : string; close_tok : string }.

Definition backslash : string := String (ascii_of_nat 92) EmptyString.

Definition multiDataRegex : grammar_regex :=
  {| open_tok := "[["; close_tok := "]]" |}.
Definition splitDataRegex : grammar_regex :=
  {| open_tok := "{{"; close_tok := "}}" |}.
Definition mapDataRegex : grammar_regex :=
  {| open_tok := "<<"; close_tok := ">>" |}.
Definition transformDataRegex : grammar_regex :=
  {| open_tok := "//"; close_tok := backslash ++ backslash |}.

(** The dot of a regular expression matches no line feed and no carriage
    return. *)
Definition is_line_terminator (c : ascii) : bool :=
  let n := nat_of_ascii c in ((n =? 10) || (n =? 13))%nat.

Fixpoint strip_prefix (p s : string) : option string :=
  match p with
  | EmptyString => Some s
  | String a p' =>
      match s with
      | EmptyString => None
      | String b s' => if Ascii.eqb a b then strip_prefix p' s' else None
      end
  end.

(** [(.+?)tok] followed by the rest of the pattern [k], by backtracking: the
    group takes one character, and one more each time what follows fails. *)
Fixpoint lazy_group {R : Type} (tok : string) (k : string -> option R)
    (s : string) : option (string * R) :=
  match s with
  | EmptyString => None
  | String c rest =>
      if is_line_terminator c then None
      else
        match
          match strip_prefix tok rest with
          | Some after => k after
          | None => None
          end
        with
        | Some r => Some (String c EmptyString, r)
        | None =>
            match lazy_group tok k rest with
            | Some (g, r) => Some (String c g, r)
            | None => None
            end
        end
  end.

(** A match: the text before it, the two groups, the text after it. *)
Record grammar_match : Type := {
  before : string;
  group1 : string;
  group2 : string;
  after : string
}.

Definition exec_at (re : grammar_regex) (s : string)
  : option (string * (string * string)) :=
  lazy_group (open_tok re)
    (fun rest => lazy_group (close_tok re) (fun rest' => Some rest') rest) s.

(** The leftmost match, trying every start position in turn. *)
Fixpoint exec_from (re : grammar_regex) (s skipped : string)
  : option grammar_match :=
  match exec_at re s with
  | Some (g1, (g2, rest)) =>
      Some {| before := skipped; group1 := g1; group2 := g2; after := rest |}
  | None =>
      match s with
      | EmptyString => None
      | String c s' => exec_from re s' (skipped ++ String c EmptyString)
      end
  end.

(** [header.match(re)]; a match is an array of three entries. *)
Definition grammar_exec (re : grammar_regex) (header : string)
  : option grammar_match :=
  exec_from re header EmptyString.

(** [s.replace(re, "")] *)
Definition grammar_remove (re : grammar_regex) (s : string) : string :=
  match grammar_exec re s with
  | Some m => before m ++ after m
  | None => s
  end.

(** [s.split(sep)] for a literal, non-empty separator.  [skip] counts the
    characters of a separator just found that are still to be passed. *)
Fixpoint split_go (sep s cur : string) (skip : nat) : list string :=
  match s with
  | EmptyString => [cur]
  | String c s' =>
      match skip with
      | S n => split_go sep s' cur n
      | O =>
          match strip_prefix sep s with
          | Some _ => cur :: split_go sep s' EmptyString (String.length sep - 1)
          | None => split_go sep s' (cur ++ String c EmptyString) 0
          end
      end
  end.

Definition split_literal (sep s : string) : list string :=
  split_go sep s EmptyString 0.

(** *** The regular expressions supplied inside the brackets

    They are compiled and run by the platform.  A RegExp object is its
    source text (none carries a flag); the platform is an interface. *)

Record RegExp : Type := { source : string }.

Class RegExpHost : Type := {
  (** whether [new RegExp(source)] succeeds; otherwise it throws a
      SyntaxError *)
  regexp_valid : string -> bool;
  (** [s.match(re)] for a string [s]: null, or the array of the whole match
      and the groups, a group that took no part being undefined *)
  regexp_exec : string -> string -> option (list (option string));
  (** [s.split(re)] for a string [s]; capture groups of the delimiter can
      put undefined entries in the array *)
  regexp_split : string -> string -> list (option string)
}.

(** The compiled header: the [type] tag with the fields set along with it,
    and the [map] field. *)
Inductive header_kind : Type :=
| Transform (header : string) (transform : RegExp)
| Multi (headers : list string) (dataRegex : RegExp)
| Split (header : string) (delim : RegExp)
| Norm (header : string).

Record HeaderObj : Type := { kind : header_kind; map : option RegExp }.

Definition type (h : HeaderObj) : string :=
  match kind h with
  | Transform _ _ => "transform"
  | Multi _ _ => "multi"
  | Split _ _ => "split"
  | Norm _ => "norm"
  end.

(** *** Records

    A record is an ordinary object whose prototype is Object.prototype: the
    list of its own properties in the order in which they are enumerated,
    the keys that are array indices first, in ascending order, then the
    other keys in the order of their creation. *)
Definition props : Type := list (string * value).

(** The property [key] set to [v]: in place where the object has the key,
    and else created after the others. *)
Fixpoint set_prop (o : props) (key : string) (v : value) : props :=
  match o with
  | [] => [(key, v)]
  | (k, w) :: rest =>
      if String.eqb k key then (k, v) :: rest else (k, w) :: set_prop rest key v
  end.

Definition of_group (g : option string) : value :=
  match g with
  | Some s => VStr s
  | None => VUndefined
  end.

(** [matches[i]] *)
Definition group_at (matches : list (option string)) (i : nat) : value :=
  match matches !! i with
  | Some g => of_group g
  | None => VUndefined
  end.

Definition strings (l : list (option string)) : value :=
  VArr (List.map of_group l).

Definition has_own (o : props) (key : string) : bool :=
  match assoc o key with
  | Some _ => true
  | None => false
  end.

(** The names every object inherits from Object.prototype. *)
Definition prototype_members : list string :=
  ["constructor"; "__defineGetter__"; "__defineSetter__"; "hasOwnProperty";
   "__lookupGetter__"; "__lookupSetter__"; "isPrototypeOf";
   "propertyIsEnumerable"; "toString"; "valueOf"; "__proto__";
   "toLocaleString"].

Definition inherited (key : string) : bool :=
  existsb (String.eqb key) prototype_members.

(** [o[key]] of a record: its own property; without one, undefined, unless
    the key names a member of Object.prototype.  Such a member is a
    function, or under [__proto__] Object.prototype itself, which is no
    value of the model: [None]. *)
Definition read (o : props) (key : string) : option value :=
  match assoc o key with
  | Some v => Some v
  | None => if inherited key then None else Some VUndefined
  end.

(** The array index a key stands for: a key is one when it is the decimal
    numeral, without sign or leading zero, of an integer below 2^32 - 1. *)
Definition digit_of (c : ascii) : option N :=
  let n := N_of_ascii c in
  if ((48 <=? n) && (n <=? 57))%N then Some (n - 48)%N else None.

Fixpoint digits_value (s : string) (acc : N) : option N :=
  match s with
  | EmptyString => Some acc
  | String c rest =>
      match digit_of c with
      | Some d => digits_value rest (acc * 10 + d)%N
      | None => None
      end
  end.

Definition array_index (key : string) : option N :=
  match key with
  | EmptyString => None
  | String c rest =>
      if (N_of_ascii c =? 48)%N
      then match rest with
           | EmptyString => Some 0%N
           | _ => None
           end
      else
        match digits_value key 0 with
        | Some n => if (n <? 4294967295)%N then Some n else None
        | None => None
        end
  end.

(** A property the object does not have yet is created: under an array
    index before the first key that is no array index or a larger one,
    under any other key after all the others. *)
Fixpoint insert_index (o : props) (n : N) (key : string) (v : value) : props :=
  match o with
  | [] => [(key, v)]
  | (k, w) :: rest =>
      match array_index k with
      | Some m =>
          if (m <? n)%N then (k, w) :: insert_index rest n key v
          else (key, v) :: o
      | None => (key, v) :: o
      end
  end.

Definition create (o : props) (key : string) (v : value) : props :=
  match array_index key with
  | Some n => insert_index o n key v
  | None => (o ++ [(key, v)])%list
  end.

(** The own properties of a record after [o[key] = v].  An own property is
    set in place.  Without one, the key [__proto__] reaches the accessor
    inherited from Object.prototype, which creates no property; any other
    key is created. *)
Definition store (o : props) (key : string) (v : value) : props :=
  if has_own o key then set_prop o key v
  else if String.eqb key "__proto__" then o
  else create o key v.

(** A value that is no object and not null. *)
Definition primitive (v : value) : bool :=
  negb (String.eqb (typeof v) "object").

(** [o[key] = v] on a record.  Through the inherited accessor [__proto__],
    null or an object becomes the prototype of [o], which is then no record
    any more: [None]. *)
Definition assign (o : props) (key : string) (v : value) : option props :=
  if negb (has_own o key) && String.eqb key "__proto__" && negb (primitive v)
  then None
  else Some (store o key v).

Definition assigned (o : option props) : option (completion unit * props) :=
  match o with
  | Some destObj => Some (Normal tt, destObj)
  | None => None
  end.

Section WithHost.

Context {host : RegExpHost}.

Definition new_RegExp (src : string) : completion RegExp :=
  if regexp_valid src then Normal {| source := src |} else Throw SyntaxError.

(** The body of the loop of processHeaders for a header that is not null. *)
Definition processHeader (header : string) : completion HeaderObj :=
  let multiDataMatches := grammar_exec multiDataRegex header in
  let splitDataMatches := grammar_exec splitDataRegex header in
  let mapDataMatches := grammar_exec mapDataRegex header in
  let transformDataMatches := grammar_exec transformDataRegex header in
  let* map :=
    match mapDataMatches with
    | Some m => let* re := new_RegExp (group2 m) in Normal (Some re)
    | None => Normal None
    end in
  match transformDataMatches with
  | Some m =>
      let* transformRegex := new_RegExp (group2 m) in
      Normal {| kind := Transform (group1 m) transformRegex; map := map |}
  | None =>
      match multiDataMatches with
      | Some m =>
          let headerString := group1 m in
          let* colRegex := new_RegExp (group2 m) in
          Normal {| kind :=
                      Multi (split_literal ",,"
                               (grammar_remove multiDataRegex headerString))
                            colRegex;
                    map := map |}
      | None =>
          match splitDataMatches with
          | Some m =>
              let* delimRegex := new_RegExp (group2 m) in
              Normal {| kind := Split (group1 m) delimRegex; map := map |}
          | None => Normal {| kind := Norm header; map := map |}
          end
      end
  end.

(** processHeaders(headers); a null header is [None]. *)
Fixpoint processHeaders (headers : list (option string))
  : completion (list (option HeaderObj)) :=
  match headers with
  | [] => Normal []
  | None :: rest =>
      let* headersOut := processHeaders rest in
      Normal (None :: headersOut)
  | Some header :: rest =>
      let* obj := processHeader header in
      let* headersOut := processHeaders rest in
      Normal (Some obj :: headersOut)
  end.

(** [data.match(re)]: only a string has the method. *)
Definition str_match (data : value) (re : RegExp)
  : completion (option (list (option string))) :=
  match data with
  | VStr s => Normal (regexp_exec (source re) s)
  | _ => Throw TypeError
  end.

(** [data.split(re)] *)
Definition str_split (data : value) (re : RegExp)
  : completion (list (option string)) :=
  match data with
  | VStr s => Normal (regexp_split (source re) s)
  | _ => Throw TypeError
  end.

(** The loop of the multi case.  [matches] is null when the cell did not
    match, and reading an entry of null throws.  Every name is written as
    [set_prop] does, which is the assignment for the names that are neither
    [__proto__] nor array indices. *)
Fixpoint assign_groups (matches : option (list (option string)))
    (headers : list string) (x : nat) (destObj : props)
  : completion unit * props :=
  match headers with
  | [] => (Normal tt, destObj)
  | header :: rest =>
      match matches with
      | None => (Throw TypeError, destObj)
      | Some m =>
          assign_groups matches rest (S x)
            (set_prop destObj header (group_at m (x + 1)))
      end
  end.

(** The loop of the split case with a map, over the fragments still to be
    read.  A fragment that matches is written into the value found under
    [destObj[header2]]: into an object by key, the object staying where it
    is in the record; a primitive there makes the write throw; an array
    there (left by an earlier column of the same name) would take the key
    as an index, a length or a named property, and a member of
    Object.prototype found there would be written itself, neither of which
    the model follows: those runs are [None].  A fragment that does not
    match replaces the field by [dataArr] and leaves the loop. *)
Fixpoint map_fragments (header2 : string) (mapRe : RegExp)
    (dataArr : list (option string)) (fragments : list (option string))
    (destObj : props) : option (completion unit * props) :=
  match fragments with
  | [] => Some (Normal tt, destObj)
  | data2 :: rest =>
      match str_match (of_group data2) mapRe with
      | Normal (Some matches) =>
          match read destObj header2 with
          | Some (VObj target) =>
              match assign target (to_string (group_at matches 1))
                      (group_at matches 2) with
              | Some target' =>
                  map_fragments header2 mapRe dataArr rest
                    (set_prop destObj header2 (VObj target'))
              | None => None
              end
          | Some (VArr _) | None => None
          | Some _ => Some (Throw TypeError, destObj)
          end
      | Normal None => assigned (assign destObj header2 (strings dataArr))
      | Throw e => Some (Throw e, destObj)
      | Exit n => Some (Exit n, destObj)
      end
  end.

(** The body of the loop of putDataInObject for a header object that is not
    null: the switch on its type.  The default case of the switch needs a
    type other than the four of [header_kind].  The transform case matches
    the cell twice, as the source does; what it prints before
    [process.exit(0)] is not modelled.  In the split case a member of
    Object.prototype read under the name is truthy.  A run that leaves the
    records of the model (see [assign] and [map_fragments]) is [None]. *)
Definition put_column (data : value) (headerObj : HeaderObj) (destObj : props)
  : option (completion unit * props) :=
  match kind headerObj with
  | Transform header transform =>
      match str_match data transform with
      | Normal None => Some (Exit 0, destObj)
      | Normal (Some _) =>
          match str_match data transform with
          | Normal (Some matches) =>
              assigned (assign destObj header (group_at matches 1))
          | Normal None => Some (Throw TypeError, destObj)
          | Throw e => Some (Throw e, destObj)
          | Exit n => Some (Exit n, destObj)
          end
      | Throw e => Some (Throw e, destObj)
      | Exit n => Some (Exit n, destObj)
      end
  | Multi headers dataRegex =>
      match str_match data dataRegex with
      | Normal matches => Some (assign_groups matches headers 0 destObj)
      | Throw e => Some (Throw e, destObj)
      | Exit n => Some (Exit n, destObj)
      end
  | Split header2 delim =>
      match str_split data delim with
      | Normal dataArr =>
          match map headerObj with
          | Some mapRe =>
              let falsy :=
                match read destObj header2 with
                | Some held => negb (truthy held)
                | None => false
                end in
              if falsy
              then
                match assign destObj header2 (VObj []) with
                | Some destObj =>
                    map_fragments header2 mapRe dataArr dataArr destObj
                | None => None
                end
              else map_fragments header2 mapRe dataArr dataArr destObj
          | None => assigned (assign destObj header2 (strings dataArr))
          end
      | Throw e => Some (Throw e, destObj)
      | Exit n => Some (Exit n, destObj)
      end
  | Norm header3 => assigned (assign destObj header3 data)
  end.

(** putDataInObject(dataArr, headerObjArr, destObj).  A column whose header
    object is null, or lies past the end of [headerObjArr], is passed over. *)
Fixpoint putDataInObject (dataArr : list value)
    (headerObjArr : list (option HeaderObj)) (destObj : props)
  : option (completion unit * props) :=
  match dataArr with
  | [] => Some (Normal tt, destObj)
  | data :: rest =>
      match headerObjArr with
      | [] => putDataInObject rest [] destObj
      | None :: hs => putDataInObject rest hs destObj
      | Some headerObj :: hs =>
          match put_column data headerObj destObj with
          | Some (Normal _, destObj') => putDataInObject rest hs destObj'
          | other => other
          end
      end
  end.

(** rowToObj(row, headers), from the cells that rowToArray extracts from
    the row. *)
Definition rowToObj (cols : list value) (headers : list (option HeaderObj))
  : option (completion props) :=
  match putDataInObject cols headers [] with
  | Some (Normal _, obj) => Some (Normal obj)
  | Some (Throw e, _) => Some (Throw e)
  | Some (Exit n, _) => Some (Exit n)
  | None => None
  end.

(** rowsToArrayOfObj(rows, headers) *)
Fixpoint rowsToArrayOfObj_from (rows : list (list value))
    (headers : list (option HeaderObj)) (out : list props)
  : option (completion (list props)) :=
  match rows with
  | [] => Some (Normal out)
  | row :: rest =>
      match rowToObj row headers with
      | Some (Normal obj) => rowsToArrayOfObj_from rest headers (out ++ [obj])
      | Some (Throw e) => Some (Throw e)
      | Some (Exit n) => Some (Exit n)
      | None => None
      end
  end.

Definition rowsToArrayOfObj (rows : list (list value))
    (headers : list (option HeaderObj)) : option (completion (list props)) :=
  rowsToArrayOfObj_from rows headers [].

(** tableToArrayOfObj(table, rawHeaders), from the rows the selector finds
    in the table. *)
Definition tableToArrayOfObj (rows : list (list value))
    (rawHeaders : list (option string)) : option (completion (list props)) :=
  match processHeaders rawHeaders with
  | Normal headers => rowsToArrayOfObj rows headers
  | Throw e => Some (Throw e)
  | Exit n => Some (Exit n)
  end.

End WithHost.

(** *** Strings: sanitise, isEmptyString, arrayToString *)

(** What [\s] matches among the code units below 256: tab, line feed,
    vertical tab, form feed, carriage return, space, no-break space. *)
Definition is_space (c : ascii) : bool :=
  let n := nat_of_ascii c in
  ((9 <=? n) && (n <=? 13) || (n =? 32) || (n =? 160))%nat.

Fixpoint trim_start (s : string) : string :=
  match s with
  | EmptyString => EmptyString
  | String c rest => if is_space c then trim_start rest else s
  end.

Fixpoint trim_end (s : string) : string :=
  match s with
  | EmptyString => EmptyString
  | String c rest =>
      match trim_end rest with
      | EmptyString => if is_space c then EmptyString else String c EmptyString
      | rest' => String c rest'
      end
  end.

(** [s.replaceAll(/(^\s+|\s+$)/g, "")]: the run of whitespace at the start
    and the run at the end are removed. *)
Definition strip_ends (s : string) : string := trim_end (trim_start s).

(** Where the scan of [/(\s\s+)/g] stands: outside whitespace, after one
    whitespace character not yet written, or inside a run of two or more,
    whose replacement is written. *)
Inductive ws_state : Type :=
| Outside
| One (w : ascii)
| Run.

(** [s.replaceAll(/(\s\s+)/g, " ")]: every run of two or more whitespace
    characters becomes one space; a single whitespace character stays. *)
Fixpoint collapse_go (s : string) (st : ws_state) : string :=
  match s with
  | EmptyString =>
      match st with
      | One w => String w EmptyString
      | _ => EmptyString
      end
  | String c rest =>
      if is_space c
      then
        match st with
        | Outside => collapse_go rest (One c)
        | One _ => String " " (collapse_go rest Run)
        | Run => collapse_go rest Run
        end
      else
        match st with
        | One w => String w (String c (collapse_go rest Outside))
        | _ => String c (collapse_go rest Outside)
        end
  end.

Definition collapse (s : string) : string := collapse_go s Outside.

(** sanitise(str) on the strings of the model.  The one disallowed
    character, U+25A3, is no code unit of theirs, so the loop that removes
    it changes nothing; [wide.sanitise] below has the loop. *)
Definition sanitise (str : string) : string :=
  let out := strip_ends str in
  collapse out.

Fixpoint all_space (s : string) : bool :=
  match s with
  | EmptyString => true
  | String c rest => is_space c && all_space rest
  end.

(** isEmptyString(str): the value of the chain of [||], which is the first
    truthy operand or else the last one.  [!str] is true of a falsy value,
    [typeof str !== "string"] of any other value that is no string, and for
    a string the last operand, [str.match(/^\s*$/)], is the array of the
    match or null. *)
Definition isEmptyString (str : value) : value :=
  if negb (truthy str) then VBool true
  else
    match str with
    | VStr s => if all_space s then VArr [VStr s] else VNull
    | _ => VBool true
    end.

(** The text of an element inside [Array.prototype.join]. *)
Definition element_text (x : value) : string :=
  match x with
  | VUndefined | VNull => ""
  | _ => to_string x
  end.

(** arrayToString(arr, separator = ", ") *)
Definition arrayToString (arr : value) (separator : string) : value :=
  if negb (truthy arr) then arr
  else
    match arr with
    | VArr xs => VStr (join separator (List.map element_text xs))
    | _ => arr
    end.

(** *** sanitise and isEmptyString on the strings of the platform

    A string of the platform is a sequence of code units of 16 bits.  The
    strings of the model hold the code units below 256, so that they have
    neither the disallowed character nor the whitespace above them; [wide]
    has both functions on all strings. *)
Module wide.

Definition text : Type := list N.

(** The code units of a string of the model. *)
Fixpoint units (s : string) : text :=
  match s with
  | EmptyString => []
  | String c rest => N_of_ascii c :: units rest
  end.

(** [disallowed]: the code unit of each of its strings, which are one
    code unit long; the only one is U+25A3. *)
Definition disallowed : list N := [9635%N].

(** What [\s] matches: tab, line feed, vertical tab, form feed, carriage
    return, space, no-break space, U+1680, U+2000 to U+200A, U+2028,
    U+2029, U+202F, U+205F, U+3000 and U+FEFF. *)
Definition is_space (u : N) : bool :=
  ((9 <=? u) && (u <=? 13) || (u =? 32) || (u =? 160) || (u =? 5760)
   || (8192 <=? u) && (u <=? 8202) || (u =? 8232) || (u =? 8233)
   || (u =? 8239) || (u =? 8287) || (u =? 12288) || (u =? 65279))%N.

(** [str.replaceAll(remove, "")] for a string [remove] of one code unit *)
Definition remove_unit (remove : N) (str : text) : text :=
  List.filter (fun u => negb (u =? remove)%N) str.

Fixpoint trim_start (s : text) : text :=
  match s with
  | [] => []
  | c :: rest => if is_space c then trim_start rest else s
  end.

Fixpoint trim_end (s : text) : text :=
  match s with
  | [] => []
  | c :: rest =>
      match trim_end rest with
      | [] => if is_space c then [] else [c]
      | rest' => c :: rest'
      end
  end.

(** [s.replaceAll(/(^\s+|\s+$)/g, "")] *)
Definition strip_ends (s : text) : text := trim_end (trim_start s).

Inductive ws_state : Type :=
| Outside
| One (w : N)
| Run.

(** [s.replaceAll(/(\s\s+)/g, " ")] *)
Fixpoint collapse_go (s : text) (st : ws_state) : text :=
  match s with
  | [] =>
      match st with
      | One w => [w]
      | _ => []
      end
  | c :: rest =>
      if is_space c
      then
        match st with
        | Outside => collapse_go rest (One c)
        | One _ => 32%N :: collapse_go rest Run
        | Run => collapse_go rest Run
        end
      else
        match st with
        | One w => w :: c :: collapse_go rest Outside
        | _ => c :: collapse_go rest Outside
        end
  end.

Definition collapse (s : text) : text := collapse_go s Outside.

(** sanitise(str) *)
Definition sanitise (str : text) : text :=
  let str := fold_left (fun str remove => remove_unit remove str) disallowed str in
  let out := strip_ends str in
  collapse out.

(** Whether isEmptyString(str) is truthy for a string [str]: [!str] is true
    of the empty string, and for any other string the result is that of
    [str.match(/^\s*$/)], an array or null. *)
Definition isEmptyString (str : text) : bool :=
  match str with
  | [] => true
  | _ => forallb is_space str
  end.

End wide.

(** *** Objects: rearrangeObj, arrayToObjArr *)

(** The own property [key] of an object, undefined without one. *)
Definition read_prop (obj : props) (key : string) : value :=
  default VUndefined (assoc obj key).

(** The loop of rearrangeObj: [objOut[key] = obj[key]] for the keys still
    to come. *)
Fixpoint rearrange_keys (obj : props) (arrangement : list string)
    (objOut : props) : option props :=
  match arrangement with
  | [] => Some objOut
  | key :: rest =>
      match read obj key with
      | Some v =>
          match assign objOut key v with
          | Some objOut => rearrange_keys obj rest objOut
          | None => None
          end
      | None => None
      end
  end.

(** rearrangeObj(obj, arrangement), for a record [obj]; a run that reads a
    member of Object.prototype or gives [objOut] another prototype is
    [None]. *)
Definition rearrangeObj (obj : props) (arrangement : list string)
  : option props :=
  rearrange_keys obj arrangement [].

(** [obj[key] = col] on the object arrayToObjArr fills, for any value
    [col]: the own properties of [obj], and whether [obj] still inherits
    the accessor [__proto__].  Through the accessor a primitive changes
    nothing, and null or an object becomes the prototype of [obj]; the
    accessor is lost with the prototype null and hidden by a prototype
    that has a property [__proto__] of its own, and the key is then created
    as any other. *)
Definition assign_cell (obj : props * bool) (key : string) (col : value)
  : props * bool :=
  let (own, accessor) := obj in
  if has_own own key then (set_prop own key col, accessor)
  else if String.eqb key "__proto__" && accessor
  then (own,
        match col with
        | VNull => false
        | VObj ps => negb (has_own ps "__proto__")
        | _ => true
        end)
  else (create own key col, accessor).

(** The loop over [z] of arrayToObjArr: [obj[header[z]] = col[z]]. *)
Fixpoint assign_pairs (header col : list value) (z : nat) (obj : props * bool)
  : props * bool :=
  match col with
  | [] => obj
  | zCol :: rest =>
      assign_pairs header rest (S z)
        (assign_cell obj (to_string (array_get header z)) zCol)
  end.

(** The loop over [y]; [headers] is [None] for null, and reading an entry
    of null throws. *)
Fixpoint assign_row (row : list value) (headers : option (list value))
    (y : nat) (obj : props * bool) : completion (props * bool) :=
  match row with
  | [] => Normal obj
  | col :: rest =>
      match headers with
      | None => Throw TypeError
      | Some hs =>
          let header := array_get hs y in
          match col, header with
          | VArr cs, VArr hz =>
              assign_row rest headers (S y) (assign_pairs hz cs 0 obj)
          | _, _ =>
              assign_row rest headers (S y)
                (assign_cell obj (to_string header) col)
          end
      end
  end.

(** arrayToObjArr(arr, headers = null), for an array of arrays *)
Fixpoint arrayToObjArr (arr : list (list value)) (headers : option (list value))
  : completion (list props) :=
  match arr with
  | [] => Normal []
  | row :: rest =>
      let* obj := assign_row row headers 0 ([], true) in
      let* objArr := arrayToObjArr rest headers in
      Normal (fst obj :: objArr)
  end.

(** *** rowToArray *)

(** A cell of a row as cheerio gives it: its text and its markup. *)
Record cell_source : Type := { cell_text : string; cell_html : string }.

(** The loop of rowToArray from column [x] on; [unknownDataProcessor] is
    [None] for null, and a processor is a function that returns. *)
Fixpoint rowToArray_from (row : list cell_source)
    (unknownDataProcessor : option (Z -> string -> string -> value)) (x : Z)
  : list value :=
  match row with
  | [] => []
  | col :: rest =>
      let data := VStr (sanitise (cell_text col)) in
      let html := cell_html col in
      let data :=
        match unknownDataProcessor with
        | Some f =>
            let processed := f (x + 1)%Z html (sanitise (cell_text col)) in
            if negb (strict_eq_str processed html) then processed else data
        | None => data
        end in
      data :: rowToArray_from rest unknownDataProcessor (x + 1)%Z
  end.

(** rowToArray(row, unknownDataProcessor = null), from the children of the
    row *)
Definition rowToArray (row : list cell_source)
    (unknownDataProcessor : option (Z -> string -> string -> value))
  : list value :=
  rowToArray_from row unknownDataProcessor 0%Z.

(** *** generateCsv *)

Definition line_feed : string := String (ascii_of_nat 10) EmptyString.

Section GenerateCsv.

Context {host : RegExpHost}.

(** [s.replaceAll(new RegExp(source, "ig"), "")] for a string [s] and a
    source the platform compiles: the work of the platform. *)
Variable remove_matches : string -> string -> string.

(** [x.replaceAll(new RegExp(qualifier, "ig"), "")].  Reading the method of
    undefined or null throws before the argument is evaluated; on any other
    value the argument is evaluated first, and only a string has the
    method. *)
Definition strip_qualifier (x : value) (qualifier : string)
  : completion string :=
  match x with
  | VUndefined | VNull => Throw TypeError
  | VStr s =>
      let* re := new_RegExp qualifier in
      Normal (remove_matches (source re) s)
  | _ =>
      let* re := new_RegExp qualifier in
      Throw TypeError
  end.

(** The body of the loop over the headers: the field pushed onto [row].
    [objProcessor] is [None] for null, which is not callable. *)
Definition csv_field (objProcessor : option (string -> value -> value))
    (qualifier header : string) (obj : props) : completion string :=
  let data := read_prop obj header in
  if String.eqb (typeof data) "object"
  then
    match objProcessor with
    | Some f =>
        let* s := strip_qualifier (f header data) qualifier in
        Normal (qualifier ++ s ++ qualifier)
    | None => Throw TypeError
    end
  else
    let* s := strip_qualifier (read_prop obj header) qualifier in
    Normal (qualifier ++ s ++ qualifier).

Fixpoint csv_row (objProcessor : option (string -> value -> value))
    (qualifier : string) (headers : list string) (obj : props)
    (row : list string) : completion (list string) :=
  match headers with
  | [] => Normal row
  | header :: rest =>
      let* field := csv_field objProcessor qualifier header obj in
      csv_row objProcessor qualifier rest obj (row ++ [field])
  end.

(** The loop over the objects. *)
Fixpoint csv_rows (objProcessor : option (string -> value -> value))
    (qualifier : string) (headers : list string) (size : nat)
    (objArr : list props) (out : string) : completion string :=
  match objArr with
  | [] => Normal out
  | obj :: rest =>
      let* row := csv_row objProcessor qualifier headers obj [] in
      if negb (length row =? size)%nat
      then Throw (Thrown ("Row length " ++ string_of_nat (length row)
                          ++ " does not match csv size " ++ string_of_nat size))
      else csv_rows objProcessor qualifier headers size rest
             (out ++ join "," row ++ line_feed)
  end.

(** generateCsv(objArr, objProcessor = null, qualifier), for an array of
    objects; the keys of the first entry of an empty array are the keys of
    undefined, which throws. *)
Definition generateCsv (objArr : list props)
    (objProcessor : option (string -> value -> value)) (qualifier : string)
  : completion string :=
  match objArr with
  | [] => Throw TypeError
  | first :: _ =>
      let size := length (List.map fst first) in
      let headers := List.map fst first in
      let out :=
        "" ++ (qualifier ++ join (qualifier ++ "," ++ qualifier) headers
               ++ qualifier ++ line_feed) in
      csv_rows objProcessor qualifier headers size objArr out
  end.

End GenerateCsv.

(** *** The page cache: isExpired, fetchAsText

    The file system is the cache directory and the regular files by path,
    each with its text and its time of modification in milliseconds;
    creating the directory, writing a file and reading or removing a file
    that exists succeed.  The world also holds the clock and the URLs
    requested so far. *)

Record file : Type := { content : string; mtime : Z }.

Record world : Type := {
  cache_dir : bool;
  files : list (string * file);
  clock : Z;
  requests : list string
}.

Fixpoint read_file (fs : list (string * file)) (path : string) : option file :=
  match fs with
  | [] => None
  | (p, f) :: rest => if String.eqb p path then Some f else read_file rest path
  end.

Fixpoint write_file (fs : list (string * file)) (path : string) (f : file)
  : list (string * file) :=
  match fs with
  | [] => [(path, f)]
  | (p, g) :: rest =>
      if String.eqb p path then (p, f) :: rest
      else (p, g) :: write_file rest path f
  end.

Fixpoint remove_file (fs : list (string * file)) (path : string)
  : list (string * file) :=
  match fs with
  | [] => []
  | (p, g) :: rest =>
      if String.eqb p path then remove_file rest path
      else (p, g) :: remove_file rest path
  end.

Definition cacheDir : string := "./cache".
Definition ttl : Z := 1000 * 60 * 60 * 24 * 7.

(** mkDir(dir), for the cache directory *)
Definition mkDir (w : world) : world :=
  if negb (cache_dir w)
  then {| cache_dir := true; files := files w; clock := clock w;
          requests := requests w |}
  else w.

(** isExpired(file), from the time of modification of the file *)
Definition isExpired (modified : Z) : bool :=
  let expires := (modified + ttl)%Z in
  if (expires <=? modified)%Z then true else false.

(** writeFile(file, str) *)
Definition writeFile (w : world) (path str : string) : world :=
  {| cache_dir := cache_dir w;
     files := write_file (files w) path {| content := str; mtime := clock w |};
     clock := clock w;
     requests := requests w |}.

(** [fs.unlinkSync(file)] *)
Definition unlink (w : world) (path : string) : world :=
  {| cache_dir := cache_dir w;
     files := remove_file (files w) path;
     clock := clock w;
     requests := requests w |}.

Definition is_slash (c : ascii) : bool := (nat_of_ascii c =? 47)%nat.

(** The longest prefix without a slash. *)
Fixpoint segment (s : string) : string :=
  match s with
  | EmptyString => EmptyString
  | String c rest => if is_slash c then EmptyString else String c (segment rest)
  end.

(** [url.match(/\/[^\/]+/ig)]: the matches from left to right, each a slash
    and the run of other characters after it.  A match can only start at a
    slash, and the characters of a match hold none, so looking for the next
    match right behind the slash finds the same ones. *)
Fixpoint url_matches (url : string) : list string :=
  match url with
  | EmptyString => []
  | String c rest =>
      if is_slash c
      then
        match segment rest with
        | EmptyString => url_matches rest
        | seg => String c seg :: url_matches rest
        end
      else url_matches rest
  end.

(** [s.slice(1)] *)
Definition slice1 (s : string) : string :=
  match s with
  | EmptyString => EmptyString
  | String _ rest => rest
  end.

(** What [\w] matches. *)
Definition is_word (c : ascii) : bool :=
  let n := nat_of_ascii c in
  ((48 <=? n) && (n <=? 57) || (65 <=? n) && (n <=? 90)
   || (97 <=? n) && (n <=? 122) || (n =? 95))%nat.

(** Whether [s.match(/\.\w+/)] finds a match: a dot and a word character
    after it. *)
Fixpoint has_extension (s : string) : bool :=
  match s with
  | EmptyString => false
  | String c rest =>
      ((nat_of_ascii c =? 46)%nat
       && match rest with
          | String d _ => is_word d
          | EmptyString => false
          end)
      || has_extension rest
  end.

Section Fetch.

(** [fetch(url)] and [response.text()]: the text of the page, or a
    rejection. *)
Variable network : string -> completion string.

(** The part of fetchAsText from [fetch(url)] on. *)
Definition fetch_and_store (url : string) (doCache : bool) (cache : string)
    (w : world) : completion string * world :=
  let w := {| cache_dir := cache_dir w; files := files w; clock := clock w;
              requests := (requests w ++ [url])%list |} in
  match network url with
  | Normal html =>
      if doCache then (Normal html, writeFile w cache html)
      else (Normal html, w)
  | Throw e => (Throw e, w)
  | Exit n => (Exit n, w)
  end.

(** fetchAsText(url, doCache = true); a rejected promise is a throw.  No
    match of the URL is null, whose length cannot be read. *)
Definition fetchAsText (url : string) (doCache : bool) (w : world)
  : completion string * world :=
  match last (url_matches url) with
  | None => (Throw TypeError, w)
  | Some m =>
      let fileCandidate := slice1 m in
      let file :=
        if negb (has_extension fileCandidate)
        then fileCandidate ++ ".html"
        else fileCandidate in
      let w := mkDir w in
      let cache := cacheDir ++ "/" ++ file in
      match (if doCache then read_file (files w) cache else None) with
      | Some f =>
          if isExpired (mtime f)
          then fetch_and_store url doCache cache (unlink w cache)
          else (Normal (content f), w)
      | None => fetch_and_store url doCache cache w
      end
  end.

End Fetch.

End candiutil.

(** * Notions used in the statements *)

Local Close Scope string_scope.
Local Open Scope list_scope.

(** ** Row expansion *)

(** The empty string every slot starts with. *)
Definition blank : value := VStr "".

(** A grid of [H] rows and [W] columns given by its entries. *)
Definition grid_of (f : nat -> nat -> value) (H W : nat) : list (list value) :=
  (fun r => f r <$> seq 0 W) <$> seq 0 H.

(** The grid [f] with the entry of row [i], column [c] replaced. *)
Definition upd (f : nat -> nat -> value) (i c : nat) (v : value)
  : nat -> nat -> value :=
  fun r c' => if decide (r = i /\ c' = c) then v else f r c'.

(** The entry of row [r], column [c] of a list of rows. *)
Definition cell_at (rows : list (list value)) (r c : nat) : option value :=
  rows !! r ≫= fun row => row !! c.

(** Every element of the list but the last is truthy. *)
Fixpoint falsy_only_last (xs : list value) : bool :=
  match xs with
  | [] => true
  | x :: rest =>
      match rest with
      | [] => true
      | _ => truthy x && falsy_only_last rest
      end
  end.

Definition cell_settles (cell : value) : bool :=
  match cell with
  | VArr xs => falsy_only_last xs
  | _ => true
  end.

(** The height as the specification words it: the maximum over the cells of
    the length of a list cell and 1 for a scalar, and at least 1. *)
Definition cell_height (cell : value) : nat :=
  match cell with
  | VArr xs => length xs
  | _ => 1
  end.

Definition spec_height (data : list value) : nat :=
  Nat.max 1 (foldr Nat.max 0 (cell_height <$> data)).

(** The index of the first falsy value of a column, its length if there is
    none. *)
Fixpoint first_falsy (col : list value) : nat :=
  match col with
  | [] => 0
  | v :: rest => if truthy v then S (first_falsy rest) else 0
  end.

(** One element dropped into a column: it takes the first falsy slot, or a
    new slot at the bottom. *)
Definition drop_in (col : list value) (y : value) : list value :=
  array_set col (first_falsy col) y.

(** The column a list cell settles to when its elements are dropped in one
    after the other. *)
Definition settle (xs : list value) : list value := fold_left drop_in xs [].

(** What a slot of the output holds: in the column of a list cell the
    settled list and then empty strings, in the column of a scalar cell the
    scalar and then empty strings. *)
Definition expected_cell (cell : option value) (r : nat) : value :=
  match cell with
  | Some (VArr xs) => default blank (settle xs !! r)
  | Some v => if decide (r = 0) then v else blank
  | None => blank
  end.

(** [rows] has the height and the width of the output of the entry and
    holds [expected_cell] in every slot. *)
Definition output_of (this : CSVEntry.t) (rows : list (list value)) : Prop :=
  length rows = spec_height (CSVEntry.data this) /\
  Forall (fun row => length row = length (CSVEntry.headers this)) rows /\
  (forall r c,
     r < spec_height (CSVEntry.data this) ->
     c < length (CSVEntry.headers this) ->
     cell_at rows r c = Some (expected_cell (CSVEntry.data this !! c) r)).

(** [rows] expands the entry: the height and the width are right, the
    elements of a list cell fill its column from the top, one row each, a
    scalar cell sits in the first row, and the rest of both columns is
    empty. *)
Definition expansion_of (this : CSVEntry.t) (rows : list (list value)) : Prop :=
  length rows = spec_height (CSVEntry.data this) /\
  Forall (fun row => length row = length (CSVEntry.headers this)) rows /\
  (forall c xs, CSVEntry.data this !! c = Some (VArr xs) ->
     (forall i x, xs !! i = Some x -> cell_at rows i c = Some x) /\
     (forall r, length xs <= r < length rows -> cell_at rows r c = Some blank)) /\
  (forall c v, CSVEntry.data this !! c = Some v -> isArray v = false ->
     cell_at rows 0 c = Some v /\
     (forall r, 0 < r < length rows -> cell_at rows r c = Some blank)).

(** The entry of the specification: a scalar under a, three values under b. *)
Definition sample_entry : CSVEntry.t :=
  {| CSVEntry.headers := [VStr "a"; VStr "b"];
     CSVEntry.data := [VStr "x"; VArr [VStr "1"; VStr "2"; VStr "3"]];
     CSVEntry.data_minus1 := VUndefined |}.

(** An entry with fewer cells than headers. *)
Definition short_entry : CSVEntry.t :=
  {| CSVEntry.headers := [VStr "a"; VStr "b"; VStr "c"];
     CSVEntry.data := [VStr "x"; VArr [VStr "1"; VStr "2"]];
     CSVEntry.data_minus1 := VUndefined |}.

(** An entry whose list cell holds the number 0 before a later element, and
    one that holds the empty string there. *)
Definition zero_entry : CSVEntry.t :=
  {| CSVEntry.headers := [VStr "a"];
     CSVEntry.data := [VArr [VNum 0; VStr "x"]];
     CSVEntry.data_minus1 := VUndefined |}.

Definition empty_string_entry : CSVEntry.t :=
  {| CSVEntry.headers := [VStr "a"];
     CSVEntry.data := [VArr [VStr ""; VStr "x"]];
     CSVEntry.data_minus1 := VUndefined |}.

(** ** Serialisation *)

(** A completion that is normal or a TypeError. *)
Definition benign {A : Type} (c : completion A) : Prop :=
  match c with
  | Normal _ => True
  | Throw TypeError => True
  | _ => False
  end.

(** The text of a field between its qualifiers: empty for a falsy value
    other than the number 0. *)
Definition field_body (data : value) : string :=
  if negb (truthy data) && negb (match data with VNum 0 => true | _ => false end)
  then ""%string
  else to_string data.

Definition field_text (this : CSV.t) (data : value) : string :=
  (CSV.qualifier this ++ field_body data ++ CSV.qualifier this)%string.

(** The fields of a row joined by the delimiter, the rows joined by a line
    feed. *)
Definition render_row (this : CSV.t) (row : list value) : string :=
  join (CSV.delimeter this) (List.map (field_text this) row).

Definition render (this : CSV.t) (lines : list (list value)) : string :=
  join CSV.newline (List.map (render_row this) lines).

Definition quoted (s : string) : string := (CSV.quote ++ s ++ CSV.quote)%string.

(** The document of the specification: headers a and b, the default
    options, before and after the object with x under a and y under b. *)
Definition sample_document : CSV.t :=
  {| CSV.currentLine := VUndefined;
     CSV.headers := [VStr "a"; VStr "b"];
     CSV.entries := [];
     CSV.qualifier := CSV.quote;
     CSV.delimeter := "," |}.

Definition sample_object : value := VObj [("a", VStr "x"); ("b", VStr "y")]%string.

Definition sample_document_filled : CSV.t :=
  CSV.push_entry sample_document
    (CSV.Instance
       {| CSVEntry.headers := [VStr "a"; VStr "b"];
          CSVEntry.data := [VStr "x"; VStr "y"];
          CSVEntry.data_minus1 := VUndefined |}).

(** ** Adding rows *)

(** The calls that change a document. *)
Inductive call : Type :=
| AddLine (line : value)
| AddObject (obj : value).

Definition perform (this : CSV.t) (c : call) : CSV.t :=
  match c with
  | AddLine line => snd (CSV.addLine this line)
  | AddObject obj => snd (CSV.addObject this obj)
  end.

(** [add] takes the value: it is no object, or it is an array. *)
Definition addable (v : value) : bool :=
  negb (String.eqb (typeof v) "object" && negb (isArray v)).

(** The loop of addObject gets past the key. *)
Definition accepted (this : CSV.t) (obj : value) (key : string) : Prop :=
  array_includes (CSV.headers this) key = true /\
  addable (get_prop obj key) = true.


(** ** Header templates and assembly *)

(** The key and the value a fragment contributes when it matches the map
    pattern. *)
Definition fragment_pair {host : candiutil.RegExpHost}
    (mapRe : candiutil.RegExp) (frag : option string)
  : option (string * value) :=
  match frag with
  | Some f =>
      match candiutil.regexp_exec (candiutil.source mapRe) f with
      | Some matches =>
          Some (to_string (candiutil.group_at matches 1),
                candiutil.group_at matches 2)
      | None => None
      end
  | None => None
  end.

(** The object that results from writing the pairs in order into an empty
    object. *)
Definition mapping_of (pairs : list (string * value)) : candiutil.props :=
  fold_left (fun o p => candiutil.store o (fst p) (snd p)) pairs [].

(** The record holds nothing truthy under the name, neither of its own nor
    inherited. *)
Definition vacant (destObj : candiutil.props) (header : string) : bool :=
  match candiutil.read destObj header with
  | Some held => negb (truthy held)
  | None => false
  end.


(** A platform for the examples.  It answers as the RegExp of the host does
    on the patterns and subjects listed here, which are all the examples
    use: no match and no split elsewhere, and only the listed sources
    compile. *)
Definition sample_matches : list (string * string * list (option string)) :=
  [ ("(\d+) items", "12 items", [Some "12 items"; Some "12"]);
    ("(\d+)-(\d+)", "3-4", [Some "3-4"; Some "3"; Some "4"]);
    ("(\w+)=(\w+)", "a=1", [Some "a=1"; Some "a"; Some "1"]);
    ("(\w+)=(\w+)", "b=2", [Some "b=2"; Some "b"; Some "2"]) ]%string.

Definition sample_splits : list (string * string * list (option string)) :=
  [ (",", "a=1,b=2", [Some "a=1"; Some "b=2"]);
    (",", "a=1,oops", [Some "a=1"; Some "oops"]) ]%string.

Definition sample_sources : list string :=
  [ "(\d+) items"; "(\d+)-(\d+)"; "(\w+)=(\w+)"; "," ]%string.

Fixpoint table_lookup {A : Type} (table : list (string * string * A))
    (src s : string) : option A :=
  match table with
  | [] => None
  | (src', s', a) :: rest =>
      if String.eqb src' src && String.eqb s' s then Some a
      else table_lookup rest src s
  end.

Definition sample_host : candiutil.RegExpHost :=
  {| candiutil.regexp_valid := fun src => existsb (String.eqb src) sample_sources;
     candiutil.regexp_exec := table_lookup sample_matches;
     candiutil.regexp_split :=
       fun src s => default [Some s] (table_lookup sample_splits src s) |}.

(** Templates of the three bracket forms and the header objects they
    compile to. *)
Definition transform_template : string := "qty//(\d+) items\\".
Definition multi_template : string := "lo,,hi[[(\d+)-(\d+)]]".
Definition split_map_template : string := "tags{{,}}<<(\w+)=(\w+)>>".

Definition transform_header : candiutil.HeaderObj :=
  {| candiutil.kind :=
       candiutil.Transform "qty" {| candiutil.source := "(\d+) items" |};
     candiutil.map := None |}.

Definition multi_header : candiutil.HeaderObj :=
  {| candiutil.kind :=
       candiutil.Multi ["lo"; "hi"]%string {| candiutil.source := "(\d+)-(\d+)" |};
     candiutil.map := None |}.

Definition split_map_header : candiutil.HeaderObj :=
  {| candiutil.kind := candiutil.Split "tags" {| candiutil.source := "," |};
     candiutil.map := Some {| candiutil.source := "(\w+)=(\w+)" |} |}.

(** A transform template whose name is [__proto__], and a template whose
    bracket content is no regular expression. *)
Definition proto_template : string := "__proto__//(\d+) items\\".
Definition broken_template : string := "qty//(\\".

Definition proto_header : candiutil.HeaderObj :=
  {| candiutil.kind :=
       candiutil.Transform "__proto__" {| candiutil.source := "(\d+) items" |};
     candiutil.map := None |}.

(** A platform that also answers on the fragment [__proto__=1], and on a
    delimiter with a capture group, which leaves an undefined entry between
    the fragments where the group took no part. *)
Definition edge_host : candiutil.RegExpHost :=
  {| candiutil.regexp_valid :=
       fun src => existsb (String.eqb src) ("(;)|," :: sample_sources);
     candiutil.regexp_exec :=
       table_lookup
         (("(\w+)=(\w+)", "__proto__=1",
           [Some "__proto__=1"; Some "__proto__"; Some "1"]) :: sample_matches);
     candiutil.regexp_split :=
       fun src s =>
         default [Some s]
           (table_lookup (("(;)|,", "a=1,b=2", [Some "a=1"; None; Some "b=2"])
                          :: sample_splits) src s) |}.

Definition grouped_split_header : candiutil.HeaderObj :=
  {| candiutil.kind := candiutil.Split "tags" {| candiutil.source := "(;)|," |};
     candiutil.map := Some {| candiutil.source := "(\w+)=(\w+)" |} |}.

(** ** Entries, objects and lines of a document *)

(** The values of an object under the given keys, in their order. *)
Definition values_under (obj : value) (keys : list string) : list value :=
  (fun key => get_prop obj key) <$> keys.

(** An entry as addObject builds it. *)
Definition entry_of (headers data : list value) : CSVEntry.t :=
  {| CSVEntry.headers := headers; CSVEntry.data := data;
     CSVEntry.data_minus1 := VUndefined |}.

(** A value that is no object: undefined, a boolean, a number or a
    string. *)
Definition scalar (v : value) : bool := negb (String.eqb (typeof v) "object").

(** The keys of the object are the headers in some order and its values
    are scalars. *)
Definition flat_for (hs : list string) (props : list (string * value)) : Prop :=
  props.*1 ≡ₚ hs /\ Forall (fun p => scalar p.2 = true) props.

(** The cells written while addObject runs: those of the headers in
    [seen], the others still missing. *)
Definition filled (hs : list string) (obj : value) (seen : list string)
    (row : CSVEntry.t) : Prop :=
  CSVEntry.data_minus1 row = VUndefined /\
  length (CSVEntry.data row) <= length hs /\
  forall i h, hs !! i = Some h ->
    (h ∈ seen -> i < length (CSVEntry.data row)) /\
    array_get (CSVEntry.data row) i
    = if decide (h ∈ seen) then get_prop obj h else VUndefined.


(** The lines addLine takes: a falsy value, or an array as long as the
    header list. *)
Definition takes_line (headers : list value) (line : value) : bool :=
  negb (truthy line)
  || match line with
     | VArr xs => (length xs =? length headers)%nat
     | _ => false
     end.


(** The entry after the values were added under the header one after the
    other. *)
Definition add_all (this : CSVEntry.t) (header : string) (vs : list value)
  : CSVEntry.t :=
  fold_left (fun row v => snd (CSVEntry.add row header v)) vs this.

(** What add leaves in a cell that held [old]. *)
Definition merged (old v : value) : value :=
  if truthy old
  then match old with
       | VArr xs => VArr (xs ++ [v])
       | _ => VArr [old; v]
       end
  else v.

(** An entry with headers a and b and nothing in its cells. *)
Definition empty_entry : CSVEntry.t := entry_of [VStr "a"; VStr "b"] [].

(** ** Tidy text *)

Definition starts_with_space (s : string) : bool :=
  match s with
  | String c _ => candiutil.is_space c
  | EmptyString => false
  end.

Fixpoint ends_with_space (s : string) : bool :=
  match s with
  | EmptyString => false
  | String c EmptyString => candiutil.is_space c
  | String _ rest => ends_with_space rest
  end.

Fixpoint no_double_space (s : string) : bool :=
  match s with
  | EmptyString => true
  | String c rest =>
      match rest with
      | String d _ =>
          negb (candiutil.is_space c && candiutil.is_space d)
          && no_double_space rest
      | EmptyString => true
      end
  end.

(** No whitespace at either end and no two whitespace characters in a
    row. *)
Definition tidy (s : string) : bool :=
  negb (starts_with_space s) && negb (ends_with_space s) && no_double_space s.

(** The same of a string of the platform. *)
Module Platform.

Definition starts_with_space (s : candiutil.wide.text) : bool :=
  match s with
  | c :: _ => candiutil.wide.is_space c
  | [] => false
  end.

Fixpoint ends_with_space (s : candiutil.wide.text) : bool :=
  match s with
  | [] => false
  | [c] => candiutil.wide.is_space c
  | _ :: rest => ends_with_space rest
  end.

Fixpoint no_double_space (s : candiutil.wide.text) : bool :=
  match s with
  | [] => true
  | c :: rest =>
      match rest with
      | d :: _ =>
          negb (candiutil.wide.is_space c && candiutil.wide.is_space d)
          && no_double_space rest
      | [] => true
      end
  end.

Definition tidy (s : candiutil.wide.text) : bool :=
  negb (starts_with_space s) && negb (ends_with_space s) && no_double_space s.

(** Whether the code unit is one of the disallowed characters. *)
Definition is_disallowed (u : N) : bool :=
  existsb (N.eqb u) candiutil.wide.disallowed.

(** The code units of a string that are no whitespace, and those among
    them that are not disallowed. *)
Definition visible (s : candiutil.wide.text) : candiutil.wide.text :=
  List.filter (fun u => negb (candiutil.wide.is_space u)) s.

Definition kept (s : candiutil.wide.text) : candiutil.wide.text :=
  List.filter (fun u => negb (is_disallowed u)) (visible s).

End Platform.

(** ** Records *)

(** A key that an assignment creates after the keys already there: neither
    [__proto__] nor an array index. *)
Definition named_key (key : string) : bool :=
  negb (String.eqb key "__proto__")
  && match candiutil.array_index key with
     | Some _ => false
     | None => true
     end.

(** A value that is written as the model writes it: a number is a safe
    integer, at most 2^53 - 1 in size, which is a number of the platform
    and is written in decimal digits. *)
Definition safe_number (v : value) : bool :=
  match v with
  | VNum n => (Z.abs n <=? 9007199254740991)%Z
  | _ => true
  end.

(** The record with the given keys in their order, each holding what the
    object holds under it. *)
Definition picked (obj : candiutil.props) (keys : list string)
  : candiutil.props :=
  (fun key => (key, candiutil.read_prop obj key)) <$> keys.

(** ** The page cache *)

(** The world at another time of day. *)
Definition at_time (t : Z) (w : candiutil.world) : candiutil.world :=
  {| candiutil.cache_dir := candiutil.cache_dir w;
     candiutil.files := candiutil.files w;
     candiutil.clock := t;
     candiutil.requests := candiutil.requests w |}.

(** The world after a request for the URL that wrote no file. *)
Definition requested (url : string) (w : candiutil.world) : candiutil.world :=
  {| candiutil.cache_dir := true;
     candiutil.files := candiutil.files w;
     candiutil.clock := candiutil.clock w;
     candiutil.requests := candiutil.requests w ++ [url] |}.

Fixpoint no_slash (s : string) : bool :=
  match s with
  | EmptyString => true
  | String c rest => negb (candiutil.is_slash c) && no_slash rest
  end.

Fixpoint slashes (n : nat) : string :=
  match n with
  | O => EmptyString
  | S n' => String "/" (slashes n')
  end.

(** A world with nothing on disk, and a network that serves one page. *)
Definition empty_world : candiutil.world :=
  {| candiutil.cache_dir := false; candiutil.files := [];
     candiutil.clock := 0; candiutil.requests := [] |}.

Definition sample_network (url : string) : completion string :=
  if String.eqb url "https://a.example/index.html"
  then Normal "<p>hello</p>"%string
  else Throw TypeError.

Definition offline (url : string) : completion string := Throw TypeError.

(** ** generateCsv *)

(** What generateCsv can end in: its text, a TypeError or a SyntaxError. *)
Definition text_or_platform_error (c : completion string) : Prop :=
  match c with
  | Normal _ | Throw TypeError | Throw SyntaxError => True
  | _ => False
  end.

Definition is_string (v : value) : bool :=
  match v with
  | VStr _ => true
  | _ => false
  end.

Definition text_of (v : value) : string :=
  match v with
  | VStr s => s
  | _ => EmptyString
  end.

(** Every object holds a string under every one of the keys. *)
Definition strings_under (keys : list string) (objArr : list candiutil.props)
  : Prop :=
  Forall (fun obj =>
            Forall (fun key => is_string (candiutil.read_prop obj key) = true)
              keys)
    objArr.

(** The header line and the line of an object as generateCsv writes them,
    [strip] being what the platform leaves of a field. *)
Definition csv_header_line (qualifier : string) (keys : list string) : string :=
  (qualifier ++ join (qualifier ++ "," ++ qualifier) keys ++ qualifier
   ++ candiutil.line_feed)%string.

Definition csv_object_line (strip : string -> string) (qualifier : string)
    (keys : list string) (obj : candiutil.props) : string :=
  (join ","
     ((fun key =>
         qualifier ++ strip (text_of (candiutil.read_prop obj key)) ++ qualifier)
      <$> keys)
   ++ candiutil.line_feed)%string.

(** A platform on which only the double quote compiles, and the removal of
    the double quotes of a string. *)
Definition quote_host : candiutil.RegExpHost :=
  {| candiutil.regexp_valid := fun src => String.eqb src CSV.quote;
     candiutil.regexp_exec := fun _ _ => None;
     candiutil.regexp_split := fun _ s => [Some s] |}.

Fixpoint remove_quotes (s : string) : string :=
  match s with
  | EmptyString => EmptyString
  | String c rest =>
      if (nat_of_ascii c =? 34)%nat then remove_quotes rest
      else String c (remove_quotes rest)
  end.

(** ** Templates *)

(** Whether the token occurs somewhere in the string. *)
Fixpoint occurs (tok s : string) : bool :=
  match candiutil.strip_prefix tok s with
  | Some _ => true
  | None =>
      match s with
      | EmptyString => false
      | String _ rest => occurs tok rest
      end
  end.

(** A template without the opening token of any bracket pair. *)
Definition plain (header : string) : bool :=
  negb (occurs "[[" header) && negb (occurs "{{" header)
  && negb (occurs "<<" header) && negb (occurs "//" header).

(** One or more characters, none of them a line terminator: what a group
    of the header grammar can hold. *)
Fixpoint one_line (s : string) : bool :=
  match s with
  | EmptyString => true
  | String c rest => negb (candiutil.is_line_terminator c) && one_line rest
  end.

Definition group_text (s : string) : Prop :=
  s <> EmptyString /\ one_line s = true.

(** The template read as the text before a bracket pair, the group in
    front of it, its opening token, the group inside it, its closing token
    and the text after it. *)
Definition decomposes (re : candiutil.grammar_regex) (header : string)
    (m : candiutil.grammar_match) : Prop :=
  header
  = (candiutil.before m ++ candiutil.group1 m ++ candiutil.open_tok re
     ++ candiutil.group2 m ++ candiutil.close_tok re ++ candiutil.after m)%string
  /\ group_text (candiutil.group1 m) /\ group_text (candiutil.group2 m).

(** The template holds a bracket pair of the recogniser. *)
Definition bracketed (re : candiutil.grammar_regex) (header : string) : Prop :=
  exists m, decomposes re header m.

(** The first bracket pair of the template: the one that starts furthest
    to the left, with the shortest group in front of it and then the
    shortest group inside it. *)
Definition first_bracket (re : candiutil.grammar_regex) (header : string)
    (m : candiutil.grammar_match) : Prop :=
  decomposes re header m /\
  forall m', decomposes re header m' ->
    String.length (candiutil.before m) < String.length (candiutil.before m') \/
    (String.length (candiutil.before m) = String.length (candiutil.before m') /\
     (String.length (candiutil.group1 m) < String.length (candiutil.group1 m') \/
      (String.length (candiutil.group1 m) = String.length (candiutil.group1 m') /\
       String.length (candiutil.group2 m)
       <= String.length (candiutil.group2 m')))).

(** The recognisers whose bracket content processHeaders compiles for the
    template: the one of the map, and the first one in the order
    transform, multi, split of which the template holds a bracket pair. *)
Definition compiled (re : candiutil.grammar_regex) (header : string) : Prop :=
  re = candiutil.mapDataRegex \/
  re = candiutil.transformDataRegex \/
  (re = candiutil.multiDataRegex /\
   ~ bracketed candiutil.transformDataRegex header) \/
  (re = candiutil.splitDataRegex /\
   ~ bracketed candiutil.transformDataRegex header /\
   ~ bracketed candiutil.multiDataRegex header).

(** The header object of a template without brackets. *)
Definition norm_header (header : string) : option candiutil.HeaderObj :=
  Some {| candiutil.kind := candiutil.Norm header; candiutil.map := None |}.

(** * Properties *)

(** ** The row expander, getOutputRows *)

Section Expander.

Import CSVEntry.

(** *** Grids given by their entries *)

Lemma grid_of_lookup f H W r :
  r < H -> grid_of f H W !! r = Some (f r <$> seq 0 W).
Proof.
  intros Hr. unfold grid_of. rewrite list_lookup_fmap, lookup_seq_lt by done.
  reflexivity.
Qed.

Lemma grid_of_lookup_ge f H W r : H <= r -> grid_of f H W !! r = None.
Proof.
  intros Hr. apply lookup_ge_None_2. unfold grid_of.
  rewrite length_fmap, length_seq. done.
Qed.

Lemma grid_row_get (g : nat -> value) W c :
  c < W -> array_get (g <$> seq 0 W) c = g c.
Proof.
  intros Hc. unfold array_get.
  rewrite list_lookup_fmap, lookup_seq_lt by done. reflexivity.
Qed.

Lemma blank_output_grid hs H :
  blank_output hs H = grid_of (fun _ _ => blank) H (length hs).
Proof.
  unfold blank_output, grid_of, blank_row.
  assert (R : map (fun _ : value => VStr "") hs
              = (fun _ : nat => blank) <$> seq 0 (length hs)).
  { generalize 0. induction hs as [|h hs IH]; intros n; csimpl; [done|].
    f_equal. apply IH. }
  rewrite R. generalize ((fun _ : nat => blank) <$> seq 0 (length hs)).
  intros row. generalize 0.
  induction H as [|H IH]; intros n; csimpl; [done|]. f_equal. apply IH.
Qed.

Lemma put_grid f H W i c v :
  i < H -> c < W ->
  put (grid_of f H W) i c v = Normal (grid_of (upd f i c v) H W).
Proof.
  intros Hi Hc. unfold put. rewrite grid_of_lookup by done. f_equal.
  unfold array_set. rewrite length_fmap, length_seq.
  destruct (decide (c < W)) as [_|]; [|lia].
  apply list_eq. intros r.
  destruct (decide (r = i)) as [->|Hne].
  - rewrite list_lookup_insert_eq
      by (unfold grid_of; rewrite length_fmap, length_seq; done).
    rewrite grid_of_lookup by done. f_equal.
    apply list_eq. intros c'.
    destruct (decide (c' = c)) as [->|Hne'].
    + rewrite list_lookup_insert_eq by (rewrite length_fmap, length_seq; done).
      rewrite list_lookup_fmap, lookup_seq_lt by done. simpl.
      unfold upd. rewrite decide_True by done. done.
    + rewrite list_lookup_insert_ne by done.
      rewrite !list_lookup_fmap. destruct (seq 0 W !! c') as [x|] eqn:E; [|done].
      apply lookup_seq in E as [-> _]. simpl. unfold upd.
      rewrite decide_False by tauto. done.
  - rewrite list_lookup_insert_ne by done.
    destruct (decide (r < H)).
    + rewrite !grid_of_lookup by done. f_equal. apply list_fmap_ext.
      intros j c' Hc'. unfold upd. rewrite decide_False by tauto. done.
    + rewrite !grid_of_lookup_ge by lia. done.
Qed.

(** *** The search for a slot *)

Lemma find_slot_first rows c k i :
  (forall j, j < i ->
     exists r, rows !! j = Some r /\ truthy (array_get r c) = true) ->
  (exists r, rows !! i = Some r /\ truthy (array_get r c) = false) ->
  find_slot rows c k = Normal (k + i).
Proof.
  revert rows k. induction i as [|i IH]; intros rows k Hlt [r [Hr Hf]].
  - destruct rows as [|r0 rows]; [done|]. simpl in Hr. injection Hr as ->.
    simpl. rewrite Hf. f_equal. lia.
  - destruct rows as [|r0 rows]; [done|]. simpl.
    destruct (Hlt 0) as [r1 [H1 T1]]; [lia|]. simpl in H1. injection H1 as ->.
    rewrite T1. rewrite IH.
    + f_equal. lia.
    + intros j Hj. apply (Hlt (S j)). lia.
    + exists r. done.
Qed.

Lemma find_slot_grid f H W c i :
  c < W -> i < H ->
  (forall j, j < i -> truthy (f j c) = true) ->
  truthy (f i c) = false ->
  find_slot (grid_of f H W) c 0 = Normal i.
Proof.
  intros Hc Hi Ht Hf. rewrite (find_slot_first _ _ _ i); [done| |].
  - intros j Hj. eexists. rewrite grid_of_lookup by lia. split; [done|].
    rewrite grid_row_get by done. auto.
  - eexists. rewrite grid_of_lookup by lia. split; [done|].
    rewrite grid_row_get by done. auto.
Qed.

(** *** A list cell dropped into its column *)

Lemma first_falsy_le (col : list value) : first_falsy col <= length col.
Proof.
  induction col as [|v col IH]; simpl; [lia|]. destruct (truthy v); simpl; lia.
Qed.

Lemma first_falsy_above (col : list value) j :
  j < first_falsy col -> exists v, col !! j = Some v /\ truthy v = true.
Proof.
  revert j. induction col as [|v col IH]; intros j Hj; simpl in Hj; [lia|].
  destruct (truthy v) eqn:T; [|lia].
  destruct j as [|j]; [exists v; done|]. apply IH. lia.
Qed.

Lemma first_falsy_at (col : list value) :
  truthy (default blank (col !! first_falsy col)) = false.
Proof.
  induction col as [|v col IH]; simpl; [done|].
  destruct (truthy v) eqn:T; simpl; [exact IH|exact T].
Qed.

Lemma length_drop_in (col : list value) y :
  length (drop_in col y) <= S (length col).
Proof.
  unfold drop_in, array_set. pose proof (first_falsy_le col).
  destruct (decide (first_falsy col < length col)).
  - rewrite length_insert. lia.
  - rewrite !length_app, length_replicate. simpl. lia.
Qed.

Lemma lookup_drop_in (col : list value) y r :
  default blank (drop_in col y !! r)
  = if decide (r = first_falsy col) then y else default blank (col !! r).
Proof.
  unfold drop_in, array_set. pose proof (first_falsy_le col) as Hle.
  destruct (decide (first_falsy col < length col)) as [Hlt|Hge].
  - destruct (decide (r = first_falsy col)) as [->|Hne].
    + rewrite list_lookup_insert_eq by done. done.
    + rewrite list_lookup_insert_ne by done. done.
  - assert (first_falsy col = length col) as -> by lia.
    rewrite Nat.sub_diag. simpl.
    destruct (decide (r = length col)) as [->|Hne].
    + rewrite lookup_app_r by lia. rewrite Nat.sub_diag. done.
    + destruct (decide (r < length col)).
      * rewrite lookup_app_l by done. done.
      * rewrite (lookup_ge_None_2 col) by lia.
        rewrite lookup_ge_None_2; [done|]. rewrite length_app. simpl. lia.
Qed.

Lemma place_list_settles (xs : list value) : forall f H W c (col : list value),
  c < W -> length col + length xs <= H ->
  (forall r, r < H -> f r c = default blank (col !! r)) ->
  exists g, place_list (grid_of f H W) c xs = Normal (grid_of g H W) /\
    (forall r, r < H -> g r c = default blank (fold_left drop_in xs col !! r)) /\
    (forall r c', c' <> c -> g r c' = f r c').
Proof.
  induction xs as [|y rest IH]; intros f H W c col Hc Hlen Hcol.
  - exists f. done.
  - simpl in Hlen. cbn [place_list fold_left].
    pose proof (first_falsy_le col) as Hle.
    rewrite (find_slot_grid f H W c (first_falsy col)); [|done|lia| |].
    2:{ intros j Hj. rewrite Hcol by lia.
        destruct (first_falsy_above col j Hj) as [v [-> Hv]]. exact Hv. }
    2:{ rewrite Hcol by lia. apply first_falsy_at. }
    cbn [bind]. rewrite put_grid by (done || lia). cbn [bind].
    pose proof (length_drop_in col y) as Hd.
    destruct (IH (upd f (first_falsy col) c y) H W c (drop_in col y))
      as [g [Hg [G1 G2]]]; [done|lia| |].
    { intros r Hr. rewrite lookup_drop_in. unfold upd.
      destruct (decide (r = first_falsy col)) as [->|Hne].
      - rewrite decide_True by done. done.
      - rewrite decide_False by tauto. auto. }
    exists g. split; [done|]. split; [done|].
    intros r c' Hne. rewrite G2 by done. unfold upd.
    rewrite decide_False by tauto. done.
Qed.


(** *** The loop over the columns, and the height *)

Lemma fill_columns_grid (data : list value) : forall col f H W,
  0 < H -> col + length data <= W ->
  Forall (fun cell => cell_height cell <= H) data ->
  (forall r c, r < H -> col <= c -> f r c = blank) ->
  exists g, fill_columns data col (grid_of f H W) = Normal (grid_of g H W) /\
    forall r c, r < H ->
      g r c = if decide (c < col) then f r c
              else expected_cell (data !! (c - col)) r.
Proof.
  induction data as [|cell rest IH]; intros col f H W HH Hw Hh Hblank.
  - exists f. split; [done|]. intros r c Hr. destruct (decide (c < col)); [done|].
    rewrite Hblank by lia. done.
  - simpl in Hw. inversion Hh as [|? ? Hh1 Hh2]; subst.
    assert (Scalar : forall v, isArray v = false ->
      (forall rest', fill_columns (v :: rest') col (grid_of f H W)
         = (let* output' := put (grid_of f H W) 0 col v in
            fill_columns rest' (S col) output')) ->
      cell = v ->
      exists g, fill_columns (cell :: rest) col (grid_of f H W)
                = Normal (grid_of g H W) /\
        forall r c, r < H ->
          g r c = if decide (c < col) then f r c
                  else expected_cell ((cell :: rest) !! (c - col)) r).
    { intros v Hv Hstep ->. rewrite Hstep. rewrite put_grid by lia. cbn [bind].
      destruct (IH (S col) (upd f 0 col v) H W) as [g [Hg G]]; [done|lia|done| |].
      { intros r c Hr Hc. unfold upd. rewrite decide_False by lia.
        apply Hblank; lia. }
      exists g. split; [done|]. intros r c Hr. rewrite G by done.
      destruct (decide (c < S col)) as [Hlt|Hge].
      - unfold upd. destruct (decide (c < col)) as [Hlt'|Hge'].
        + rewrite decide_False by lia. done.
        + assert (c = col) as -> by lia. rewrite Nat.sub_diag. simpl.
          destruct (decide (r = 0)) as [->|Hr0].
          * rewrite decide_True by done. destruct v; done.
          * rewrite decide_False by tauto. rewrite Hblank by lia.
            destruct v; done.
      - rewrite decide_False by lia.
        replace (c - col) with (S (c - S col)) by lia. done. }
    destruct cell as [| |b|n|s|xs|ps];
      try (match goal with
           | |- context [fill_columns (?v :: _)] =>
               apply (Scalar v eq_refl); [intros; reflexivity|reflexivity]
           end).
    cbn [fill_columns]. simpl in Hh1.
    destruct (place_list_settles xs f H W col []) as [g1 [Hg1 [G1 G2]]];
      [lia|simpl; lia| |].
    { intros r Hr. rewrite Hblank by lia. done. }
    rewrite Hg1. cbn [bind].
    destruct (IH (S col) g1 H W) as [g [Hg G]]; [done|lia|done| |].
    { intros r c Hr Hc. rewrite G2 by lia. apply Hblank; lia. }
    exists g. split; [done|]. intros r c Hr. rewrite G by done.
    destruct (decide (c < S col)) as [Hlt|Hge].
    + destruct (decide (c < col)) as [Hlt'|Hge'].
      * apply G2. lia.
      * assert (c = col) as -> by lia. rewrite Nat.sub_diag. simpl.
        rewrite G1 by done. done.
    + rewrite decide_False by lia.
      replace (c - col) with (S (c - S col)) by lia. done.
Qed.

Lemma longest_of_fold (data : list value) : forall a,
  1 <= a ->
  fold_left
    (fun longest row =>
       match row with
       | VArr xs => if decide (longest < length xs) then length xs else longest
       | _ => longest
       end) data a
  = Nat.max a (foldr Nat.max 0 (cell_height <$> data)).
Proof.
  induction data as [|cell rest IH]; intros a Ha; csimpl; [lia|].
  destruct cell as [| |b|n|s|xs|ps]; simpl; try (rewrite IH by lia; lia).
  destruct (decide (a < length xs)); rewrite IH by lia; lia.
Qed.

Lemma longest_of_height data : longest_of data = spec_height data.
Proof. unfold longest_of, spec_height. apply longest_of_fold. lia. Qed.

Lemma cell_height_bound data :
  Forall (fun cell => cell_height cell <= spec_height data) data.
Proof.
  unfold spec_height. induction data as [|cell rest IH]; csimpl; [constructor|].
  constructor; [destruct cell; simpl; lia|].
  eapply Forall_impl; [exact IH|]. simpl. intros x Hx. lia.
Qed.

Lemma cell_at_grid g H W r c :
  r < H -> c < W -> cell_at (grid_of g H W) r c = Some (g r c).
Proof.
  intros Hr Hc. unfold cell_at. rewrite grid_of_lookup by done. simpl.
  rewrite list_lookup_fmap, lookup_seq_lt by done. reflexivity.
Qed.

Lemma grid_of_shape g H W :
  length (grid_of g H W) = H /\
  Forall (fun row => length row = W) (grid_of g H W).
Proof.
  unfold grid_of. split.
  - rewrite length_fmap, length_seq. reflexivity.
  - apply Forall_fmap, Forall_forall. intros r _. simpl.
    rewrite length_fmap, length_seq. reflexivity.
Qed.

(** The slot the search stops at holds a falsy value, and the slots above it
    hold truthy ones, whether or not anything was placed there. *)
Lemma find_slot_stops_at_falsy rows col : forall k index,
  find_slot rows col k = Normal index ->
  k <= index /\
  (exists row, rows !! (index - k) = Some row /\
     truthy (array_get row col) = false) /\
  (forall j row, j < index - k -> rows !! j = Some row ->
     truthy (array_get row col) = true).
Proof.
  induction rows as [|r0 rows IH]; intros k index Hf; [done|].
  simpl in Hf. destruct (truthy (array_get r0 col)) eqn:T.
  - apply IH in Hf as [Hle [[row [Hrow Hfalsy]] Habove]].
    split; [lia|]. replace (index - k) with (S (index - S k)) by lia.
    split; [exists row; done|].
    intros [|j] row' Hj Hrow'; simpl in Hrow'.
    + injection Hrow' as <-. done.
    + apply (Habove j); [lia|done].
  - injection Hf as <-. rewrite Nat.sub_diag. split; [lia|].
    split; [exists r0; done|]. intros j row Hj. lia.
Qed.

(** *** What a list settles to *)

Lemma array_set_cons_S (v : value) (l : list value) i y :
  array_set (v :: l) (S i) y = v :: array_set l i y.
Proof.
  unfold array_set. simpl.
  destruct (decide (S i < S (length l))), (decide (i < length l));
    try lia; reflexivity.
Qed.

Lemma array_set_end (col : list value) y :
  array_set col (length col) y = col ++ [y].
Proof.
  unfold array_set. rewrite decide_False by lia. rewrite Nat.sub_diag.
  reflexivity.
Qed.

Lemma first_falsy_all_truthy (col : list value) :
  Forall (fun v => truthy v = true) col -> first_falsy col = length col.
Proof.
  induction 1 as [|v col Hv _ IH]; simpl; [done|]. rewrite Hv, IH. done.
Qed.

Lemma first_falsy_app_falsy (col : list value) f rest :
  Forall (fun v => truthy v = true) col -> truthy f = false ->
  first_falsy (col ++ f :: rest) = length col.
Proof.
  intros Hc Hf. induction Hc as [|v col Hv _ IH]; simpl.
  - rewrite Hf. done.
  - rewrite Hv, IH. done.
Qed.

Lemma drop_in_truthy_col (col : list value) y :
  Forall (fun v => truthy v = true) col -> drop_in col y = col ++ [y].
Proof.
  intros Hc. unfold drop_in. rewrite first_falsy_all_truthy by done.
  apply array_set_end.
Qed.

Lemma drop_in_over_falsy (col : list value) f y :
  Forall (fun v => truthy v = true) col -> truthy f = false ->
  drop_in (col ++ [f]) y = col ++ [y].
Proof.
  intros Hc Hf. unfold drop_in. rewrite first_falsy_app_falsy by done.
  unfold array_set. rewrite decide_True by (rewrite length_app; simpl; lia).
  rewrite insert_app_r_alt by lia. rewrite Nat.sub_diag. reflexivity.
Qed.

Lemma fold_falsy_only_last (xs : list value) : forall col : list value,
  Forall (fun v => truthy v = true) col ->
  falsy_only_last xs = true ->
  fold_left drop_in xs col = col ++ xs.
Proof.
  induction xs as [|y rest IH]; intros col Hc Hx.
  - rewrite app_nil_r. reflexivity.
  - cbn [fold_left]. rewrite drop_in_truthy_col by done.
    destruct rest as [|z rest'].
    + reflexivity.
    + cbn [falsy_only_last] in Hx. apply andb_prop in Hx as [Hy Hrest].
      rewrite IH; [|apply Forall_app; split; [done|constructor; done]|done].
      rewrite <- app_assoc. reflexivity.
Qed.

Lemma settle_falsy_only_last (xs : list value) :
  falsy_only_last xs = true -> settle xs = xs.
Proof. intros Hx. unfold settle. rewrite fold_falsy_only_last; done. Qed.

Lemma first_falsy_drop_in (col : list value) z :
  first_falsy col <= first_falsy (drop_in col z).
Proof.
  induction col as [|v col IH]; [simpl; lia|].
  unfold drop_in in *. simpl. destruct (truthy v) eqn:T.
  - rewrite array_set_cons_S. simpl. rewrite T. lia.
  - lia.
Qed.

Lemma fold_keeps_prefix (post : list value) : forall (col : list value) n i,
  n <= first_falsy col -> i < n ->
  default blank (fold_left drop_in post col !! i) = default blank (col !! i).
Proof.
  induction post as [|z post IH]; intros col n i Hn Hi; [reflexivity|].
  cbn [fold_left]. rewrite (IH _ n i); [|pose proof (first_falsy_drop_in col z); lia|done].
  rewrite lookup_drop_in. rewrite decide_False by lia. reflexivity.
Qed.

Lemma length_fold_drop_in (xs : list value) : forall col : list value,
  length (fold_left drop_in xs col) <= length col + length xs.
Proof.
  induction xs as [|y rest IH]; intros col; simpl; [lia|].
  pose proof (IH (drop_in col y)). pose proof (length_drop_in col y). lia.
Qed.

(** A falsy element followed by a truthy one, after truthy ones only: the
    later element ends in the slot the falsy one was placed in, and the
    column holds fewer values than the list has elements. *)
Lemma settle_overwrite (pre post : list value) f y :
  Forall (fun v => truthy v = true) pre ->
  truthy f = false -> truthy y = true ->
  default blank (settle (pre ++ f :: y :: post) !! length pre) = y /\
  length (settle (pre ++ f :: y :: post)) < length (pre ++ f :: y :: post).
Proof.
  intros Hpre Hf Hy. unfold settle. rewrite fold_left_app. cbn [fold_left].
  assert (E : fold_left drop_in pre [] = pre).
  { clear -Hpre. assert (G : forall col : list value,
        Forall (fun v => truthy v = true) col ->
        fold_left drop_in pre col = col ++ pre).
    { induction Hpre as [|v pre Hv _ IH]; intros col Hc.
      - rewrite app_nil_r. done.
      - cbn [fold_left]. rewrite drop_in_truthy_col by done.
        rewrite IH by (apply Forall_app; split; [done|constructor; done]).
        rewrite <- app_assoc. done. }
    apply (G []). constructor. }
  rewrite E. rewrite (drop_in_truthy_col pre f) by done.
  rewrite drop_in_over_falsy by done.
  assert (Hall : Forall (fun v => truthy v = true) (pre ++ [y]))
    by (apply Forall_app; split; [done|constructor; done]).
  split.
  - rewrite (fold_keeps_prefix post _ (S (length pre)) (length pre)); [| |lia].
    + rewrite lookup_app_r by lia. rewrite Nat.sub_diag. reflexivity.
    + rewrite first_falsy_all_truthy by done. rewrite length_app. simpl. lia.
  - pose proof (length_fold_drop_in post (pre ++ [y])) as Hl.
    rewrite !length_app in *. simpl in *. lia.
Qed.

(** *** The output *)

(** The output of every entry whose cells are no more than its headers:
    getOutputRows returns, and every column holds what its cell settles
    to. *)
Lemma getOutputRows_settles (this : CSVEntry.t) :
  length (data this) <= length (headers this) ->
  exists rows, getOutputRows this = Normal rows /\ output_of this rows.
Proof.
  intros Hw. unfold getOutputRows.
  rewrite longest_of_height, blank_output_grid.
  destruct (fill_columns_grid (data this) 0 (fun _ _ => blank)
              (spec_height (data this)) (length (headers this)))
    as [g [Hg G]];
    [unfold spec_height; lia|simpl; lia|apply cell_height_bound|done|].
  exists (grid_of g (spec_height (data this)) (length (headers this))).
  split; [exact Hg|].
  destruct (grid_of_shape g (spec_height (data this)) (length (headers this)))
    as [Hlen Hwid].
  split; [done|]. split; [done|].
  intros r c Hr Hc. rewrite cell_at_grid by done. rewrite G by done.
  rewrite decide_False by lia. rewrite Nat.sub_0_r. reflexivity.
Qed.


Lemma length_array_set (xs : list value) i v :
  length (array_set xs i v) = Nat.max (length xs) (S i).
Proof.
  unfold array_set. destruct (decide (i < length xs)).
  - rewrite length_insert. lia.
  - rewrite !length_app, length_replicate. simpl. lia.
Qed.



(** C1, as amended.  For every entry whose cells are no more than its
    headers and in whose list cells every element but the last is truthy,
    getOutputRows returns max(1, longest list) rows, each as wide as the
    header list; the elements of a list cell occupy its column from the top,
    one row each, a scalar cell occupies the first row only, and every
    other slot, those of the headers that have no cell included, holds the
    empty string. *)
Theorem getOutputRows_expansion (this : CSVEntry.t) :
  length (data this) <= length (headers this) ->
  Forall (fun cell => cell_settles cell = true) (data this) ->
  exists rows, getOutputRows this = Normal rows /\ expansion_of this rows /\
    (forall r c, r < length rows ->
       length (data this) <= c < length (headers this) ->
       cell_at rows r c = Some blank).
Proof.
  intros Hw Hs.
  destruct (getOutputRows_settles this Hw) as [rows [Hrows [Hlen [Hwid Hcell]]]].
  exists rows. split; [exact Hrows|].
  split;
    [|intros r c Hr [Hc1 Hc2]; rewrite Hcell by lia;
      rewrite lookup_ge_None_2 by lia; reflexivity].
  pose proof (cell_height_bound (data this)) as Hb.
  assert (Hin : forall c v, data this !! c = Some v ->
            c < length (headers this) /\ cell_settles v = true /\
            cell_height v <= spec_height (data this)).
  { intros c v Hc. split; [apply lookup_lt_Some in Hc; lia|].
    rewrite Forall_lookup in Hs, Hb. eauto. }
  unfold expansion_of. rewrite Hlen. split; [done|]. split; [done|]. split.
  - intros c xs Hc. destruct (Hin c _ Hc) as [Hc' [Hset Hh]].
    simpl in Hset, Hh. split.
    + intros i x Hx. rewrite Hcell; [|apply lookup_lt_Some in Hx; lia|done].
      rewrite Hc. simpl. rewrite settle_falsy_only_last by done.
      rewrite Hx. reflexivity.
    + intros r [Hr1 Hr2]. rewrite Hcell by done. rewrite Hc. simpl.
      rewrite settle_falsy_only_last by done.
      rewrite lookup_ge_None_2 by done. reflexivity.
  - intros c v Hc Hv. destruct (Hin c _ Hc) as [Hc' _]. split.
    + rewrite Hcell; [|unfold spec_height; lia|done]. rewrite Hc.
      destruct v; try done.
    + intros r [Hr1 Hr2]. rewrite Hcell by done. rewrite Hc.
      destruct v; try done; simpl; rewrite decide_False by lia; reflexivity.
Qed.

(** C1 at the entry of the specification, and at an entry with the headers
    a, b and c and no cell under c. *)
Lemma getOutputRows_expansion_witness :
  length (data sample_entry) <= length (headers sample_entry) /\
  Forall (fun cell => cell_settles cell = true) (data sample_entry) /\
  (exists rows, getOutputRows sample_entry = Normal rows /\
                expansion_of sample_entry rows /\
                (forall r c, r < length rows ->
                   length (data sample_entry) <= c < length (headers sample_entry) ->
                   cell_at rows r c = Some blank)) /\
  (exists rows, getOutputRows short_entry = Normal rows /\
                expansion_of short_entry rows /\
                (forall r c, r < length rows ->
                   length (data short_entry) <= c < length (headers short_entry) ->
                   cell_at rows r c = Some blank)).
Proof.
  split; [simpl; lia|]. split; [repeat constructor|]. split.
  - apply (getOutputRows_expansion sample_entry);
      [simpl; lia|repeat constructor].
  - apply (getOutputRows_expansion short_entry);
      [simpl; lia|repeat constructor].
Defined.

(** The entry of the specification expands to its three rows, and an entry
    of scalars to the one row of its cells. *)
Example getOutputRows_sample :
  getOutputRows sample_entry
  = Normal [[VStr "x"; VStr "1"]; [blank; VStr "2"]; [blank; VStr "3"]] /\
  getOutputRows
    {| headers := [VStr "a"; VStr "b"]; data := [VStr "x"; VNum 0];
       data_minus1 := VUndefined |}
  = Normal [[VStr "x"; VNum 0]].
Proof. split; reflexivity. Qed.

(** C1, as stated, fails where a list cell holds a falsy element before a
    later one: the number 0 of the cell is in no output row. *)
Lemma getOutputRows_loses_falsy_value :
  data zero_entry !! 0 = Some (VArr [VNum 0; VStr "x"]) /\
  getOutputRows zero_entry = Normal [[VStr "x"]; [blank]] /\
  (forall r c, cell_at [[VStr "x"]; [blank]] r c <> Some (VNum 0)) /\
  ~ expansion_of zero_entry [[VStr "x"]; [blank]].
Proof.
  split; [reflexivity|]. split; [reflexivity|].
  assert (N : forall r c, cell_at [[VStr "x"]; [blank]] r c <> Some (VNum 0)).
  { intros [|[|r]] [|c]; try discriminate; destruct c; discriminate. }
  split; [exact N|].
  intros [_ [_ [Hl _]]].
  destruct (Hl 0 [VNum 0; VStr "x"] eq_refl) as [Hi _].
  apply (N 0 0). apply (Hi 0). reflexivity.
Qed.

(** C5.  The search for a slot stops at the first slot whose value is falsy,
    empty or not.  So wherever a list cell holds, after truthy elements
    only, a falsy element followed by a truthy one, the later element ends
    in the slot the falsy one was placed in, and the column holds fewer
    values than the cell has elements: its slot in row length - 1 is empty.
    The entries whose list cell is 0 followed by x, and the empty string
    followed by x, are instances: x goes into slot 0, and the 0 is in no
    output row. *)
Theorem falsy_element_is_overwritten :
  (forall output col index,
     find_slot output col 0 = Normal index ->
     exists row, output !! index = Some row /\
                 truthy (array_get row col) = false) /\
  (forall (this : CSVEntry.t) c (pre post : list value) f y,
     length (data this) <= length (headers this) ->
     data this !! c = Some (VArr (pre ++ f :: y :: post)) ->
     Forall (fun v => truthy v = true) pre ->
     truthy f = false -> truthy y = true ->
     exists rows,
       getOutputRows this = Normal rows /\
       cell_at rows (length pre) c = Some y /\
       cell_at rows (length (pre ++ f :: y :: post) - 1) c = Some blank) /\
  (data zero_entry !! 0 = Some (VArr [VNum 0; VStr "x"]) /\
   truthy (VNum 0) = false /\
   place_list [[blank]; [blank]] 0 [VNum 0] = Normal [[VNum 0]; [blank]] /\
   find_slot [[VNum 0]; [blank]] 0 0 = Normal 0 /\
   place_list [[VNum 0]; [blank]] 0 [VStr "x"] = Normal [[VStr "x"]; [blank]] /\
   getOutputRows zero_entry = Normal [[VStr "x"]; [blank]] /\
   (forall r c, cell_at [[VStr "x"]; [blank]] r c <> Some (VNum 0))) /\
  (data empty_string_entry !! 0 = Some (VArr [VStr ""; VStr "x"]) /\
   truthy (VStr "") = false /\
   place_list [[blank]; [blank]] 0 [VStr ""] = Normal [[VStr ""]; [blank]] /\
   find_slot [[VStr ""]; [blank]] 0 0 = Normal 0 /\
   getOutputRows empty_string_entry = Normal [[VStr "x"]; [blank]]).
Proof.
  split; [|split].
  - intros output col index Hf.
    apply find_slot_stops_at_falsy in Hf as [_ [Hrow _]].
    rewrite Nat.sub_0_r in Hrow. exact Hrow.
  - intros this c pre post f y Hw Hc Hpre Hf Hy.
    destruct (getOutputRows_settles this Hw) as [rows [Hrows [Hlen [Hwid Hcell]]]].
    exists rows. split; [exact Hrows|].
    destruct (settle_overwrite pre post f y Hpre Hf Hy) as [Hslot Hshort].
    assert (Hc' : c < length (headers this))
      by (apply lookup_lt_Some in Hc; lia).
    pose proof (cell_height_bound (data this)) as Hb.
    rewrite Forall_lookup in Hb. specialize (Hb c _ Hc). simpl in Hb.
    rewrite length_app in Hb. simpl in Hb.
    split.
    + rewrite Hcell; [|lia|done]. rewrite Hc. simpl. rewrite Hslot. reflexivity.
    + rewrite Hcell; [|rewrite length_app; simpl; lia|done]. rewrite Hc. simpl.
      rewrite lookup_ge_None_2 by lia. reflexivity.
  - split; [|repeat split; reflexivity].
    repeat (split; [reflexivity|]).
    intros [|[|r]] [|c]; try discriminate; destruct c; discriminate.
Qed.

End Expander.

(** ** The document: addLine, addObject, writeFile *)

Lemma append_nil_l (s : string) : ("" ++ s)%string = s.
Proof. reflexivity. Qed.

Lemma append_cons c (s t : string) :
  (String c s ++ t)%string = String c (s ++ t)%string.
Proof. reflexivity. Qed.

Lemma append_nil_r (s : string) : (s ++ "")%string = s.
Proof.
  induction s as [|c s IH]; [reflexivity|]. rewrite append_cons, IH. reflexivity.
Qed.

Lemma append_assoc (s t u : string) :
  ((s ++ t) ++ u)%string = (s ++ t ++ u)%string.
Proof.
  induction s as [|c s IH]; [reflexivity|]. rewrite !append_cons, IH. reflexivity.
Qed.

Lemma benign_bind {A B} (c : completion A) (k : A -> completion B) :
  benign c -> (forall a, benign (k a)) -> benign (bind c k).
Proof. destruct c as [a|e|n]; simpl; auto. Qed.

Section Document.

Import CSV.

Lemma write_field_text this data last text :
  write_field this data last text
  = (text ++ field_text this data ++ (if last then "" else delimeter this))%string.
Proof.
  unfold write_field, field_text, field_body.
  assert (B : (match data with VNull => true | _ => false end || negb (truthy data))
              = negb (truthy data)) by (destruct data; reflexivity).
  rewrite B.
  destruct (qualifier this) as [|q0 q]; cbn [truthy];
    destruct (negb (truthy data) && negb match data with VNum 0 => true | _ => false end);
    destruct last;
    rewrite ?append_nil_l, ?append_nil_r, ?append_assoc, ?append_nil_l;
    reflexivity.
Qed.

Lemma write_cols_render this cols : forall text,
  write_cols this cols text = (text ++ render_row this cols)%string.
Proof.
  induction cols as [|data rest IH]; intros text.
  - cbn. rewrite append_nil_r. reflexivity.
  - cbn [write_cols]. rewrite IH, write_field_text. unfold render_row, join.
    destruct rest as [|d2 rest'].
    + cbn [map String.concat]. rewrite !append_assoc, !append_nil_l, !append_nil_r.
      reflexivity.
    + cbn [map String.concat]. rewrite !append_assoc. reflexivity.
Qed.

Lemma write_rows_render this lines : forall text,
  write_rows this lines text = (text ++ render this lines)%string.
Proof.
  induction lines as [|row rest IH]; intros text.
  - cbn. rewrite append_nil_r. reflexivity.
  - cbn [write_rows]. rewrite IH, write_cols_render. unfold render, join.
    destruct rest as [|r2 rest'].
    + cbn [map String.concat]. rewrite !append_nil_r. reflexivity.
    + cbn [map String.concat]. rewrite !append_assoc. reflexivity.
Qed.


(** getOutputRows fails with a TypeError only *)
Lemma find_slot_benign rows col : forall index,
  benign (CSVEntry.find_slot rows col index).
Proof.
  induction rows as [|r rest IH]; intros index; simpl; [done|].
  destruct (truthy _); [apply IH|done].
Qed.

Lemma put_benign output index col v : benign (CSVEntry.put output index col v).
Proof. unfold CSVEntry.put. destruct (output !! index); done. Qed.

Lemma place_list_benign colData : forall output col,
  benign (CSVEntry.place_list output col colData).
Proof.
  induction colData as [|x rest IH]; intros output col; [done|].
  cbn [CSVEntry.place_list]. apply benign_bind; [apply find_slot_benign|].
  intros index. apply benign_bind; [apply put_benign|]. intros o. apply IH.
Qed.

Lemma fill_columns_benign data : forall col output,
  benign (CSVEntry.fill_columns data col output).
Proof.
  induction data as [|cell rest IH]; intros col output; [done|].
  destruct cell; cbn [CSVEntry.fill_columns];
    (apply benign_bind; [apply put_benign || apply place_list_benign|]);
    intros o; apply IH.
Qed.

Lemma call_getOutputRows_benign e : benign (call_getOutputRows e).
Proof. destruct e; [apply fill_columns_benign|done]. Qed.

Lemma collect_lines_raw pre line post : forall lines,
  collect_lines (pre ++ Raw line :: post) lines = Throw TypeError.
Proof.
  induction pre as [|e pre IH]; intros lines; [done|].
  cbn [app collect_lines]. pose proof (call_getOutputRows_benign e) as B.
  destruct (call_getOutputRows e) as [l|[]|]; simpl in *;
    first [apply IH | done].
Qed.

Lemma addLine_entries this line :
  exists more, entries (snd (addLine this line)) = entries this ++ more.
Proof.
  unfold addLine. destruct (CSVEntry.new _ _); simpl.
  - eexists. reflexivity.
  - exists []. rewrite app_nil_r. reflexivity.
  - exists []. rewrite app_nil_r. reflexivity.
Qed.

Lemma addObject_entries this obj :
  exists more, entries (snd (addObject this obj)) = entries this ++ more.
Proof.
  assert (N : exists more, entries this = entries this ++ more)
    by (exists []; rewrite app_nil_r; reflexivity).
  unfold addObject. destruct (CSVEntry.new _ _); simpl; try exact N.
  destruct (negb _); simpl; try exact N.
  destruct (object_keys obj); simpl; try exact N.
  destruct (negb _); simpl; try exact N.
  destruct (add_keys _ _ _ _); simpl; try exact N.
  eexists. reflexivity.
Qed.

Lemma perform_entries calls : forall this,
  exists more, entries (fold_left perform calls this) = entries this ++ more.
Proof.
  induction calls as [|c calls IH]; intros this.
  - exists []. rewrite app_nil_r. reflexivity.
  - cbn [fold_left]. destruct (IH (perform this c)) as [more Hm].
    assert (exists m1, entries (perform this c) = entries this ++ m1) as [m1 H1]
      by (destruct c; [apply addLine_entries|apply addObject_entries]).
    exists (m1 ++ more). rewrite Hm, H1, app_assoc. reflexivity.
Qed.

Lemma indexOf_normal row key :
  CSVEntry.indexOf row key = Normal (array_indexOf (CSVEntry.headers row) key).
Proof.
  unfold CSVEntry.indexOf. destruct (_ =? _)%Z; reflexivity.
Qed.

Lemma add_not_addable row key v :
  addable v = false ->
  CSVEntry.add row key v = (Throw (Thrown "Cannot add object to cell"), row).
Proof.
  unfold addable, CSVEntry.add. intros H. apply negb_false_iff in H.
  rewrite H. reflexivity.
Qed.

Lemma add_addable row key v :
  addable v = true -> exists row', CSVEntry.add row key v = (Normal tt, row').
Proof.
  unfold addable, CSVEntry.add. intros H. apply negb_true_iff in H.
  rewrite H, indexOf_normal. destruct (truthy _); [|eauto].
  destruct (CSVEntry.data_get _ _); eauto.
Qed.

Lemma add_keys_accepted this obj pre : forall rest row,
  Forall (accepted this obj) pre ->
  exists row', add_keys this obj (pre ++ rest) row = add_keys this obj rest row'.
Proof.
  induction pre as [|k pre IH]; intros rest row Hp; [eauto|].
  inversion Hp as [|? ? [Hin Hadd] Hp']; subst.
  cbn [app add_keys]. rewrite Hin. cbn [negb].
  destruct (add_addable row k _ Hadd) as [row' ->]. apply IH. done.
Qed.

Lemma add_keys_unknown this obj pre key rest row :
  Forall (accepted this obj) pre ->
  array_includes (headers this) key = false ->
  add_keys this obj (pre ++ key :: rest) row
  = Throw (Thrown ("Could not find header " ++ key)).
Proof.
  intros Hp Hk. destruct (add_keys_accepted this obj pre (key :: rest) row Hp)
    as [row' ->].
  cbn [add_keys]. rewrite Hk. reflexivity.
Qed.

Lemma add_keys_object this obj pre key rest row :
  Forall (accepted this obj) pre ->
  array_includes (headers this) key = true ->
  addable (get_prop obj key) = false ->
  add_keys this obj (pre ++ key :: rest) row
  = Throw (Thrown "Cannot add object to cell").
Proof.
  intros Hp Hk Ha. destruct (add_keys_accepted this obj pre (key :: rest) row Hp)
    as [row' ->].
  cbn [add_keys]. rewrite Hk. cbn [negb]. rewrite add_not_addable by done.
  reflexivity.
Qed.

(** The first key that is not accepted *)
Lemma first_rejected this obj (keys : list string) :
  Exists (fun k => ~ accepted this obj k) keys ->
  exists pre k post, keys = pre ++ k :: post /\
    Forall (accepted this obj) pre /\ ~ accepted this obj k.
Proof.
  induction keys as [|k keys IH]; intros He; [inversion He|].
  destruct (bool_decide (array_includes (headers this) k = true
                         /\ addable (get_prop obj k) = true)) eqn:E.
  - apply bool_decide_eq_true in E.
    inversion He as [? ? Hn|? ? He']; subst; [contradiction|].
    destruct (IH He') as [pre [k' [post [-> [Hp Hk]]]]].
    exists (k :: pre), k', post. split; [reflexivity|]. split; [|done].
    constructor; done.
  - apply bool_decide_eq_false in E. exists [], k, keys. done.
Qed.

Lemma add_keys_rejects this obj keys row :
  Exists (fun k => ~ accepted this obj k) keys ->
  exists e, add_keys this obj keys row = Throw e.
Proof.
  intros He. destruct (first_rejected this obj keys He)
    as [pre [k [post [-> [Hp Hk]]]]].
  destruct (array_includes (headers this) k) eqn:Hin.
  - destruct (addable (get_prop obj k)) eqn:Ha.
    + exfalso. apply Hk. split; done.
    + eexists. apply add_keys_object; done.
  - eexists. apply add_keys_unknown; done.
Qed.

Lemma addObject_VObj this props :
  addObject this (VObj props) =
    if negb (length (map fst props) =? length (headers this))%nat
    then (Throw (ReferenceError "headers"), this)
    else
      match add_keys this (VObj props) (map fst props)
              {| CSVEntry.headers := headers this; CSVEntry.data := [];
                 CSVEntry.data_minus1 := VUndefined |} with
      | Normal row' => (Normal tt, push_entry this (Instance row'))
      | Throw e => (Throw e, this)
      | Exit n => (Exit n, this)
      end.
Proof. reflexivity. Qed.

(** *** Documents filled by addObject alone *)





(** The entry addObject builds holds the values in the order of the
    headers, whatever the order of the keys. *)
Example addObject_orders_by_header :
  addObject sample_document (VObj [("b", VStr "y"); ("a", VStr "x")]%string)
  = (Normal tt, sample_document_filled).
Proof. reflexivity. Qed.

(** What the key-count check raises: the operand of its throw cannot be
    evaluated. *)
Example addObject_key_count :
  addObject sample_document (VObj [("a", VStr "x")]%string)
  = (Throw (ReferenceError "headers"), sample_document).
Proof. reflexivity. Qed.


(** C8, as stated, fails: with headers a and b, the object whose key a holds
    an object and whose other key is z has as many keys as there are
    headers and a key that is no header, yet the error raised is the one of
    CSVEntry.add, not the one for the unknown key. *)
Lemma addObject_object_before_unknown_key :
  length [("a", VObj []); ("z", VStr "1")]%string = length (headers sample_document) /\
  array_includes (headers sample_document) "z" = false /\
  addObject sample_document (VObj [("a", VObj []); ("z", VStr "1")]%string)
  = (Throw (Thrown "Cannot add object to cell"), sample_document) /\
  Thrown "Cannot add object to cell" <> Thrown "Could not find header z".
Proof. repeat split; [reflexivity..|discriminate]. Qed.

(** C8, as amended.  When the key count of the object differs from the
    header count, or some key is no header, addObject raises an error and
    leaves the document as it was.  When the counts agree, the error is the
    one for the first key the loop does not get past: Could not find header
    for a key that is no header, Cannot add object to cell for a header
    whose value is an object that is no array. *)
Theorem addObject_rejects (this : CSV.t) (props : list (string * value)) :
  length props <> length (headers this) \/
  Exists (fun k => array_includes (headers this) k = false) (List.map fst props) ->
  exists e,
    addObject this (VObj props) = (Throw e, this) /\
    (length props = length (headers this) ->
     forall pre k post,
       List.map fst props = pre ++ k :: post ->
       Forall (accepted this (VObj props)) pre ->
       ~ accepted this (VObj props) k ->
       e = if array_includes (headers this) k
           then Thrown "Cannot add object to cell"
           else Thrown ("Could not find header " ++ k)).
Proof.
  intros Hc. rewrite addObject_VObj. rewrite length_map.
  destruct (Nat.eqb_spec (length props) (length (headers this))) as [Heq|Hne];
    cbn [negb].
  - destruct Hc as [Hc|Hc]; [contradiction|].
    assert (Hr : Exists (fun k => ~ accepted this (VObj props) k)
                   (List.map fst props)).
    { eapply Exists_impl; [exact Hc|]. simpl. intros k Hk [Hin _]. congruence. }
    destruct (add_keys_rejects this (VObj props) (List.map fst props)
                {| CSVEntry.headers := headers this; CSVEntry.data := [];
                   CSVEntry.data_minus1 := VUndefined |} Hr) as [e He].
    exists e. rewrite He. split; [reflexivity|].
    intros _ pre k post Hk Hpre Hnot. rewrite Hk in He.
    destruct (array_includes (headers this) k) eqn:Hin.
    + rewrite add_keys_object in He; [congruence|done|done|].
      destruct (addable (get_prop (VObj props) k)) eqn:Ha; [|done].
      exfalso. apply Hnot. split; done.
    + rewrite add_keys_unknown in He by done. congruence.
  - eexists. split; [reflexivity|]. intros Heq. contradiction.
Qed.

(** C8 at the sample document: an object with one key, and an object whose
    second key is no header. *)
Lemma addObject_rejects_witness :
  (exists e,
     addObject sample_document (VObj [("a", VStr "x")]%string)
     = (Throw e, sample_document)) /\
  addObject sample_document (VObj [("a", VStr "x"); ("z", VStr "y")]%string)
  = (Throw (Thrown "Could not find header z"), sample_document).
Proof.
  split.
  - destruct (addObject_rejects sample_document [("a", VStr "x")]%string)
      as [e [He _]]; [left; simpl; lia|].
    exists e. exact He.
  - destruct (addObject_rejects sample_document
                [("a", VStr "x"); ("z", VStr "y")]%string) as [e [He Hk]].
    + right. apply Exists_cons_tl, Exists_cons_hd. reflexivity.
    + rewrite He. f_equal. f_equal.
      apply (Hk eq_refl ["a"%string] "z"%string []); [reflexivity| |].
      * repeat constructor.
      * intros [Hin _]. discriminate Hin.
Defined.

(** C9.  Once addLine has taken an array as long as the header list, the
    array itself is among the entries, and after any further calls of
    addLine and addObject writeFile throws a TypeError. *)
Theorem writeFile_fails_after_addLine (this : CSV.t) (xs : list value)
    (calls : list call) :
  length xs = length (headers this) ->
  fst (addLine this (VArr xs)) = Normal tt /\
  In (Raw (VArr xs)) (entries (snd (addLine this (VArr xs)))) /\
  writeFile (fold_left perform calls (snd (addLine this (VArr xs))))
  = Throw TypeError.
Proof.
  intros Hlen.
  assert (Ha : addLine this (VArr xs)
               = (Normal tt,
                  set_currentLine (push_entry this (Raw (VArr xs))) (VArr xs))).
  { unfold addLine, CSVEntry.new. cbn [truthy negb]. rewrite Hlen, Nat.eqb_refl.
    reflexivity. }
  rewrite Ha. cbn [fst snd]. split; [reflexivity|]. split.
  - simpl. apply in_or_app. right. left. reflexivity.
  - destruct (perform_entries calls
                (set_currentLine (push_entry this (Raw (VArr xs))) (VArr xs)))
      as [more Hm].
    unfold writeFile. rewrite Hm. simpl. rewrite <- app_assoc. simpl.
    rewrite collect_lines_raw. reflexivity.
Qed.

(** C9 at the sample document: a line, then an object, then writeFile. *)
Lemma writeFile_fails_after_addLine_witness :
  length [VStr "x"; VStr "y"] = length (headers sample_document) /\
  writeFile (fold_left perform [AddObject sample_object]
               (snd (addLine sample_document (VArr [VStr "x"; VStr "y"]))))
  = Throw TypeError.
Proof.
  split; [reflexivity|].
  apply (writeFile_fails_after_addLine sample_document [VStr "x"; VStr "y"]
           [AddObject sample_object]). reflexivity.
Defined.

(** C10, as stated, fails: with headers a and b, the object whose key z is
    no header and whose key a holds an object draws the error for the
    unknown key, which the loop meets first. *)
Lemma addObject_unknown_key_before_object :
  get_prop (VObj [("z", VStr "1"); ("a", VObj [])]%string) "a" = VObj [] /\
  addable (VObj []) = false /\
  addObject sample_document (VObj [("z", VStr "1"); ("a", VObj [])]%string)
  = (Throw (Thrown "Could not find header z"), sample_document) /\
  Thrown "Could not find header z" <> Thrown "Cannot add object to cell".
Proof. repeat split; [reflexivity..|discriminate]. Qed.

(** C10, as amended.  An object one of whose fields holds an object that is
    no array is never added: addObject raises an error and leaves the
    document as it was.  The error is Cannot add object to cell when the
    object has as many keys as there are headers and each key is a
    header. *)
Theorem addObject_rejects_object_field (this : CSV.t)
    (props : list (string * value)) (key : string) :
  In key (List.map fst props) ->
  addable (get_prop (VObj props) key) = false ->
  exists e,
    addObject this (VObj props) = (Throw e, this) /\
    (length props = length (headers this) ->
     Forall (fun k => array_includes (headers this) k = true) (List.map fst props) ->
     e = Thrown "Cannot add object to cell").
Proof.
  intros Hin Hobj. rewrite addObject_VObj. rewrite length_map.
  destruct (Nat.eqb_spec (length props) (length (headers this))) as [Heq|Hne];
    cbn [negb].
  - assert (Hr : Exists (fun k => ~ accepted this (VObj props) k)
                   (List.map fst props)).
    { apply Exists_exists. exists key. split; [apply list_elem_of_In; exact Hin|].
      intros [_ Ha]. congruence. }
    destruct (first_rejected this (VObj props) _ Hr)
      as [pre [k [post [Hk [Hpre Hnot]]]]].
    rewrite Hk.
    destruct (array_includes (headers this) k) eqn:Hk_in.
    + rewrite add_keys_object; [| done | done |].
      * eexists. split; [reflexivity|]. reflexivity.
      * destruct (addable (get_prop (VObj props) k)) eqn:Ha; [|done].
        exfalso. apply Hnot. split; done.
    + rewrite add_keys_unknown by done.
      eexists. split; [reflexivity|]. intros _ Hall.
      apply Forall_app in Hall as [_ Hall]. inversion Hall; congruence.
  - eexists. split; [reflexivity|]. intros Heq. contradiction.
Qed.

(** C10 at the sample document: the value under b is a mapping. *)
Lemma addObject_rejects_object_field_witness :
  In "b"%string (List.map fst [("a", VStr "x"); ("b", VObj [("k", VStr "v")])]%string) /\
  addObject sample_document
    (VObj [("a", VStr "x"); ("b", VObj [("k", VStr "v")])]%string)
  = (Throw (Thrown "Cannot add object to cell"), sample_document).
Proof.
  split; [right; left; reflexivity|].
  destruct (addObject_rejects_object_field sample_document
              [("a", VStr "x"); ("b", VObj [("k", VStr "v")])]%string "b"%string)
    as [e [He Hmsg]]; [right; left; reflexivity|reflexivity|].
  rewrite He. f_equal. f_equal. apply Hmsg; [reflexivity|repeat constructor].
Defined.

End Document.

(** ** The recognisers of the header grammar *)

Section Recognisers.

Import candiutil.

Lemma strip_prefix_append (p : string) : forall s rest,
  strip_prefix p s = Some rest -> s = (p ++ rest)%string.
Proof.
  induction p as [|a p IH]; intros s rest H; simpl in H.
  - injection H as ->. rewrite append_nil_l. reflexivity.
  - destruct s as [|b s]; [discriminate|].
    destruct (Ascii.eqb_spec a b) as [->|]; [|discriminate].
    rewrite append_cons, (IH s rest H). reflexivity.
Qed.

Lemma strip_prefix_token (tok rest : string) :
  strip_prefix tok (tok ++ rest)%string = Some rest.
Proof.
  induction tok as [|d tok IH]; [rewrite append_nil_l; reflexivity|].
  rewrite append_cons. simpl. rewrite Ascii.eqb_refl. exact IH.
Qed.

(** two ways of cutting a string at the same place *)
Lemma append_same_length (a : string) : forall a' b b' : string,
  (a ++ b)%string = (a' ++ b')%string ->
  String.length a = String.length a' -> a = a' /\ b = b'.
Proof.
  induction a as [|c a IH]; intros [|c' a'] b b' E Hl; try discriminate.
  - rewrite !append_nil_l in E. done.
  - rewrite !append_cons in E. injection E as -> E. injection Hl as Hl.
    destruct (IH a' b b' E Hl) as [-> ->]. done.
Qed.

(** what a lazy group found *)
Lemma lazy_group_shape {R} tok (k : string -> option R) (s : string) :
  forall g r,
  lazy_group tok k s = Some (g, r) ->
  group_text g /\
  exists rest, s = (g ++ tok ++ rest)%string /\ k rest = Some r.
Proof.
  induction s as [|c s IH]; intros g r H; [discriminate|].
  cbn [lazy_group] in H.
  destruct (is_line_terminator c) eqn:Ec; [discriminate|].
  destruct (strip_prefix tok s) as [after|] eqn:Ep.
  - destruct (k after) as [r'|] eqn:Ek.
    + injection H as <- <-. split; [split; [done|simpl; rewrite Ec; done]|].
      exists after. apply strip_prefix_append in Ep. rewrite Ep. done.
    + destruct (lazy_group tok k s) as [[g' r']|] eqn:El; [|discriminate].
      injection H as <- <-.
      destruct (IH g' r' eq_refl) as [[_ Hl] [rest [-> Hk]]].
      split; [split; [done|simpl; rewrite Ec; done]|]. exists rest. done.
  - destruct (lazy_group tok k s) as [[g' r']|] eqn:El; [|discriminate].
    injection H as <- <-.
    destruct (IH g' r' eq_refl) as [[_ Hl] [rest [-> Hk]]].
    split; [split; [done|simpl; rewrite Ec; done]|]. exists rest. done.
Qed.

Lemma exec_at_shape re (s g1 g2 rest : string) :
  exec_at re s = Some (g1, (g2, rest)) ->
  s = (g1 ++ open_tok re ++ g2 ++ close_tok re ++ rest)%string /\
  group_text g1 /\ group_text g2.
Proof.
  unfold exec_at. intros H.
  apply lazy_group_shape in H as [Hg1 [r1 [-> H]]].
  apply lazy_group_shape in H as [Hg2 [r2 [-> H]]].
  injection H as ->. done.
Qed.

Lemma exec_from_shape re (s : string) : forall skipped m,
  exec_from re s skipped = Some m ->
  (skipped ++ s
   = before m ++ group1 m ++ open_tok re ++ group2 m ++ close_tok re
     ++ after m)%string
  /\ group_text (group1 m) /\ group_text (group2 m).
Proof.
  induction s as [|c s IH]; intros skipped m H; cbn [exec_from] in H.
  - destruct (exec_at re "") as [[g1 [g2 rest]]|] eqn:E; [|discriminate].
    discriminate E.
  - destruct (exec_at re (String c s)) as [[g1 [g2 rest]]|] eqn:E.
    + injection H as <-. cbn [before group1 group2 after].
      apply exec_at_shape in E as [-> [? ?]]. done.
    + apply IH in H as [H ?]. split; [|done]. rewrite <- H.
      rewrite append_assoc, append_cons, append_nil_l. reflexivity.
Qed.

(** a lazy group finds a match wherever there is one *)
Lemma lazy_group_complete {R} tok (k : string -> option R) (g : string) :
  forall rest,
  group_text g -> is_Some (k rest) ->
  is_Some (lazy_group tok k (g ++ tok ++ rest)%string).
Proof.
  induction g as [|c g IH]; intros rest [Hne Hl] Hk; [done|].
  simpl in Hl. apply andb_prop in Hl as [Hc Hl]. apply negb_true_iff in Hc.
  rewrite append_cons. cbn [lazy_group]. rewrite Hc.
  destruct g as [|d g].
  - rewrite append_nil_l, strip_prefix_token. destruct Hk as [r Hk].
    rewrite Hk. eauto.
  - destruct (match strip_prefix tok (String d g ++ tok ++ rest)%string with
              | Some after => k after
              | None => None
              end); [eauto|].
    destruct (IH rest) as [[g0 r0] E]; [split; done|exact Hk|].
    rewrite E. eauto.
Qed.

(** and the shortest one *)
Lemma lazy_group_least {R} tok (k : string -> option R) (s : string) :
  forall g r g' rest',
  lazy_group tok k s = Some (g, r) ->
  s = (g' ++ tok ++ rest')%string -> g' <> EmptyString -> is_Some (k rest') ->
  String.length g <= String.length g'.
Proof.
  induction s as [|c s IH]; intros g r g' rest' H Hs Hne Hk; [discriminate|].
  destruct g' as [|c' g']; [done|]. rewrite append_cons in Hs.
  injection Hs as <- Hs. cbn [lazy_group] in H.
  destruct (is_line_terminator c); [discriminate|].
  destruct (match strip_prefix tok s with
            | Some after => k after
            | None => None
            end) as [r0|] eqn:E.
  - injection H as <- <-. simpl. lia.
  - destruct (lazy_group tok k s) as [[g0 r0]|] eqn:El; [|discriminate].
    injection H as <- <-. simpl.
    destruct g' as [|d g'].
    + rewrite append_nil_l in Hs. rewrite Hs, strip_prefix_token in E.
      destruct Hk as [? Hk]. rewrite Hk in E. discriminate.
    + pose proof (IH g0 r0 (String d g') rest' eq_refl Hs) as Hle.
      specialize (Hle ltac:(discriminate) Hk). simpl in *. lia.
Qed.

Lemma exec_at_complete re (g1 g2 rest : string) :
  group_text g1 -> group_text g2 ->
  is_Some (exec_at re (g1 ++ open_tok re ++ g2 ++ close_tok re ++ rest)%string).
Proof.
  intros H1 H2. unfold exec_at.
  apply lazy_group_complete; [exact H1|].
  apply lazy_group_complete; [exact H2|]. eauto.
Qed.

Lemma exec_at_least re (s g1 g2 rest g1' g2' rest' : string) :
  exec_at re s = Some (g1, (g2, rest)) ->
  s = (g1' ++ open_tok re ++ g2' ++ close_tok re ++ rest')%string ->
  group_text g1' -> group_text g2' ->
  String.length g1 < String.length g1' \/
  (String.length g1 = String.length g1' /\
   String.length g2 <= String.length g2').
Proof.
  unfold exec_at. intros H Hs H1 H2.
  pose proof (lazy_group_least _ _ _ _ _ g1' _ H Hs (proj1 H1)) as Hle.
  specialize (Hle ltac:(apply lazy_group_complete; [exact H2|eauto])).
  destruct (decide (String.length g1 = String.length g1')) as [Hl|Hl];
    [right; split; [exact Hl|]|left; lia].
  apply lazy_group_shape in H as [_ [r1 [Hs1 H]]].
  rewrite Hs in Hs1. apply append_same_length in Hs1 as [_ Hs1]; [|done].
  apply append_same_length in Hs1 as [_ Hs1]; [|done].
  apply (lazy_group_least _ _ _ _ _ g2' rest' H);
    [symmetry; exact Hs1|exact (proj1 H2)|eauto].
Qed.

(** the search from the left finds the first place with a match *)
Lemma exec_from_complete re (g1 g2 rest : string) :
  group_text g1 -> group_text g2 ->
  forall pre skipped,
  is_Some (exec_from re (pre ++ g1 ++ open_tok re ++ g2 ++ close_tok re
                         ++ rest)%string skipped).
Proof.
  intros H1 H2. induction pre as [|c pre IH]; intros skipped.
  - rewrite append_nil_l.
    destruct (exec_at_complete re g1 g2 rest H1 H2) as [[a [b r]] E].
    destruct g1 as [|c g1]; [destruct H1; done|].
    rewrite append_cons in *. cbn [exec_from]. rewrite E. eauto.
  - rewrite append_cons. cbn [exec_from].
    destruct (exec_at re _) as [[a [b r]]|]; [eauto|]. apply IH.
Qed.

Lemma exec_from_least re (s : string) : forall skipped m,
  exec_from re s skipped = Some m ->
  exists pre,
    before m = (skipped ++ pre)%string /\
    forall pre' g1' g2' rest',
      s = (pre' ++ g1' ++ open_tok re ++ g2' ++ close_tok re ++ rest')%string ->
      group_text g1' -> group_text g2' ->
      String.length pre < String.length pre' \/
      (String.length pre = String.length pre' /\
       (String.length (group1 m) < String.length g1' \/
        (String.length (group1 m) = String.length g1' /\
         String.length (group2 m) <= String.length g2'))).
Proof.
  induction s as [|c s IH]; intros skipped m H; cbn [exec_from] in H.
  - destruct (exec_at re "") as [[g1 [g2 rest]]|] eqn:E; [|discriminate].
    discriminate E.
  - destruct (exec_at re (String c s)) as [[g1 [g2 rest]]|] eqn:E.
    + injection H as <-. cbn [before group1 group2 after].
      exists EmptyString. split; [rewrite append_nil_r; reflexivity|].
      intros pre' g1' g2' rest' Hs H1 H2. destruct pre' as [|c' pre'].
      * right. split; [reflexivity|]. rewrite append_nil_l in Hs.
        exact (exec_at_least re _ _ _ _ _ _ _ E Hs H1 H2).
      * left. simpl. lia.
    + destruct (IH _ _ H) as [pre [Hb Hmin]].
      exists (String c pre). split.
      { rewrite Hb, append_assoc, append_cons, append_nil_l. reflexivity. }
      intros pre' g1' g2' rest' Hs H1 H2. destruct pre' as [|c' pre'].
      * rewrite append_nil_l in Hs.
        destruct (exec_at_complete re g1' g2' rest' H1 H2) as [x Hx].
        rewrite <- Hs, E in Hx. discriminate.
      * rewrite append_cons in Hs. injection Hs as <- Hs.
        destruct (Hmin pre' g1' g2' rest' Hs H1 H2) as [?|[? ?]];
          [left; simpl; lia|right; split; [simpl; lia|done]].
Qed.

(** [header.match(re)] of a recogniser finds the first bracket pair of the
    template, and nothing where there is none *)
Lemma grammar_exec_first re (header : string) (m : grammar_match) :
  grammar_exec re header = Some m -> first_bracket re header m.
Proof.
  intros H. split.
  - apply exec_from_shape in H. rewrite append_nil_l in H. exact H.
  - destruct (exec_from_least re header _ m H) as [pre [Hb Hmin]].
    rewrite append_nil_l in Hb. subst pre.
    intros m' [Hs [H1 H2]]. exact (Hmin _ _ _ _ Hs H1 H2).
Qed.

Lemma grammar_exec_bracketed re (header : string) :
  is_Some (grammar_exec re header) <-> bracketed re header.
Proof.
  split.
  - intros [m H]. exists m. apply (grammar_exec_first re header m H).
  - intros [m [Hs [H1 H2]]]. rewrite Hs. apply exec_from_complete; done.
Qed.

Lemma grammar_exec_none re (header : string) :
  grammar_exec re header = None <-> ~ bracketed re header.
Proof.
  rewrite <- grammar_exec_bracketed. destruct (grammar_exec re header).
  - split; [discriminate|]. intros H. destruct H. eauto.
  - split; [|done]. intros _ [? ?]. discriminate.
Qed.

Lemma first_bracket_unique re (header : string) (m m' : grammar_match) :
  first_bracket re header m -> first_bracket re header m' -> m = m'.
Proof.
  intros [Hd Hmin] [Hd' Hmin'].
  specialize (Hmin m' Hd'). specialize (Hmin' m Hd).
  destruct Hd as [Hs _]. destruct Hd' as [Hs' _]. rewrite Hs in Hs'.
  apply append_same_length in Hs' as [Eb Hs']; [|lia].
  apply append_same_length in Hs' as [E1 Hs']; [|lia].
  apply append_same_length in Hs' as [_ Hs']; [|done].
  apply append_same_length in Hs' as [E2 Hs']; [|lia].
  apply append_same_length in Hs' as [_ Ea]; [|done].
  destruct m, m'. simpl in *. congruence.
Qed.

Lemma first_bracket_exec re (header : string) (m : grammar_match) :
  first_bracket re header m -> grammar_exec re header = Some m.
Proof.
  intros Hm.
  destruct (proj2 (grammar_exec_bracketed re header)) as [m' E];
    [exists m; exact (proj1 Hm)|].
  rewrite E. f_equal. symmetry.
  exact (first_bracket_unique re header m m' Hm (grammar_exec_first _ _ _ E)).
Qed.

End Recognisers.

(** ** The header compiler and the row assembler *)

Section Assembler.

Import candiutil.

Context {host : RegExpHost}.

Lemma assoc_set_prop_eq (o : props) key v : assoc (set_prop o key v) key = Some v.
Proof.
  induction o as [|[k w] o IH]; simpl.
  - rewrite String.eqb_refl. reflexivity.
  - destruct (String.eqb k key) eqn:E; simpl; rewrite E; [reflexivity|exact IH].
Qed.

Lemma assoc_set_prop_ne (o : props) key key' v :
  key <> key' -> assoc (set_prop o key v) key' = assoc o key'.
Proof.
  intros Hne. induction o as [|[k w] o IH]; simpl.
  - destruct (String.eqb_spec key key'); [contradiction|reflexivity].
  - destruct (String.eqb_spec k key) as [->|Hk]; simpl.
    + destruct (String.eqb_spec key key'); [contradiction|reflexivity].
    + destruct (String.eqb_spec k key'); [reflexivity|exact IH].
Qed.

Lemma set_prop_twice (o : props) key v w :
  set_prop (set_prop o key v) key w = set_prop o key w.
Proof.
  induction o as [|[k u] o IH]; simpl.
  - rewrite String.eqb_refl. reflexivity.
  - destruct (String.eqb k key) eqn:E; simpl; rewrite E; [reflexivity|].
    rewrite IH. reflexivity.
Qed.

(** putDataInObject over the columns already assembled *)
Lemma putDataInObject_app cells1 : forall hs1 cells hs d0 d,
  length cells1 = length hs1 ->
  putDataInObject cells1 hs1 d0 = Some (Normal tt, d) ->
  putDataInObject (cells1 ++ cells) (hs1 ++ hs) d0 = putDataInObject cells hs d.
Proof.
  induction cells1 as [|c cells1 IH]; intros hs1 cells hs d0 d Hl Hp.
  - destruct hs1; [|done]. simpl in Hp. injection Hp as ->. reflexivity.
  - destruct hs1 as [|[h|] hs1]; [done| |]; simpl in Hl; cbn [app putDataInObject] in *.
    + destruct (put_column c h d0) as [[[[]|e|n] d1]|] eqn:E; try done.
      apply IH; [lia|done].
    + apply IH; [lia|done].
Qed.

Lemma rowsToArrayOfObj_from_app rows1 : forall rows2 hs out0 out,
  rowsToArrayOfObj_from rows1 hs out0 = Some (Normal out) ->
  rowsToArrayOfObj_from (rows1 ++ rows2) hs out0
  = rowsToArrayOfObj_from rows2 hs out.
Proof.
  induction rows1 as [|r rows1 IH]; intros rows2 hs out0 out Hr.
  - simpl in Hr. injection Hr as ->. reflexivity.
  - cbn [app rowsToArrayOfObj_from] in *.
    destruct (rowToObj r hs) as [[obj|e|n]|]; try done. apply IH. done.
Qed.


Lemma split_go_nonempty sep s : forall cur skip, split_go sep s cur skip <> [].
Proof.
  induction s as [|c s IH]; intros cur skip; simpl; [done|].
  destruct skip; [|apply IH]. destruct (strip_prefix sep _); [done|apply IH].
Qed.





(** assignments to a record *)
Lemma has_own_none (o : props) key : has_own o key = false <-> assoc o key = None.
Proof. unfold has_own. destruct (assoc o key); split; intros H; done. Qed.

Lemma assoc_app (o o' : props) key :
  assoc (o ++ o') key
  = match assoc o key with Some v => Some v | None => assoc o' key end.
Proof.
  induction o as [|[k w] o IH]; [reflexivity|]. simpl.
  destruct (String.eqb k key); [reflexivity|exact IH].
Qed.

Lemma assoc_insert_index (o : props) n key v k :
  assoc o key = None ->
  assoc (insert_index o n key v) k
  = if String.eqb key k then Some v else assoc o k.
Proof.
  induction o as [|[k0 w] o IH]; intros Hn; [reflexivity|].
  simpl in Hn. destruct (String.eqb_spec k0 key) as [->|Hne]; [discriminate|].
  cbn [insert_index].
  destruct (array_index k0) as [m|]; [destruct (m <? n)%N|]; try reflexivity.
  simpl. rewrite (IH Hn).
  destruct (String.eqb_spec key k) as [E|_]; [|reflexivity].
  destruct (String.eqb_spec k0 k); [congruence|reflexivity].
Qed.

Lemma assoc_create (o : props) key v k :
  assoc o key = None ->
  assoc (create o key v) k = if String.eqb key k then Some v else assoc o k.
Proof.
  intros Hn. unfold create. destruct (array_index key) as [n|].
  - apply assoc_insert_index, Hn.
  - rewrite assoc_app. simpl.
    destruct (String.eqb_spec key k) as [E|_]; [rewrite <- E, Hn; reflexivity|].
    destruct (assoc o k); reflexivity.
Qed.

Lemma assoc_store_eq (o : props) key v :
  (assoc o key = None -> key <> "__proto__"%string) ->
  assoc (store o key v) key = Some v.
Proof.
  intros Hk. unfold store, has_own. destruct (assoc o key) eqn:E.
  - apply assoc_set_prop_eq.
  - destruct (String.eqb_spec key "__proto__") as [Hp|_];
      [destruct (Hk eq_refl Hp)|].
    rewrite assoc_create, String.eqb_refl by exact E. reflexivity.
Qed.

Lemma assoc_store_ne (o : props) key key' v :
  key <> key' -> assoc (store o key v) key' = assoc o key'.
Proof.
  intros Hne. unfold store, has_own. destruct (assoc o key) eqn:E.
  - apply assoc_set_prop_ne, Hne.
  - destruct (String.eqb key "__proto__"); [reflexivity|].
    rewrite assoc_create by exact E.
    destruct (String.eqb_spec key key'); [contradiction|reflexivity].
Qed.

Lemma assoc_store_inv (o : props) key v k :
  is_Some (assoc (store o key v) k) ->
  is_Some (assoc o k) \/ (k = key /\ key <> "__proto__"%string).
Proof.
  destruct (String.eqb_spec key k) as [<-|Hne];
    [|rewrite assoc_store_ne by exact Hne; tauto].
  unfold store, has_own. destruct (assoc o key) eqn:E; [eauto|].
  destruct (String.eqb_spec key "__proto__") as [_|Hp].
  - rewrite E. intros [? ?]. discriminate.
  - intros _. right. done.
Qed.

Lemma set_prop_insert_index (o : props) n key v w :
  assoc o key = None ->
  set_prop (insert_index o n key v) key w = insert_index o n key w.
Proof.
  induction o as [|[k0 u] o IH]; intros Hn.
  - simpl. rewrite String.eqb_refl. reflexivity.
  - simpl in Hn. destruct (String.eqb_spec k0 key) as [->|Hne]; [discriminate|].
    cbn [insert_index].
    destruct (array_index k0) as [m|]; [destruct (m <? n)%N|];
      simpl; rewrite ?String.eqb_refl; try reflexivity.
    destruct (String.eqb_spec k0 key); [contradiction|].
    rewrite (IH Hn). reflexivity.
Qed.

Lemma set_prop_app_fresh (o : props) key v w :
  assoc o key = None ->
  set_prop (o ++ [(key, v)]) key w = o ++ [(key, w)].
Proof.
  induction o as [|[k0 u] o IH]; intros Hn.
  - simpl. rewrite String.eqb_refl. reflexivity.
  - simpl in Hn. simpl. destruct (String.eqb k0 key); [discriminate|].
    rewrite (IH Hn). reflexivity.
Qed.

Lemma set_prop_store (o : props) key v w :
  (assoc o key = None -> key <> "__proto__"%string) ->
  set_prop (store o key v) key w = store o key w.
Proof.
  intros Hk. unfold store, has_own. destruct (assoc o key) eqn:E.
  - apply set_prop_twice.
  - destruct (String.eqb_spec key "__proto__") as [Hp|_];
      [destruct (Hk eq_refl Hp)|].
    unfold create. destruct (array_index key).
    + apply set_prop_insert_index, E.
    + apply set_prop_app_fresh, E.
Qed.

Lemma set_prop_same (o : props) key v :
  assoc o key = Some v -> set_prop o key v = o.
Proof.
  induction o as [|[k w] o IH]; [discriminate|]. simpl.
  destruct (String.eqb k key); [congruence|]. intros H. rewrite (IH H).
  reflexivity.
Qed.

Lemma assign_own (o : props) key v w :
  assoc o key = Some w -> assign o key v = Some (set_prop o key v).
Proof. intros H. unfold assign, store, has_own. rewrite H. reflexivity. Qed.

Lemma assign_group (o : props) key (matches : list (option string)) i :
  assign o key (group_at matches i) = Some (store o key (group_at matches i)).
Proof.
  unfold assign.
  assert (Hp : primitive (group_at matches i) = true).
  { unfold group_at. destruct (matches !! i) as [[g|]|]; reflexivity. }
  rewrite Hp, andb_false_r. reflexivity.
Qed.

Lemma assign_named (o : props) key v :
  key <> "__proto__"%string -> assign o key v = Some (store o key v).
Proof.
  intros Hk. unfold assign.
  destruct (String.eqb_spec key "__proto__"); [contradiction|].
  rewrite andb_false_r. reflexivity.
Qed.

Lemma read_own (o : props) key v : assoc o key = Some v -> read o key = Some v.
Proof. intros H. unfold read. rewrite H. reflexivity. Qed.

(** the split case with a map *)
Lemma map_fragments_all header mapRe dataArr frags : forall pairs d target,
  assoc d header = Some (VObj target) ->
  Forall2 (fun frag p => fragment_pair mapRe frag = Some p) frags pairs ->
  map_fragments header mapRe dataArr frags d
  = Some (Normal tt,
          set_prop d header
            (VObj (fold_left (fun o p => store o (fst p) (snd p)) pairs target))).
Proof.
  induction frags as [|frag frags IH]; intros pairs d target Hd Hf.
  - inversion Hf; subst. simpl. rewrite set_prop_same by exact Hd. reflexivity.
  - inversion Hf as [|? p ? pairs' Hp Hf']; subst.
    cbn [map_fragments]. unfold fragment_pair in Hp.
    destruct frag as [f|]; [|done]. cbn [of_group str_match].
    destruct (regexp_exec (source mapRe) f) as [matches|]; [|done].
    injection Hp as <-. rewrite (read_own _ _ _ Hd), assign_group.
    rewrite (IH pairs' _ (store target (to_string (group_at matches 1))
                            (group_at matches 2))); [|apply assoc_set_prop_eq|done].
    rewrite set_prop_twice. reflexivity.
Qed.

Lemma map_fragments_fallback header mapRe dataArr pre f post : forall d target,
  assoc d header = Some (VObj target) ->
  Forall (fun frag => is_Some (fragment_pair mapRe frag)) pre ->
  regexp_exec (source mapRe) f = None ->
  map_fragments header mapRe dataArr (pre ++ Some f :: post) d
  = Some (Normal tt, set_prop d header (strings dataArr)).
Proof.
  induction pre as [|frag pre IH]; intros d target Hd Hpre Hf.
  - cbn [app map_fragments of_group str_match]. rewrite Hf.
    rewrite (assign_own _ _ _ _ Hd). reflexivity.
  - inversion Hpre as [|? ? [p Hp] Hpre']; subst.
    cbn [app map_fragments]. unfold fragment_pair in Hp.
    destruct frag as [f0|]; [|done]. cbn [of_group str_match].
    destruct (regexp_exec (source mapRe) f0) as [matches|]; [|done].
    rewrite (read_own _ _ _ Hd), assign_group.
    rewrite (IH _ (store target (to_string (group_at matches 1))
                     (group_at matches 2))); [|apply assoc_set_prop_eq|done|done].
    rewrite set_prop_twice. reflexivity.
Qed.

Lemma mapping_of_last (later : list (string * value)) : forall o k v,
  ~ In k (List.map fst later) ->
  assoc o k = Some v ->
  assoc (fold_left (fun o p => store o (fst p) (snd p)) later o) k = Some v.
Proof.
  induction later as [|[k' v'] later IH]; intros o k v Hn Ho; [exact Ho|].
  cbn [fold_left fst snd]. apply IH.
  - intros Hin. apply Hn. right. exact Hin.
  - rewrite assoc_store_ne; [exact Ho|]. intros ->. apply Hn. left. reflexivity.
Qed.

Lemma mapping_of_keys (pairs : list (string * value)) : forall o k,
  is_Some (assoc (fold_left (fun o p => store o (fst p) (snd p)) pairs o) k) ->
  is_Some (assoc o k) \/
  (k <> "__proto__"%string /\ In k (List.map fst pairs)).
Proof.
  induction pairs as [|[k' v'] pairs IH]; intros o k H; [left; exact H|].
  cbn [fold_left fst snd] in H. apply IH in H as [H|[Hp Hin]].
  - apply assoc_store_inv in H as [H|[-> Hp]]; [left; exact H|].
    right. split; [exact Hp|left; reflexivity].
  - right. split; [exact Hp|right; exact Hin].
Qed.

(** C2, as amended.  For a header object of type transform: a cell that
    matches the pattern is assigned, as capture group 1 of the match, to
    the property of the header name, which leaves group 1 under every name
    other than [__proto__] and the other fields as they were; a cell that
    does not match ends the batch, by process.exit for a string and by a
    TypeError for a cell that is no string, so the batch yields no record
    for that row or any later one. *)
Theorem transform_column (obj : HeaderObj) (header : string) (re : RegExp) :
  kind obj = Transform header re ->
  (forall s matches destObj,
     regexp_exec (source re) s = Some matches ->
     put_column (VStr s) obj destObj
     = Some (Normal tt, store destObj header (group_at matches 1)) /\
     (header <> "__proto__"%string ->
      assoc (store destObj header (group_at matches 1)) header
      = Some (group_at matches 1)) /\
     (forall key, key <> header ->
        assoc (store destObj header (group_at matches 1)) key
        = assoc destObj key)) /\
  (forall data hs1 hs2 cells1 cells2 d rows1 rows2 out,
     (forall matches, str_match data re <> Normal (Some matches)) ->
     length cells1 = length hs1 ->
     putDataInObject cells1 hs1 [] = Some (Normal tt, d) ->
     rowsToArrayOfObj rows1 (hs1 ++ Some obj :: hs2) = Some (Normal out) ->
     rowsToArrayOfObj (rows1 ++ (cells1 ++ data :: cells2) :: rows2)
       (hs1 ++ Some obj :: hs2)
     = Some (match data with VStr _ => Exit 0 | _ => Throw TypeError end)).
Proof.
  intros Hk. split.
  - intros s matches destObj Hm. split; [|split].
    + unfold put_column. rewrite Hk. cbn [str_match]. rewrite Hm, assign_group.
      reflexivity.
    + intros Hp. apply assoc_store_eq. intros _. exact Hp.
    + intros key Hne. apply assoc_store_ne. congruence.
  - intros data hs1 hs2 cells1 cells2 d rows1 rows2 out Hno Hl Hp Hr.
    unfold rowsToArrayOfObj in *.
    rewrite (rowsToArrayOfObj_from_app rows1 _ _ _ _ Hr).
    cbn [rowsToArrayOfObj_from]. unfold rowToObj.
    rewrite (putDataInObject_app cells1 hs1 _ _ _ _ Hl Hp).
    cbn [putDataInObject]. unfold put_column. rewrite Hk.
    destruct data as [| |b|n|s|xs|ps]; cbn [str_match]; try reflexivity.
    destruct (regexp_exec (source re) s) as [m|] eqn:E; [|reflexivity].
    exfalso. apply (Hno m). cbn [str_match]. rewrite E. reflexivity.
Qed.


(** C4, as amended.  For a header object of type split that carries a map,
    a string cell and a record that holds nothing truthy under the header
    name, of its own or inherited: when every fragment of the split matches
    the map pattern, the field is the object that maps the group 1 of each
    fragment to its group 2, a later fragment winning over an earlier one
    with the same key, and a fragment whose key is [__proto__] adding
    nothing; when a fragment fails to match, those before it having
    matched, the field is the list of all the fragments. *)
Theorem split_map_column (obj : HeaderObj) (header : string)
    (delim mapRe : RegExp) (s : string) (destObj : props) :
  kind obj = Split header delim ->
  map obj = Some mapRe ->
  vacant destObj header = true ->
  (forall pairs,
     Forall2 (fun frag p => fragment_pair mapRe frag = Some p)
       (regexp_split (source delim) s) pairs ->
     put_column (VStr s) obj destObj
     = Some (Normal tt, store destObj header (VObj (mapping_of pairs))) /\
     assoc (store destObj header (VObj (mapping_of pairs))) header
     = Some (VObj (mapping_of pairs)) /\
     (forall earlier k v later,
        pairs = earlier ++ (k, v) :: later ->
        ~ In k (List.map fst later) ->
        k <> "__proto__"%string ->
        assoc (mapping_of pairs) k = Some v) /\
     (forall k,
        is_Some (assoc (mapping_of pairs) k) ->
        k <> "__proto__"%string /\ In k (List.map fst pairs))) /\
  (forall pre f post,
     regexp_split (source delim) s = pre ++ Some f :: post ->
     Forall (fun frag => is_Some (fragment_pair mapRe frag)) pre ->
     regexp_exec (source mapRe) f = None ->
     put_column (VStr s) obj destObj
     = Some (Normal tt,
             store destObj header (strings (regexp_split (source delim) s))) /\
     assoc (store destObj header (strings (regexp_split (source delim) s)))
       header
     = Some (strings (regexp_split (source delim) s))).
Proof.
  intros Hk Hm Hfresh.
  assert (Hname : assoc destObj header = None -> header <> "__proto__"%string).
  { intros Hn ->. unfold vacant, read in Hfresh. rewrite Hn in Hfresh.
    discriminate. }
  assert (Hstart : put_column (VStr s) obj destObj
            = map_fragments header mapRe (regexp_split (source delim) s)
                (regexp_split (source delim) s)
                (store destObj header (VObj []))).
  { unfold put_column. rewrite Hk, Hm. cbn [str_split]. cbv zeta.
    unfold vacant in Hfresh. rewrite Hfresh. unfold assign.
    destruct (has_own destObj header) eqn:Eo; [reflexivity|].
    apply has_own_none in Eo.
    destruct (String.eqb_spec header "__proto__") as [Hp|_];
      [destruct (Hname Eo Hp)|].
    reflexivity. }
  split.
  - intros pairs Hall. split; [|split; [|split]].
    + rewrite Hstart.
      rewrite (map_fragments_all _ _ _ _ pairs _ []
                 (assoc_store_eq _ _ _ Hname) Hall).
      rewrite set_prop_store by exact Hname. reflexivity.
    + apply assoc_store_eq, Hname.
    + intros earlier k v later -> Hlast Hp. unfold mapping_of.
      rewrite fold_left_app. cbn [fold_left fst snd].
      apply mapping_of_last; [exact Hlast|].
      apply assoc_store_eq. intros _. exact Hp.
    + intros k Hs. apply mapping_of_keys in Hs as [[? Hs]|Hs]; [|exact Hs].
      discriminate.
  - intros pre f post Hsplit Hpre Hf. split; [|apply assoc_store_eq, Hname].
    rewrite Hstart. rewrite Hsplit at 2.
    rewrite (map_fragments_fallback _ _ _ pre f post _ []
               (assoc_store_eq _ _ _ Hname) Hpre Hf).
    rewrite set_prop_store by exact Hname. reflexivity.
Qed.

(** a compiled bracket content that the platform rejects *)
Lemma processHeader_rejects (header : string) re (m : grammar_match) :
  compiled re header -> first_bracket re header m ->
  regexp_valid (group2 m) = false ->
  processHeader header = Throw SyntaxError.
Proof.
  intros Hc Hf Hv. apply first_bracket_exec in Hf.
  pose proof (grammar_exec_none transformDataRegex header) as Nt.
  pose proof (grammar_exec_none multiDataRegex header) as Nu.
  unfold processHeader, new_RegExp.
  destruct Hc as [->|[->|[[-> Ht]|[-> [Ht Hu]]]]].
  - rewrite Hf, Hv. reflexivity.
  - rewrite Hf, Hv.
    destruct (grammar_exec mapDataRegex header) as [mm|]; [|reflexivity].
    destruct (regexp_valid (group2 mm)); reflexivity.
  - rewrite (proj2 Nt Ht), Hf, Hv.
    destruct (grammar_exec mapDataRegex header) as [mm|]; [|reflexivity].
    destruct (regexp_valid (group2 mm)); reflexivity.
  - rewrite (proj2 Nt Ht), (proj2 Nu Hu), Hf, Hv.
    destruct (grammar_exec mapDataRegex header) as [mm|]; [|reflexivity].
    destruct (regexp_valid (group2 mm)); reflexivity.
Qed.

(** C6, as amended.  For a template in which the content of every bracket
    pair that is compiled is a regular expression of the platform,
    processHeaders yields a header object of exactly one of the four types,
    by what the text of the template holds: transform with a transform
    bracket pair, else multi with a multi bracket pair, else split with a
    split bracket pair, else norm.  Whatever the type, the map of the
    header object is the content of the first map bracket pair of the
    template, and there is none without such a pair; and the map changes
    nothing in the assembly of a column unless the type is split. *)
Theorem header_type_resolution (header : string) :
  (forall re m,
     compiled re header -> first_bracket re header m ->
     regexp_valid (group2 m) = true) ->
  exists obj,
    processHeader header = Normal obj /\
    In (type obj) ["transform"; "multi"; "split"; "norm"]%string /\
    (type obj = "transform"%string <-> bracketed transformDataRegex header) /\
    (type obj = "multi"%string <->
     ~ bracketed transformDataRegex header /\
     bracketed multiDataRegex header) /\
    (type obj = "split"%string <->
     ~ bracketed transformDataRegex header /\
     ~ bracketed multiDataRegex header /\
     bracketed splitDataRegex header) /\
    (type obj = "norm"%string <->
     ~ bracketed transformDataRegex header /\
     ~ bracketed multiDataRegex header /\
     ~ bracketed splitDataRegex header) /\
    (is_Some (map obj) <-> bracketed mapDataRegex header) /\
    (forall m, first_bracket mapDataRegex header m ->
       map obj = Some {| source := group2 m |}) /\
    (forall m' data destObj,
       type obj <> "split"%string ->
       put_column data {| kind := kind obj; map := m' |} destObj
       = put_column data obj destObj).
Proof.
  intros Hv.
  assert (Hmap : exists mp,
             match grammar_exec mapDataRegex header with
             | Some m => let* re := new_RegExp (group2 m) in Normal (Some re)
             | None => Normal None
             end = Normal mp /\
             (is_Some mp <-> bracketed mapDataRegex header) /\
             (forall m, first_bracket mapDataRegex header m ->
                mp = Some {| source := group2 m |})).
  { destruct (grammar_exec mapDataRegex header) as [mm|] eqn:Em.
    - pose proof (grammar_exec_first _ _ _ Em) as Hf. unfold new_RegExp.
      rewrite (Hv mapDataRegex mm) by (done || left; reflexivity).
      eexists. split; [reflexivity|]. split.
      + split; [intros _; exists mm; exact (proj1 Hf)|eauto].
      + intros m Hm. rewrite (first_bracket_unique _ _ _ _ Hm Hf). reflexivity.
    - apply grammar_exec_none in Em. exists None. split; [reflexivity|]. split.
      + split; [intros [? ?]; discriminate|intros Hb; destruct (Em Hb)].
      + intros m [Hm _]. destruct Em. exists m. exact Hm. }
  destruct Hmap as [mp [Emap [Hsome Hfirst]]].
  assert (Hinert : forall k m' data destObj,
            type {| kind := k; map := mp |} <> "split"%string ->
            put_column data {| kind := k; map := m' |} destObj
            = put_column data {| kind := k; map := mp |} destObj).
  { intros k m' data destObj Ht. destruct k; try reflexivity.
    exfalso. apply Ht. reflexivity. }
  unfold processHeader. rewrite Emap. cbn [bind].
  destruct (grammar_exec transformDataRegex header) as [mt|] eqn:Et.
  { pose proof (grammar_exec_first _ _ _ Et) as Hf.
    assert (Hb : bracketed transformDataRegex header)
      by (exists mt; exact (proj1 Hf)).
    unfold new_RegExp.
    rewrite (Hv transformDataRegex mt) by (done || right; left; reflexivity).
    eexists. split; [reflexivity|]. cbn [type kind map bind].
    repeat split; try done; try tauto; try (simpl; tauto);
      try (intros [? ?]; tauto); try (intros [? [? ?]]; tauto);
      try (intros; apply Hinert; done). }
  apply grammar_exec_none in Et.
  destruct (grammar_exec multiDataRegex header) as [mu|] eqn:Eu.
  { pose proof (grammar_exec_first _ _ _ Eu) as Hf.
    assert (Hb : bracketed multiDataRegex header)
      by (exists mu; exact (proj1 Hf)).
    unfold new_RegExp.
    rewrite (Hv multiDataRegex mu)
      by (done || right; right; left; split; done).
    eexists. split; [reflexivity|]. cbn [type kind map bind].
    repeat split; try done; try tauto; try (simpl; tauto);
      try (intros [? ?]; tauto); try (intros [? [? ?]]; tauto);
      try (intros; apply Hinert; done). }
  apply grammar_exec_none in Eu.
  destruct (grammar_exec splitDataRegex header) as [ms|] eqn:Es.
  { pose proof (grammar_exec_first _ _ _ Es) as Hf.
    assert (Hb : bracketed splitDataRegex header)
      by (exists ms; exact (proj1 Hf)).
    unfold new_RegExp.
    rewrite (Hv splitDataRegex ms)
      by (done || right; right; right; split; done).
    eexists. split; [reflexivity|]. cbn [type kind map bind].
    repeat split; try done; try tauto; try (simpl; tauto);
      try (intros [? ?]; tauto); try (intros [? [? ?]]; tauto);
      try (intros ? ? ? Hne; destruct Hne; reflexivity). }
  apply grammar_exec_none in Es.
  eexists. split; [reflexivity|]. cbn [type kind map bind].
  repeat split; try done; try tauto; try (simpl; tauto);
    try (intros [? ?]; tauto); try (intros [? [? ?]]; tauto);
    try (intros; apply Hinert; done).
Qed.

End Assembler.

(** The three templates compile to the three sample header objects, a null
    header stays null, and a template with no bracket pair is a norm
    header. *)
Example processHeaders_samples :
  @candiutil.processHeaders sample_host
    [Some transform_template; None; Some multi_template;
     Some split_map_template; Some "plain"%string]
  = Normal [Some transform_header; None; Some multi_header;
            Some split_map_header;
            Some {| candiutil.kind := candiutil.Norm "plain";
                    candiutil.map := None |}].
Proof. reflexivity. Qed.

(** A template that matches several recognisers takes the type of the first
    in the order, and a bracket content the platform rejects is a
    SyntaxError. *)
Example processHeaders_priority :
  candiutil.type
    {| candiutil.kind :=
         candiutil.Transform "a" {| candiutil.source := "," |};
       candiutil.map := None |} = "transform"%string /\
  @candiutil.processHeader sample_host "a//,\\[[,]]{{,}}"
  = Normal {| candiutil.kind :=
                candiutil.Transform "a" {| candiutil.source := "," |};
              candiutil.map := None |} /\
  @candiutil.processHeader sample_host "a[[(]]" = Throw SyntaxError.
Proof. repeat split; reflexivity. Qed.

(** A batch at the transform template: two rows that match give two
    records, and a row that does not match ends the batch. *)
Example tableToArrayOfObj_samples :
  @candiutil.tableToArrayOfObj sample_host
    [[VStr "12 items"]; [VStr "12 items"]] [Some transform_template]
  = Some (Normal [[("qty"%string, VStr "12")]; [("qty"%string, VStr "12")]]) /\
  @candiutil.tableToArrayOfObj sample_host
    [[VStr "12 items"]; [VStr "none"]; [VStr "12 items"]]
    [Some transform_template]
  = Some (Exit 0).
Proof. split; reflexivity. Qed.

(** C2 at the transform template: the cell 12 items gives 12, and the row
    whose cell is none ends the batch. *)
Lemma transform_column_witness :
  candiutil.kind transform_header
  = candiutil.Transform "qty" {| candiutil.source := "(\d+) items" |} /\
  @candiutil.put_column sample_host (VStr "12 items") transform_header
    [("id"%string, VNum 7)]
  = Some (Normal tt, [("id"%string, VNum 7); ("qty"%string, VStr "12")]) /\
  assoc [("id"%string, VNum 7); ("qty"%string, VStr "12")] "qty"
  = Some (VStr "12") /\
  @candiutil.rowsToArrayOfObj sample_host
    ([[VStr "12 items"]] ++ ([] ++ VStr "none" :: []) :: [[VStr "12 items"]])
    ([] ++ Some transform_header :: [])
  = Some (Exit 0).
Proof.
  destruct (@transform_column sample_host transform_header _ _ eq_refl)
    as [Hmatch Hfatal].
  split; [reflexivity|].
  destruct (Hmatch "12 items"%string [Some "12 items"; Some "12"]%string
              [("id"%string, VNum 7)] eq_refl) as [Hput [Hfield _]].
  split; [exact Hput|]. split.
  - apply Hfield. discriminate.
  - apply (Hfatal (VStr "none") [] [] [] [] [] [[VStr "12 items"]]
             [[VStr "12 items"]] [[("qty"%string, VStr "12")]]);
      [intros matches; discriminate|reflexivity|reflexivity|reflexivity].
Defined.

(** C2 as stated fails at a transform template named [__proto__]: the cell
    12 items matches the pattern with 12 as its group 1, and the
    assignment creates no property; the record of the row is empty. *)
Lemma transform_column_proto_name :
  @candiutil.processHeader sample_host proto_template = Normal proto_header /\
  @candiutil.regexp_exec sample_host "(\d+) items" "12 items"
  = Some [Some "12 items"; Some "12"]%string /\
  @candiutil.tableToArrayOfObj sample_host [[VStr "12 items"]]
    [Some proto_template]
  = Some (Normal [[]]) /\
  ~ (exists destObj,
       @candiutil.put_column sample_host (VStr "12 items") proto_header []
       = Some (Normal tt, destObj) /\
       assoc destObj "__proto__" = Some (VStr "12")).
Proof.
  split; [reflexivity|]. split; [reflexivity|]. split; [reflexivity|].
  intros [destObj [Hput Hfield]]. vm_compute in Hput.
  injection Hput as <-. discriminate.
Qed.


(** C4 at the split template with a map: two matching fragments give the
    mapping, a fragment that does not match gives the list of fragments. *)
Lemma split_map_column_witness :
  vacant [] "tags" = true /\
  @candiutil.put_column sample_host (VStr "a=1,b=2") split_map_header []
  = Some (Normal tt,
          [("tags"%string, VObj [("a"%string, VStr "1"); ("b"%string, VStr "2")])]) /\
  @candiutil.put_column sample_host (VStr "a=1,oops") split_map_header []
  = Some (Normal tt, [("tags"%string, VArr [VStr "a=1"; VStr "oops"])]).
Proof.
  split; [reflexivity|]. split.
  - destruct (@split_map_column sample_host split_map_header _ _ _
                "a=1,b=2"%string [] eq_refl eq_refl eq_refl) as [Hall _].
    apply (Hall [("a"%string, VStr "1"); ("b"%string, VStr "2")]).
    repeat constructor.
  - destruct (@split_map_column sample_host split_map_header _ _ _
                "a=1,oops"%string [] eq_refl eq_refl eq_refl) as [_ Hfall].
    apply (Hfall [Some "a=1"%string] "oops"%string []); [reflexivity| |reflexivity].
    repeat constructor. eexists. reflexivity.
Defined.

(** C4 as stated fails off those records and cells.  A cell that is no
    string has no split and the column throws.  Where an earlier column
    left a string under the name, both fragments of a=1,b=2 match the map
    pattern and the write into the string throws, so the row and the batch
    are lost.  Where an earlier column left a mapping under the name, the
    fragments are written into it and its entries stay.  A fragment whose
    group 1 is [__proto__] leaves nothing in the mapping.  And an
    undefined entry among the fragments, left by a capture group of the
    delimiter, has no match to call: the column throws. *)
Lemma split_map_column_exceptions :
  @candiutil.put_column sample_host (VNum 5) split_map_header []
  = Some (Throw TypeError, []) /\
  Forall2
    (fun frag p =>
       @fragment_pair sample_host {| candiutil.source := "(\w+)=(\w+)" |} frag
       = Some p)
    (@candiutil.regexp_split sample_host "," "a=1,b=2")
    [("a"%string, VStr "1"); ("b"%string, VStr "2")] /\
  @candiutil.put_column sample_host (VStr "a=1,b=2") split_map_header
    [("tags"%string, VStr "old")]
  = Some (Throw TypeError, [("tags"%string, VStr "old")]) /\
  @candiutil.tableToArrayOfObj sample_host [[VStr "old"; VStr "a=1,b=2"]]
    [Some "tags"%string; Some split_map_template]
  = Some (Throw TypeError) /\
  @candiutil.put_column sample_host (VStr "a=1") split_map_header
    [("tags"%string, VObj [("b"%string, VStr "2")])]
  = Some (Normal tt,
          [("tags"%string,
            VObj [("b"%string, VStr "2"); ("a"%string, VStr "1")])]) /\
  @fragment_pair edge_host {| candiutil.source := "(\w+)=(\w+)" |}
    (Some "__proto__=1"%string)
  = Some ("__proto__"%string, VStr "1") /\
  @candiutil.put_column edge_host (VStr "__proto__=1") split_map_header []
  = Some (Normal tt, [("tags"%string, VObj [])]) /\
  @candiutil.processHeader edge_host "tags{{(;)|,}}<<(\w+)=(\w+)>>"
  = Normal grouped_split_header /\
  @candiutil.regexp_split edge_host "(;)|," "a=1,b=2"
  = [Some "a=1"; None; Some "b=2"]%string /\
  @candiutil.put_column edge_host (VStr "a=1,b=2") grouped_split_header []
  = Some (Throw TypeError,
          [("tags"%string, VObj [("a"%string, VStr "1")])]).
Proof.
  split; [reflexivity|]. split; [repeat constructor|].
  repeat split; reflexivity.
Qed.

(** C6 at the split template with a map: its type is split, and its map is
    the content of the map bracket pair. *)
Lemma header_type_resolution_witness :
  exists obj,
    @candiutil.processHeader sample_host split_map_template = Normal obj /\
    candiutil.type obj = "split"%string /\
    candiutil.map obj = Some {| candiutil.source := "(\w+)=(\w+)" |}.
Proof.
  destruct (@header_type_resolution sample_host split_map_template)
    as [obj [Hobj [_ [_ [_ [Hsplit [_ [_ [Hmap _]]]]]]]]].
  - intros re m Hc Hf. apply first_bracket_exec in Hf.
    destruct Hc as [->|[->|[[-> _]|[-> _]]]]; vm_compute in Hf;
      try discriminate; injection Hf as <-; reflexivity.
  - exists obj. split; [exact Hobj|]. split.
    + apply Hsplit. split; [|split].
      * apply grammar_exec_none. reflexivity.
      * apply grammar_exec_none. reflexivity.
      * apply grammar_exec_bracketed. vm_compute. eauto.
    + apply (Hmap {| candiutil.before := "";
                     candiutil.group1 := "tags{{,}}";
                     candiutil.group2 := "(\w+)=(\w+)";
                     candiutil.after := "" |}).
      apply grammar_exec_first. reflexivity.
Defined.

(** C6 as stated fails at a template whose bracket content is no regular
    expression: the template holds a transform bracket pair, and compiling
    it throws, so that it gets no type at all. *)
Lemma header_type_unresolved :
  bracketed candiutil.transformDataRegex broken_template /\
  @candiutil.regexp_valid sample_host "(" = false /\
  @candiutil.processHeader sample_host broken_template = Throw SyntaxError /\
  @candiutil.processHeaders sample_host [Some broken_template]
  = Throw SyntaxError.
Proof.
  split; [|repeat split; reflexivity].
  exists {| candiutil.before := ""; candiutil.group1 := "qty";
            candiutil.group2 := "("; candiutil.after := "" |}.
  repeat split; done.
Qed.

(** * Further properties

    The properties below are read off the code beside the ones above: the
    rest of the two classes of candicsv.js, and the helpers of
    candiutil.js around tables, text, records and the page cache. *)

(** ** Entries of scalars *)

Section ScalarRows.

Import CSVEntry.

Lemma spec_height_scalars (data : list value) :
  Forall (fun cell => isArray cell = false) data -> spec_height data = 1.
Proof.
  intros H. unfold spec_height.
  assert (foldr Nat.max 0 (cell_height <$> data) <= 1) as Hb; [|lia].
  induction H as [|v data Hv _ IH]; csimpl; [lia|].
  destruct v; try discriminate; cbn [cell_height]; lia.
Qed.

Lemma getOutputRows_scalars (this : CSVEntry.t) :
  length (data this) <= length (headers this) ->
  Forall (fun cell => isArray cell = false) (data this) ->
  getOutputRows this
  = Normal [data this
            ++ replicate (length (headers this) - length (data this)) blank].
Proof.
  intros Hw Hs.
  destruct (getOutputRows_settles this Hw) as [rows [-> [Hlen [Hwid Hcell]]]].
  rewrite (spec_height_scalars _ Hs) in Hlen, Hcell.
  destruct rows as [|row [|? ?]]; try discriminate.
  apply Forall_inv in Hwid. do 2 f_equal.
  apply list_eq. intros c.
  destruct (decide (c < length (headers this))) as [Hc|Hc].
  - specialize (Hcell 0 c ltac:(lia) Hc).
    change (cell_at [row] 0 c) with (row !! c) in Hcell. rewrite Hcell.
    destruct (decide (c < length (data this))) as [Hd|Hd].
    + rewrite lookup_app_l by done.
      destruct (lookup_lt_is_Some_2 _ _ Hd) as [v Hv]. rewrite Hv.
      rewrite Forall_lookup in Hs. specialize (Hs _ _ Hv).
      destruct v; try done.
    + rewrite lookup_app_r by lia. rewrite lookup_ge_None_2 by lia.
      simpl. rewrite lookup_replicate_2 by lia. reflexivity.
  - rewrite !lookup_ge_None_2; [done| |lia].
    rewrite length_app, length_replicate. lia.
Qed.

(** X1.  An entry none of whose cells is an array, and with no more cells
    than headers, expands to one row: its cells in order, and the empty
    string under every header that has no cell. *)
Theorem getOutputRows_of_scalars (this : CSVEntry.t) :
  length (data this) <= length (headers this) ->
  Forall (fun cell => isArray cell = false) (data this) ->
  getOutputRows this
  = Normal [data this
            ++ replicate (length (headers this) - length (data this)) blank].
Proof. apply getOutputRows_scalars. Qed.

(** X1 at an entry with headers a and b and the one cell x. *)
Lemma getOutputRows_of_scalars_witness :
  getOutputRows (entry_of [VStr "a"; VStr "b"] [VStr "x"])
  = Normal [[VStr "x"; blank]].
Proof.
  apply (getOutputRows_of_scalars (entry_of [VStr "a"; VStr "b"] [VStr "x"]));
    [simpl; lia|repeat constructor].
Defined.

End ScalarRows.

(** ** Objects a document accepts *)

Section Accepting.

Import CSV.

Lemma indexOf_from_NoDup (hs : list string) key : forall i j,
  NoDup hs -> hs !! i = Some key ->
  indexOf_from (VStr <$> hs) key j = (j + Z.of_nat i)%Z.
Proof.
  induction hs as [|h hs IH]; intros i j Hn Hi; [done|].
  apply NoDup_cons in Hn as [Hh Hn]. csimpl.
  destruct i as [|i]; simpl in Hi.
  - injection Hi as ->. rewrite String.eqb_refl. lia.
  - destruct (String.eqb_spec h key) as [->|_].
    + exfalso. apply Hh. eapply list_elem_of_lookup_2, Hi.
    + rewrite (IH i (j + 1)%Z Hn Hi). lia.
Qed.

Lemma array_includes_elem (hs : list string) key :
  key ∈ hs -> array_includes (VStr <$> hs) key = true.
Proof.
  intros H. unfold array_includes. apply existsb_exists.
  exists (VStr key). split; [|apply String.eqb_refl].
  apply list_elem_of_In, list_elem_of_fmap. eauto.
Qed.

Lemma array_get_array_set (xs : list value) i j v :
  array_get (array_set xs i v) j
  = if decide (j = i) then v else array_get xs j.
Proof.
  unfold array_get, array_set. destruct (decide (i < length xs)) as [Hi|Hi].
  - destruct (decide (j = i)) as [->|Hj].
    + rewrite list_lookup_insert_eq by done. reflexivity.
    + rewrite list_lookup_insert_ne by done. reflexivity.
  - destruct (decide (j < length xs)) as [Hj|Hj].
    + rewrite lookup_app_l by done. rewrite decide_False by lia. reflexivity.
    + rewrite lookup_app_r by lia. rewrite (lookup_ge_None_2 xs) by lia.
      destruct (decide (j - length xs < i - length xs)) as [Hk|Hk].
      * rewrite lookup_app_l by (rewrite length_replicate; lia).
        rewrite lookup_replicate_2 by lia. rewrite decide_False by lia.
        reflexivity.
      * rewrite lookup_app_r by (rewrite length_replicate; lia).
        rewrite length_replicate.
        destruct (decide (j = i)) as [->|Hji].
        -- rewrite Nat.sub_diag. reflexivity.
        -- rewrite lookup_ge_None_2 by (simpl; lia). reflexivity.
Qed.

Lemma addable_get_prop_VObj (props : list (string * value)) key :
  Forall (fun p => addable p.2 = true) props ->
  addable (get_prop (VObj props) key) = true.
Proof.
  intros H. simpl. induction H as [|[k v] props Hv _ IH]; [reflexivity|].
  simpl. destruct (String.eqb k key); [exact Hv|exact IH].
Qed.

Lemma keys_fmap (props : list (string * value)) : List.map fst props = props.*1.
Proof. induction props as [|p props IH]; csimpl; congruence. Qed.

(** The loop of addObject over keys that are headers not yet seen writes
    each value into the empty cell of its header. *)
Lemma add_keys_fills this (hs : list string) obj keys : forall seen row,
  headers this = VStr <$> hs -> NoDup hs ->
  CSVEntry.headers row = headers this ->
  NoDup keys -> (forall k, k ∈ keys -> k ∈ hs /\ k ∉ seen) ->
  Forall (fun k => addable (get_prop obj k) = true) keys ->
  filled hs obj seen row ->
  exists row', add_keys this obj keys row = Normal row' /\
    CSVEntry.headers row' = headers this /\
    filled hs obj (seen ++ keys) row'.
Proof.
  induction keys as [|key keys IH]; intros seen row Hh Hn Hr Hk Hin Ha Hf.
  - exists row. rewrite app_nil_r. done.
  - apply NoDup_cons in Hk as [Hkey Hk].
    apply Forall_cons in Ha as [Hv Ha].
    destruct (Hin key ltac:(left)) as [Hkh Hks].
    apply list_elem_of_lookup in Hkh as [i Hi].
    cbn [add_keys]. rewrite Hh, array_includes_elem
      by (eapply list_elem_of_lookup_2, Hi).
    cbn [negb]. unfold CSVEntry.add.
    unfold addable in Hv. apply negb_true_iff in Hv. rewrite Hv.
    rewrite indexOf_normal. unfold array_indexOf. rewrite Hr, Hh.
    rewrite (indexOf_from_NoDup hs key i 0 Hn Hi).
    destruct Hf as [Hm [Hlen Hcells]].
    destruct (Hcells i key Hi) as [_ Hold].
    rewrite decide_False in Hold by done.
    replace (0 + Z.of_nat i)%Z with (Z.of_nat i) by lia.
    assert (Hget : CSVEntry.data_get row (Z.of_nat i) = VUndefined).
    { unfold CSVEntry.data_get. destruct (Z.of_nat i) eqn:E; try lia;
        rewrite <- E, Nat2Z.id; exact Hold. }
    rewrite Hget. cbn [truthy].
    assert (Hset : CSVEntry.data_set row (Z.of_nat i) (get_prop obj key)
                   = {| CSVEntry.headers := CSVEntry.headers row;
                        CSVEntry.data :=
                          array_set (CSVEntry.data row) i (get_prop obj key);
                        CSVEntry.data_minus1 := CSVEntry.data_minus1 row |}).
    { unfold CSVEntry.data_set. destruct (Z.of_nat i) eqn:E; try lia;
        rewrite <- E, Nat2Z.id; reflexivity. }
    rewrite Hset.
    edestruct (IH (seen ++ [key])
                 {| CSVEntry.headers := CSVEntry.headers row;
                    CSVEntry.data :=
                      array_set (CSVEntry.data row) i (get_prop obj key);
                    CSVEntry.data_minus1 := CSVEntry.data_minus1 row |})
      as [row' [Hrow' [Hh' Hf']]];
      [exact Hh|exact Hn| |exact Hk| |exact Ha| |].
    + exact Hr.
    + intros k Hk'. destruct (Hin k ltac:(right; done)) as [? ?].
      split; [done|]. rewrite elem_of_app, list_elem_of_singleton.
      intros [?| ->]; done.
    + split; [exact Hm|]. cbn [CSVEntry.data]. split.
      * rewrite length_array_set. apply lookup_lt_Some in Hi. lia.
      * intros j h Hj. rewrite length_array_set, array_get_array_set.
        destruct (Hcells j h Hj) as [Hlt Hval].
        destruct (decide (j = i)) as [->|Hji].
        -- rewrite Hi in Hj. injection Hj as <-.
           rewrite decide_True
             by (rewrite elem_of_app, list_elem_of_singleton; eauto).
           split; [lia|reflexivity].
        -- assert (h <> key).
           { intros E. subst h. apply Hji.
             exact (NoDup_lookup hs j i key Hn Hj Hi). }
           rewrite Hval. split.
           ++ rewrite elem_of_app, list_elem_of_singleton.
              intros [?|?]; [|done]. specialize (Hlt ltac:(done)). lia.
           ++ destruct (decide (h ∈ seen)) as [Hs|Hs].
              ** rewrite decide_True by (rewrite elem_of_app; eauto). done.
              ** rewrite decide_False; [done|].
                 rewrite elem_of_app, list_elem_of_singleton.
                 intros [?|?]; done.
    + exists row'. rewrite <- app_assoc in Hf'. split; [exact Hrow'|].
      split; [congruence|exact Hf'].
Qed.

Lemma addObject_fills this (hs : list string) (props : list (string * value)) :
  headers this = VStr <$> hs -> NoDup hs ->
  props.*1 ≡ₚ hs ->
  Forall (fun p => addable p.2 = true) props ->
  addObject this (VObj props)
  = (Normal tt,
     push_entry this
       (Instance (entry_of (headers this) (values_under (VObj props) hs)))).
Proof.
  intros Hh Hn Hp Ha. rewrite addObject_VObj, keys_fmap.
  assert (Hlen : length (props.*1) = length (headers this)).
  { rewrite Hp, Hh, length_fmap. reflexivity. }
  rewrite Hlen, Nat.eqb_refl. cbn [negb].
  destruct (add_keys_fills this hs (VObj props) (props.*1) []
              {| CSVEntry.headers := headers this; CSVEntry.data := [];
                 CSVEntry.data_minus1 := VUndefined |})
    as [row' [-> [Hh' [Hm [Hl Hcells]]]]]; try done.
  - rewrite Hp. exact Hn.
  - intros k Hk. rewrite Hp in Hk. split; [done|]. apply not_elem_of_nil.
  - apply Forall_forall. intros k _. apply addable_get_prop_VObj, Ha.
  - split; [done|]. split; [simpl; lia|]. intros i h _.
    split; [intros []%elem_of_nil|].
    rewrite decide_False by apply not_elem_of_nil. reflexivity.
  - do 3 f_equal. destruct row' as [h' d' m']. simpl in *. subst h' m'.
    unfold entry_of. f_equal. apply list_eq. intros i.
    unfold values_under. rewrite list_lookup_fmap.
    destruct (hs !! i) as [h|] eqn:Hi; simpl.
    + destruct (Hcells i h Hi) as [Hlt Hval].
      assert (Hin : h ∈ props.*1).
      { rewrite Hp. eapply list_elem_of_lookup_2, Hi. }
      rewrite decide_True in Hval by done. specialize (Hlt Hin).
      destruct (lookup_lt_is_Some_2 _ _ Hlt) as [v Hv].
      unfold array_get in Hval. rewrite Hv in Hval. simpl in Hval.
      rewrite Hv, Hval. reflexivity.
    + apply lookup_ge_None_2. apply lookup_ge_None_1 in Hi. lia.
Qed.

(** X2.  When the headers of the document are distinct strings, the keys
    of the object are those headers in any order, and no value is an
    object other than an array, addObject returns and appends one entry:
    the values of the object in the order of the headers, whatever the
    order of the keys. *)
Theorem addObject_in_header_order (this : CSV.t) (hs : list string)
    (props : list (string * value)) :
  headers this = VStr <$> hs -> NoDup hs ->
  props.*1 ≡ₚ hs ->
  Forall (fun p => addable p.2 = true) props ->
  addObject this (VObj props)
  = (Normal tt,
     push_entry this
       (Instance (entry_of (headers this) (values_under (VObj props) hs)))).
Proof. apply addObject_fills. Qed.

(** X2 at the sample document and the object with b before a. *)
Lemma addObject_in_header_order_witness :
  addObject sample_document (VObj [("b", VStr "y"); ("a", VStr "x")]%string)
  = (Normal tt, sample_document_filled).
Proof.
  apply (addObject_in_header_order sample_document ["a"; "b"]%string
           [("b", VStr "y"); ("a", VStr "x")]%string).
  - reflexivity.
  - apply NoDup_ListNoDup. repeat constructor; simpl; intuition discriminate.
  - apply perm_swap.
  - repeat constructor.
Defined.

Lemma add_keys_normal this obj keys : forall row row',
  add_keys this obj keys row = Normal row' ->
  Forall (accepted this obj) keys.
Proof.
  induction keys as [|key keys IH]; intros row row' H; [constructor|].
  cbn [add_keys] in H.
  destruct (array_includes (headers this) key) eqn:Hin; [|discriminate].
  cbn [negb] in H.
  destruct (addable (get_prop obj key)) eqn:Ha.
  - destruct (CSVEntry.add row key (get_prop obj key)) as [[[]|e|n] row1];
      try discriminate.
    constructor; [split; done|]. eapply IH, H.
  - rewrite add_not_addable in H by done. discriminate.
Qed.

Lemma array_includes_true (hs : list value) key :
  array_includes hs key = true -> VStr key ∈ hs.
Proof.
  unfold array_includes. intros H. apply existsb_exists in H as [x [Hx E]].
  apply list_elem_of_In in Hx. destruct x; try discriminate.
  simpl in E. apply String.eqb_eq in E. subst. exact Hx.
Qed.

Lemma assoc_NoDup (props : list (string * value)) k v :
  NoDup props.*1 -> (k, v) ∈ props -> assoc props k = Some v.
Proof.
  induction props as [|[k' v'] props IH]; intros Hn Hin.
  - apply elem_of_nil in Hin as [].
  - csimpl in Hn. apply NoDup_cons in Hn as [Hk Hn].
    apply elem_of_cons in Hin as [E|Hin].
    + injection E as -> ->. simpl. rewrite String.eqb_refl. reflexivity.
    + simpl. destruct (String.eqb_spec k' k) as [->|_]; [|apply IH; done].
      exfalso. apply Hk. apply list_elem_of_fmap. exists (k, v). done.
Qed.

(** X3.  addObject returns for an object only when its keys are exactly
    the headers of the document in some order, so that the headers are
    distinct strings, and none of its values is an object other than an
    array: a document with a repeated header, or with a header that is no
    string, takes no object at all. *)
Theorem addObject_accepted_only (this : CSV.t)
    (props : list (string * value)) :
  NoDup props.*1 ->
  fst (addObject this (VObj props)) = Normal tt ->
  headers this ≡ₚ VStr <$> props.*1 /\
  Forall (fun p => addable p.2 = true) props.
Proof.
  intros Hn. rewrite addObject_VObj, keys_fmap.
  destruct (Nat.eqb_spec (length props.*1) (length (headers this))) as [Hl|Hl];
    [|discriminate].
  cbn [negb].
  destruct (add_keys this (VObj props) props.*1 _) as [row'|e|n] eqn:Ek;
    try discriminate.
  intros _. apply add_keys_normal in Ek. rewrite Forall_forall in Ek. split.
  - symmetry. apply submseteq_length_Permutation.
    + apply NoDup_submseteq.
      * apply NoDup_fmap; [|exact Hn]. intros x y [= ->]. reflexivity.
      * intros x Hx. apply list_elem_of_fmap in Hx as [k [-> Hk]].
        apply array_includes_true, Ek, Hk.
    + rewrite length_fmap. lia.
  - apply Forall_forall. intros [k v] Hin.
    assert (Hk : k ∈ props.*1) by (apply list_elem_of_fmap; exists (k, v); done).
    destruct (Ek k Hk) as [_ Ha]. simpl in Ha.
    rewrite (assoc_NoDup props k v Hn Hin) in Ha. exact Ha.
Qed.

(** X3 at the sample document and the sample object. *)
Lemma addObject_accepted_only_witness :
  headers sample_document ≡ₚ [VStr "a"; VStr "b"] /\
  Forall (fun p => addable p.2 = true)
    [("a", VStr "x"); ("b", VStr "y")]%string.
Proof.
  apply (addObject_accepted_only sample_document
           [("a", VStr "x"); ("b", VStr "y")]%string).
  - apply NoDup_ListNoDup. repeat constructor; simpl; intuition discriminate.
  - reflexivity.
Defined.

Lemma scalar_addable v : scalar v = true -> addable v = true.
Proof.
  unfold scalar, addable. intros H. apply negb_true_iff in H. rewrite H.
  reflexivity.
Qed.

Lemma scalar_no_array v : scalar v = true -> isArray v = false.
Proof. destruct v; done. Qed.

Lemma values_under_scalar (props : list (string * value)) hs :
  Forall (fun p => scalar p.2 = true) props ->
  Forall (fun cell => isArray cell = false) (values_under (VObj props) hs).
Proof.
  intros H. unfold values_under. apply Forall_fmap, Forall_forall.
  intros k _. simpl. apply scalar_no_array.
  induction H as [|[k' v] props Hv _ IH]; [reflexivity|].
  simpl. destruct (String.eqb k' k); [exact Hv|exact IH].
Qed.

Lemma perform_flat_objects (hs : list string) objs : forall this,
  headers this = VStr <$> hs -> NoDup hs ->
  Forall (flat_for hs) objs ->
  fold_left perform ((fun props => AddObject (VObj props)) <$> objs) this
  = {| currentLine := currentLine this; headers := headers this;
       entries := entries this
                  ++ ((fun props =>
                         Instance (entry_of (headers this)
                                     (values_under (VObj props) hs))) <$> objs);
       qualifier := qualifier this; delimeter := delimeter this |}.
Proof.
  induction objs as [|props objs IH]; intros this Hh Hn Hf.
  - csimpl. rewrite app_nil_r. destruct this; reflexivity.
  - apply Forall_cons in Hf as [[Hp Hs] Hf]. csimpl.
    rewrite (addObject_fills this hs props Hh Hn Hp)
      by (eapply Forall_impl; [exact Hs|]; intros p; apply scalar_addable).
    cbn [snd]. rewrite IH by done. unfold push_entry. cbn.
    rewrite <- app_assoc. reflexivity.
Qed.

Lemma collect_lines_scalars hs (rows : list (list value)) : forall lines,
  Forall (fun data => length data = length hs
                      /\ Forall (fun cell => isArray cell = false) data) rows ->
  collect_lines ((fun data => Instance (entry_of hs data)) <$> rows) lines
  = Normal (lines ++ rows).
Proof.
  induction rows as [|data rows IH]; intros lines Hr; csimpl.
  - rewrite app_nil_r. reflexivity.
  - apply Forall_cons in Hr as [[Hl Hs] Hr].
    rewrite (getOutputRows_scalars (entry_of hs data)) by (simpl; done || lia).
    cbn [bind entry_of CSVEntry.headers CSVEntry.data]. rewrite Hl, Nat.sub_diag.
    cbn [replicate]. rewrite app_nil_r, IH by done.
    rewrite <- app_assoc. reflexivity.
Qed.

Lemma writeFile_flat (this : CSV.t) (hs : list string)
    (objs : list (list (string * value))) :
  headers this = VStr <$> hs -> NoDup hs -> entries this = [] ->
  Forall (flat_for hs) objs ->
  writeFile
    (fold_left perform ((fun props => AddObject (VObj props)) <$> objs) this)
  = Normal (render this
              (headers this
               :: ((fun props => values_under (VObj props) hs) <$> objs))).
Proof.
  intros Hh Hn He Hf. rewrite (perform_flat_objects hs objs this Hh Hn Hf).
  unfold writeFile. cbn [entries headers]. rewrite He. cbn [app].
  pose proof (list_fmap_compose (fun props => values_under (VObj props) hs)
                (fun data => Instance (entry_of (headers this) data)) objs)
    as Hc.
  unfold compose in Hc. cbv beta in Hc. rewrite Hc.
  rewrite collect_lines_scalars.
  - cbn [bind]. rewrite write_rows_render, append_nil_l. reflexivity.
  - apply Forall_fmap, Forall_forall. intros props Hin.
    rewrite Forall_forall in Hf. destruct (Hf _ Hin) as [Hp Hs]. split.
    + unfold values_under. rewrite Hh, !length_fmap. reflexivity.
    + apply values_under_scalar, Hs.
Qed.

(** X4.  A document with distinct string headers and no entries, after
    addObject took objects whose keys are the headers in any order and
    whose values are no objects and, where they are numbers, safe
    integers, is written as the header row followed by one row for each
    object, in the order of the calls, each row holding the values of its
    object in the order of the headers. *)
Theorem writeFile_flat_objects (this : CSV.t) (hs : list string)
    (objs : list (list (string * value))) :
  headers this = VStr <$> hs -> NoDup hs -> entries this = [] ->
  Forall (flat_for hs) objs ->
  Forall (fun props => Forall (fun p => safe_number p.2 = true) props) objs ->
  writeFile
    (fold_left perform ((fun props => AddObject (VObj props)) <$> objs) this)
  = Normal (render this
              (headers this
               :: ((fun props => values_under (VObj props) hs) <$> objs))).
Proof. intros Hh Hn He Hf _. apply writeFile_flat; done. Qed.

(** X4 at the sample document and two objects, the second with its keys
    the other way round and the number 0 under a. *)
Lemma writeFile_flat_objects_witness :
  writeFile
    (fold_left perform
       [AddObject (VObj [("a", VStr "x"); ("b", VStr "y")]%string);
        AddObject (VObj [("b", VStr "z"); ("a", VNum 0)]%string)]
       sample_document)
  = Normal (quoted "a" ++ "," ++ quoted "b" ++ newline
            ++ quoted "x" ++ "," ++ quoted "y" ++ newline
            ++ quoted "0" ++ "," ++ quoted "z")%string.
Proof.
  apply (writeFile_flat_objects sample_document ["a"; "b"]%string
           [[("a", VStr "x"); ("b", VStr "y")];
            [("b", VStr "z"); ("a", VNum 0)]]%string).
  - reflexivity.
  - apply NoDup_ListNoDup. repeat constructor; simpl; intuition discriminate.
  - reflexivity.
  - constructor; [split; [reflexivity|repeat constructor]|].
    constructor; [split; [apply perm_swap|repeat constructor]|constructor].
  - repeat constructor.
Defined.

End Accepting.

(** ** Lines, and documents that can be written *)

Section Lines.

Import CSV.

Lemma addLine_taken this line :
  takes_line (headers this) line = true ->
  addLine this line
  = (Normal tt, set_currentLine (push_entry this (Raw line)) line).
Proof.
  unfold takes_line, addLine, CSVEntry.new. intros H.
  destruct (truthy line) eqn:T; cbn [negb orb] in *; [|reflexivity].
  destruct line as [| |b|n|s|xs|ps]; try discriminate.
  rewrite H. reflexivity.
Qed.

Lemma addLine_refused this line :
  takes_line (headers this) line = false ->
  exists msg, addLine this line = (Throw (Thrown msg), this).
Proof.
  unfold takes_line, addLine, CSVEntry.new. intros H.
  apply orb_false_iff in H as [T H]. rewrite T.
  destruct line as [| |b|n|s|xs|ps]; try (eexists; reflexivity).
  rewrite H. eexists. reflexivity.
Qed.


(** X5.  addLine takes a falsy value unchecked and an array exactly when it
    is as long as the header list, pushing the value itself and making it
    the current line; on anything else (a truthy value that is no array,
    an array of another length) it throws a string and leaves the document
    as it was. *)
Theorem addLine_validates (this : CSV.t) (line : value) :
  (takes_line (headers this) line = true ->
   addLine this line
   = (Normal tt, set_currentLine (push_entry this (Raw line)) line)) /\
  (takes_line (headers this) line = false ->
   exists msg, addLine this line = (Throw (Thrown msg), this)) /\
  (truthy line = true -> isArray line = false ->
   addLine this line = (Throw (Thrown "Expected array"), this)) /\
  (forall xs, line = VArr xs -> length xs <> length (headers this) ->
   addLine this line
   = (Throw (Thrown ("Input length " ++ string_of_nat (length xs)
                     ++ "; expected "
                     ++ string_of_nat (length (headers this)))%string),
      this)).
Proof.
  split; [apply addLine_taken|]. split; [apply addLine_refused|]. split.
  - intros T A. unfold addLine, CSVEntry.new. rewrite T.
    destruct line; try discriminate; reflexivity.
  - intros xs -> Hl. unfold addLine, CSVEntry.new. cbn [truthy negb].
    destruct (Nat.eqb_spec (length xs) (length (headers this))); [done|].
    reflexivity.
Qed.

(** X5 at the sample document: a line of two cells and the line null are
    taken, a string and a line of one cell are refused. *)
Lemma addLine_validates_witness :
  addLine sample_document (VArr [VStr "x"; VStr "y"])
  = (Normal tt,
     set_currentLine
       (push_entry sample_document (Raw (VArr [VStr "x"; VStr "y"])))
       (VArr [VStr "x"; VStr "y"])) /\
  addLine sample_document VNull
  = (Normal tt, set_currentLine (push_entry sample_document (Raw VNull)) VNull) /\
  addLine sample_document (VStr "x")
  = (Throw (Thrown "Expected array"), sample_document) /\
  addLine sample_document (VArr [VStr "x"])
  = (Throw (Thrown "Input length 1; expected 2"), sample_document).
Proof.
  split; [|split; [|split]].
  - apply (addLine_validates sample_document (VArr [VStr "x"; VStr "y"])).
    reflexivity.
  - apply (addLine_validates sample_document VNull). reflexivity.
  - apply (addLine_validates sample_document (VStr "x")); reflexivity.
  - destruct (addLine_validates sample_document (VArr [VStr "x"]))
      as [_ [_ [_ H]]].
    apply (H [VStr "x"]); [reflexivity|simpl; lia].
Defined.





End Lines.

(** ** Cells that collect values *)

Section Cells.

Import CSVEntry.

Lemma array_get_set_same (xs : list value) i v :
  array_get (array_set xs i v) i = v.
Proof.
  unfold array_get, array_set. destruct (decide (i < length xs)) as [Hi|Hi].
  - rewrite list_lookup_insert_eq by done. reflexivity.
  - rewrite lookup_app_r by lia.
    rewrite lookup_app_r by (rewrite length_replicate; lia).
    rewrite length_replicate, Nat.sub_diag. reflexivity.
Qed.

Lemma data_get_nat (this : CSVEntry.t) i :
  data_get this (Z.of_nat i) = array_get (data this) i.
Proof.
  unfold data_get. destruct (Z.of_nat i) eqn:E; try lia; rewrite <- E, Nat2Z.id;
    reflexivity.
Qed.

Lemma data_set_nat (this : CSVEntry.t) i v :
  data_set this (Z.of_nat i) v
  = {| headers := headers this; data := array_set (data this) i v;
       data_minus1 := data_minus1 this |}.
Proof.
  unfold data_set. destruct (Z.of_nat i) eqn:E; try lia; rewrite <- E, Nat2Z.id;
    reflexivity.
Qed.

Lemma add_at (this : CSVEntry.t) header i v :
  array_indexOf (headers this) header = Z.of_nat i ->
  addable v = true ->
  add this header v
  = (Normal tt,
     {| headers := headers this;
        data := array_set (data this) i (merged (array_get (data this) i) v);
        data_minus1 := data_minus1 this |}).
Proof.
  intros Hi Ha. unfold add. unfold addable in Ha. apply negb_true_iff in Ha.
  rewrite Ha, indexOf_normal, Hi, data_get_nat. unfold merged.
  destruct (truthy (array_get (data this) i));
    [destruct (array_get (data this) i)|]; rewrite data_set_nat; reflexivity.
Qed.

Lemma add_all_array header i : forall (vs l : list value) (row : CSVEntry.t),
  array_indexOf (headers row) header = Z.of_nat i ->
  array_get (data row) i = VArr l ->
  Forall (fun x => addable x = true) vs ->
  array_get (data (add_all row header vs)) i = VArr (l ++ vs) /\
  headers (add_all row header vs) = headers row.
Proof.
  induction vs as [|v vs IH]; intros l row Hi Hl Ha.
  - rewrite app_nil_r. done.
  - apply Forall_cons in Ha as [Hv Ha]. unfold add_all. cbn [fold_left].
    rewrite (add_at row header i v Hi Hv). cbn [snd]. rewrite Hl.
    cbn [merged truthy].
    edestruct (IH (l ++ [v])) as [H1 H2]; [| |exact Ha|].
    3: { unfold add_all in H1, H2. rewrite H1, H2, <- app_assoc. done. }
    + exact Hi.
    + cbn [data]. apply array_get_set_same.
Qed.

(** X7.  Values added one after the other under one header collect in its
    cell: into an empty cell a truthy first value that is no array goes as
    it is, the second value makes the cell the array of the two, and every
    further value is pushed onto that array; get then returns the value, or
    the array of all the values in the order they were added. *)
Theorem add_collects (this : CSVEntry.t) (header : string) (i : nat)
    (v : value) (rest : list value) :
  array_indexOf (headers this) header = Z.of_nat i ->
  truthy (array_get (data this) i) = false ->
  truthy v = true -> isArray v = false -> addable v = true ->
  Forall (fun x => addable x = true) rest ->
  get (add_all this header (v :: rest)) header
  = Normal (match rest with [] => v | _ => VArr (v :: rest) end).
Proof.
  intros Hi Hold Tv Av Hv Ha. unfold add_all. cbn [fold_left].
  rewrite (add_at this header i v Hi Hv). cbn [snd].
  unfold merged at 1. rewrite Hold.
  destruct rest as [|w rest].
  - cbn [fold_left]. unfold get. rewrite indexOf_normal. cbn [headers bind].
    rewrite Hi, data_get_nat. cbn [data]. rewrite array_get_set_same. done.
  - apply Forall_cons in Ha as [Hw Ha]. cbn [fold_left].
    rewrite (add_at _ header i w) by done. cbn [snd headers data data_minus1].
    rewrite array_get_set_same. unfold merged. rewrite Tv.
    edestruct (add_all_array header i rest [v; w]
                 {| headers := headers this;
                    data := array_set (array_set (data this) i v) i
                              (match v with
                               | VArr xs => VArr (xs ++ [w])
                               | _ => VArr [v; w]
                               end);
                    data_minus1 := data_minus1 this |})
      as [H1 H2]; [exact Hi| |exact Ha|].
    + cbn [data]. rewrite array_get_set_same. destruct v; done.
    + unfold add_all in H1, H2. unfold get. rewrite indexOf_normal, H2.
      cbn [headers bind]. rewrite Hi, data_get_nat, H1. reflexivity.
Qed.

(** X7 at the entry with headers a and b: three values under b. *)
Lemma add_collects_witness :
  get (add_all empty_entry "b" [VStr "x"; VStr "y"; VNum 0]) "b"
  = Normal (VArr [VStr "x"; VStr "y"; VNum 0]).
Proof.
  apply (add_collects empty_entry "b" 1 (VStr "x") [VStr "y"; VNum 0]);
    try reflexivity.
  repeat constructor.
Defined.

Lemma indexOf_from_absent (hs : list value) key : forall i,
  array_includes hs key = false -> indexOf_from hs key i = (-1)%Z.
Proof.
  unfold array_includes.
  induction hs as [|h hs IH]; intros i H; [reflexivity|].
  simpl in *. apply orb_false_iff in H as [-> H]. apply IH, H.
Qed.

(** X8.  add under a name that is no header does not throw, whatever
    indexOf promises: for a value that is no object other than an array it
    returns, and it leaves the headers, the cells and the rows the entry
    expands to as they were. *)
Theorem add_unknown_header (this : CSVEntry.t) (header : string) (v : value) :
  array_includes (headers this) header = false ->
  addable v = true ->
  fst (add this header v) = Normal tt /\
  headers (snd (add this header v)) = headers this /\
  data (snd (add this header v)) = data this /\
  getOutputRows (snd (add this header v)) = getOutputRows this.
Proof.
  intros Hin Ha. unfold add. unfold addable in Ha. apply negb_true_iff in Ha.
  rewrite Ha, indexOf_normal. unfold array_indexOf.
  rewrite indexOf_from_absent by done. cbn [data_get].
  destruct (truthy (data_minus1 this)); [destruct (data_minus1 this)|]; done.
Qed.

(** X8 at the sample entry and the name z. *)
Lemma add_unknown_header_witness :
  fst (add sample_entry "z" (VStr "lost")) = Normal tt /\
  headers (snd (add sample_entry "z" (VStr "lost"))) = headers sample_entry /\
  data (snd (add sample_entry "z" (VStr "lost"))) = data sample_entry /\
  getOutputRows (snd (add sample_entry "z" (VStr "lost")))
  = getOutputRows sample_entry.
Proof.
  apply (add_unknown_header sample_entry "z" (VStr "lost")); reflexivity.
Defined.

End Cells.

(** ** sanitise and isEmptyString *)

Section Text.

Import candiutil.

Lemma ends_with_space_snoc (u : wide.text) d :
  Platform.ends_with_space (u ++ [d]) = wide.is_space d.
Proof.
  induction u as [|c u IH]; [reflexivity|].
  simpl. rewrite IH. destruct (u ++ [d]) eqn:E; [|reflexivity].
  destruct u; discriminate.
Qed.

Lemma trim_start_head (s : wide.text) :
  Platform.starts_with_space (wide.trim_start s) = false.
Proof.
  induction s as [|c s IH]; [reflexivity|]. simpl.
  destruct (wide.is_space c) eqn:E; [exact IH|]. simpl. exact E.
Qed.

Lemma trim_end_last (s : wide.text) :
  wide.trim_end s = [] \/
  exists u d, wide.trim_end s = u ++ [d] /\ wide.is_space d = false.
Proof.
  induction s as [|c s IH]; [left; reflexivity|]. simpl.
  destruct (wide.trim_end s) as [|e t] eqn:E.
  - destruct (wide.is_space c) eqn:Ec; [left; reflexivity|].
    right. exists [], c. split; [reflexivity|exact Ec].
  - right. destruct IH as [IH|[u [d [IH Hd]]]]; [discriminate|].
    exists (c :: u), d. rewrite IH. split; [reflexivity|exact Hd].
Qed.

Lemma trim_end_head (s : wide.text) :
  Platform.starts_with_space s = false -> Platform.starts_with_space (wide.trim_end s) = false.
Proof.
  destruct s as [|c s]; [reflexivity|]. simpl. intros Hc.
  destruct (wide.trim_end s); [rewrite Hc|]; simpl; done.
Qed.

Lemma collapse_go_run_head (s : wide.text) :
  Platform.starts_with_space (wide.collapse_go s wide.Run) = false.
Proof.
  induction s as [|c s IH]; [reflexivity|]. simpl.
  destruct (wide.is_space c) eqn:E; [exact IH|]. simpl. exact E.
Qed.

Lemma no_double_space_cons c (s : wide.text) :
  Platform.no_double_space (c :: s)
  = negb (wide.is_space c && Platform.starts_with_space s) && Platform.no_double_space s.
Proof. destruct s; simpl; [rewrite andb_false_r|]; reflexivity. Qed.

Lemma collapse_go_no_double (s : wide.text) : forall st,
  Platform.no_double_space (wide.collapse_go s st) = true.
Proof.
  induction s as [|c s IH]; intros st; simpl.
  - destruct st; reflexivity.
  - destruct (wide.is_space c) eqn:E.
    + destruct st; [apply IH| |apply IH].
      rewrite no_double_space_cons, collapse_go_run_head, andb_false_r. simpl.
      apply IH.
    + destruct st; rewrite !no_double_space_cons; simpl; rewrite ?E, ?IH,
        ?andb_false_r; reflexivity.
Qed.

Lemma collapse_go_snoc (u : wide.text) d : forall st,
  wide.is_space d = false ->
  exists v, wide.collapse_go (u ++ [d]) st = v ++ [d].
Proof.
  induction u as [|c u IH]; intros st Hd.
  - simpl. rewrite Hd.
    destruct st; [exists []|exists [w]|exists []]; reflexivity.
  - simpl. destruct (wide.is_space c).
    + destruct st.
      * apply IH, Hd.
      * destruct (IH wide.Run Hd) as [v ->]. exists (32%N :: v). reflexivity.
      * apply IH, Hd.
    + destruct (IH wide.Outside Hd) as [v ->].
      destruct st;
        [exists (c :: v)|exists (w :: c :: v)|exists (c :: v)];
        reflexivity.
Qed.

Lemma collapse_head (s : wide.text) :
  Platform.starts_with_space s = false -> Platform.starts_with_space (wide.collapse s) = false.
Proof.
  destruct s as [|c s]; [reflexivity|]. unfold wide.collapse. simpl.
  intros Hc. rewrite Hc. simpl. exact Hc.
Qed.

Lemma strip_collapse_tidy (s : wide.text) :
  Platform.tidy (wide.collapse (wide.strip_ends s)) = true.
Proof.
  unfold Platform.tidy, wide.strip_ends.
  rewrite collapse_head by apply trim_end_head, trim_start_head.
  unfold wide.collapse at 2. rewrite collapse_go_no_double.
  destruct (trim_end_last (wide.trim_start s)) as [->|[u [d [-> Hd]]]];
    [reflexivity|].
  unfold wide.collapse. destruct (collapse_go_snoc u d wide.Outside Hd) as [v ->].
  rewrite ends_with_space_snoc, Hd. reflexivity.
Qed.

Lemma wide_sanitise_is_tidy (s : wide.text) : Platform.tidy (wide.sanitise s) = true.
Proof. apply strip_collapse_tidy. Qed.

Lemma trim_start_tidy (s : wide.text) :
  Platform.starts_with_space s = false -> wide.trim_start s = s.
Proof. destruct s as [|c s]; [reflexivity|]. simpl. intros ->. reflexivity. Qed.

Lemma trim_end_tidy (s : wide.text) :
  Platform.ends_with_space s = false -> wide.trim_end s = s.
Proof.
  induction s as [|c s IH]; [reflexivity|]. simpl.
  destruct s as [|d s].
  - simpl. intros ->. reflexivity.
  - intros H. rewrite IH by exact H. reflexivity.
Qed.

Lemma collapse_go_tidy (s : wide.text) :
  Platform.no_double_space s = true -> Platform.ends_with_space s = false ->
  wide.collapse_go s wide.Outside = s /\
  (forall w, wide.is_space w = true -> Platform.starts_with_space s = false ->
     s <> [] -> wide.collapse_go s (wide.One w) = w :: s).
Proof.
  induction s as [|c s IH]; intros Hn He.
  - split; [reflexivity|]. intros w _ _ []. reflexivity.
  - rewrite no_double_space_cons in Hn. apply andb_prop in Hn as [Hc Hn].
    assert (He' : s <> [] -> Platform.ends_with_space s = false).
    { intros Hs. destruct s; [done|exact He]. }
    simpl. destruct (wide.is_space c) eqn:E.
    + simpl in Hc. apply negb_true_iff in Hc.
      split; [|intros w _ Hc'; discriminate].
      destruct s as [|d s]; [simpl in He; rewrite E in He; discriminate|].
      destruct (IH Hn (He' ltac:(done))) as [_ IH2].
      apply IH2; [exact E|exact Hc|done].
    + assert (IH1 : wide.collapse_go s wide.Outside = s).
      { destruct s as [|d s]; [reflexivity|].
        apply IH; [exact Hn|apply He'; done]. }
      rewrite IH1. split; [reflexivity|]. intros w _ _ _. reflexivity.
Qed.

Lemma strip_collapse_fixes_tidy (s : wide.text) :
  Platform.tidy s = true -> wide.collapse (wide.strip_ends s) = s.
Proof.
  unfold Platform.tidy. intros H. apply andb_prop in H as [H Hn].
  apply andb_prop in H as [Hs He].
  apply negb_true_iff in Hs, He.
  unfold wide.strip_ends, wide.collapse.
  rewrite trim_start_tidy, trim_end_tidy by done.
  apply collapse_go_tidy; done.
Qed.

Lemma visible_trim_start (s : wide.text) :
  Platform.visible (wide.trim_start s) = Platform.visible s.
Proof.
  unfold Platform.visible. induction s as [|c s IH]; [reflexivity|]. simpl.
  destruct (wide.is_space c) eqn:E; [exact IH|]. simpl. rewrite E. reflexivity.
Qed.

Lemma visible_trim_end (s : wide.text) : Platform.visible (wide.trim_end s) = Platform.visible s.
Proof.
  unfold Platform.visible. induction s as [|c s IH]; [reflexivity|]. simpl.
  destruct (wide.trim_end s) as [|d t] eqn:Et.
  - simpl in IH. rewrite <- IH. destruct (wide.is_space c) eqn:E; simpl;
      rewrite ?E; reflexivity.
  - rewrite <- IH. simpl. reflexivity.
Qed.

Lemma visible_collapse_go (s : wide.text) : forall st,
  match st with wide.One w => wide.is_space w = true | _ => True end ->
  Platform.visible (wide.collapse_go s st) = Platform.visible s.
Proof.
  unfold Platform.visible. induction s as [|c s IH]; intros st Hst; simpl.
  - destruct st; [reflexivity| |reflexivity]. simpl. rewrite Hst. reflexivity.
  - destruct (wide.is_space c) eqn:E.
    + destruct st; simpl; rewrite ?IH; done.
    + destruct st; simpl; rewrite ?Hst, ?E, IH; done.
Qed.

Lemma visible_strip_collapse (s : wide.text) :
  Platform.visible (wide.collapse (wide.strip_ends s)) = Platform.visible s.
Proof.
  unfold wide.strip_ends, wide.collapse.
  rewrite visible_collapse_go by done.
  rewrite visible_trim_end. apply visible_trim_start.
Qed.

(** the loop over the disallowed characters *)
Lemma remove_disallowed (s : wide.text) :
  fold_left (fun str remove => wide.remove_unit remove str) wide.disallowed s
  = List.filter (fun u => negb (Platform.is_disallowed u)) s.
Proof.
  simpl. unfold wide.remove_unit. apply filter_ext. intros u.
  unfold Platform.is_disallowed. simpl. rewrite orb_false_r. reflexivity.
Qed.

Lemma filter_filter_comm {A} (f g : A -> bool) (l : list A) :
  List.filter f (List.filter g l) = List.filter g (List.filter f l).
Proof.
  induction l as [|x l IH]; [reflexivity|]. simpl.
  destruct (g x) eqn:Eg, (f x) eqn:Ef; simpl; rewrite ?Eg, ?Ef, IH; reflexivity.
Qed.

Lemma filter_all {A} (f : A -> bool) (l : list A) :
  forallb f l = true -> List.filter f l = l.
Proof.
  induction l as [|x l IH]; [reflexivity|]. simpl. intros H.
  apply andb_prop in H as [-> H]. rewrite IH by exact H. reflexivity.
Qed.

Lemma visible_sanitise (s : wide.text) : Platform.visible (wide.sanitise s) = Platform.kept s.
Proof.
  unfold wide.sanitise. cbv zeta. rewrite visible_strip_collapse.
  rewrite remove_disallowed. unfold Platform.kept, Platform.visible. apply filter_filter_comm.
Qed.

Lemma disallowed_no_space u : Platform.is_disallowed u = true -> wide.is_space u = false.
Proof.
  unfold Platform.is_disallowed. simpl. rewrite orb_false_r.
  intros H. apply N.eqb_eq in H as ->. reflexivity.
Qed.

(** what sanitise returns holds no disallowed character *)
Lemma sanitise_clean (s : wide.text) :
  forallb (fun u => negb (Platform.is_disallowed u)) (wide.sanitise s) = true.
Proof.
  apply forallb_forall. intros u Hin.
  destruct (Platform.is_disallowed u) eqn:E; [|reflexivity]. exfalso.
  assert (Hv : In u (Platform.visible (wide.sanitise s))).
  { unfold Platform.visible. apply filter_In. split; [exact Hin|].
    rewrite (disallowed_no_space u E). reflexivity. }
  rewrite visible_sanitise in Hv. unfold Platform.kept in Hv.
  apply filter_In in Hv as [_ Hv]. rewrite E in Hv. discriminate.
Qed.

Lemma isEmptyString_visible (s : wide.text) :
  wide.isEmptyString s = match Platform.visible s with [] => true | _ => false end.
Proof.
  assert (H : forallb wide.is_space s
              = match Platform.visible s with [] => true | _ => false end).
  { unfold Platform.visible. induction s as [|c s IH]; [reflexivity|]. simpl.
    destruct (wide.is_space c); [exact IH|reflexivity]. }
  destruct s as [|c s]; [reflexivity|]. exact H.
Qed.

Lemma kept_nil (s : wide.text) :
  match Platform.kept s with [] => true | _ => false end
  = forallb (fun u => wide.is_space u || Platform.is_disallowed u) s.
Proof.
  unfold Platform.kept, Platform.visible. induction s as [|c s IH]; [reflexivity|]. simpl.
  destruct (wide.is_space c); simpl; [exact IH|].
  destruct (Platform.is_disallowed c); simpl; [exact IH|reflexivity].
Qed.

(** the strings of the model among the strings of the platform *)
Lemma is_space_units c : wide.is_space (N_of_ascii c) = is_space c.
Proof. destruct c as [[] [] [] [] [] [] [] []]; reflexivity. Qed.

Lemma units_allowed (s : string) :
  forallb (fun u => negb (Platform.is_disallowed u)) (wide.units s) = true.
Proof.
  induction s as [|c s IH]; [reflexivity|]. simpl. rewrite IH, andb_true_r.
  destruct c as [[] [] [] [] [] [] [] []]; reflexivity.
Qed.

Lemma trim_start_units (s : string) :
  wide.trim_start (wide.units s) = wide.units (trim_start s).
Proof.
  induction s as [|c s IH]; [reflexivity|]. simpl. rewrite is_space_units.
  destruct (is_space c); [exact IH|reflexivity].
Qed.

Lemma trim_end_units (s : string) :
  wide.trim_end (wide.units s) = wide.units (trim_end s).
Proof.
  induction s as [|c s IH]; [reflexivity|]. simpl. rewrite IH, is_space_units.
  destruct (trim_end s); simpl; [destruct (is_space c)|]; reflexivity.
Qed.

Lemma collapse_go_units (s : string) : forall st,
  wide.collapse_go (wide.units s)
    match st with
    | Outside => wide.Outside
    | One w => wide.One (N_of_ascii w)
    | Run => wide.Run
    end
  = wide.units (collapse_go s st).
Proof.
  induction s as [|c s IH]; intros st; simpl.
  - destruct st; reflexivity.
  - rewrite is_space_units. destruct (is_space c).
    + destruct st; simpl; [apply (IH (One c))|rewrite (IH Run); reflexivity
                          |apply (IH Run)].
    + destruct st; simpl; rewrite (IH Outside); reflexivity.
Qed.

Lemma sanitise_units (s : string) :
  wide.sanitise (wide.units s) = wide.units (sanitise s).
Proof.
  unfold wide.sanitise, sanitise. cbv zeta.
  rewrite remove_disallowed, filter_all by apply units_allowed.
  unfold wide.strip_ends, strip_ends, wide.collapse, collapse.
  rewrite trim_start_units, trim_end_units. apply (collapse_go_units _ Outside).
Qed.

Lemma tidy_units (s : string) : Platform.tidy (wide.units s) = tidy s.
Proof.
  unfold Platform.tidy, tidy. f_equal; [f_equal; f_equal|].
  - destruct s as [|c s]; [reflexivity|]. apply is_space_units.
  - induction s as [|c s IH]; [reflexivity|]. simpl. rewrite IH.
    destruct s; [apply is_space_units|reflexivity].
  - induction s as [|c s IH]; [reflexivity|]. simpl. rewrite IH.
    destruct s as [|d s]; [reflexivity|]. simpl. rewrite !is_space_units.
    reflexivity.
Qed.

Lemma sanitise_is_tidy (s : string) : tidy (sanitise s) = true.
Proof.
  rewrite <- tidy_units, <- sanitise_units. apply wide_sanitise_is_tidy.
Qed.

Lemma isEmptyString_truthy (v : value) :
  truthy (isEmptyString v)
  = match v with VStr s => all_space s | _ => true end.
Proof.
  unfold isEmptyString. destruct v as [| |b|n|s|xs|ps]; try reflexivity.
  - destruct b; reflexivity.
  - simpl. destruct (n =? 0)%Z; reflexivity.
  - destruct s as [|c s]; [reflexivity|]. cbn [truthy negb].
    destruct (all_space (String c s)); reflexivity.
Qed.

Lemma isEmptyString_units (s : string) :
  wide.isEmptyString (wide.units s) = truthy (isEmptyString (VStr s)).
Proof.
  rewrite isEmptyString_truthy.
  assert (H : forallb wide.is_space (wide.units s) = all_space s).
  { induction s as [|c s IH]; [reflexivity|]. simpl.
    rewrite is_space_units, IH. reflexivity. }
  destruct s as [|c s]; [reflexivity|]. exact H.
Qed.

(** X9.  What sanitise returns has no whitespace at either end and no two
    whitespace characters in a row, and it has the characters of the input
    that are neither whitespace nor disallowed, all of them and in their
    order.  On a string of code units below 256 it is the sanitise of the
    model. *)
Theorem sanitise_tidy_visible (str : wide.text) :
  Platform.tidy (wide.sanitise str) = true /\
  Platform.visible (wide.sanitise str) = Platform.kept str /\
  (forall s : string, wide.sanitise (wide.units s) = wide.units (sanitise s)).
Proof.
  split; [apply wide_sanitise_is_tidy|]. split; [apply visible_sanitise|].
  apply sanitise_units.
Qed.

(** X10.  sanitise leaves a string as it is exactly when the string has no
    whitespace at either end, no two whitespace characters in a row and no
    disallowed character; so sanitising twice is sanitising once. *)
Theorem sanitise_fixed_points (str : wide.text) :
  (wide.sanitise str = str <->
   Platform.tidy str = true /\
   forallb (fun u => negb (Platform.is_disallowed u)) str = true) /\
  wide.sanitise (wide.sanitise str) = wide.sanitise str.
Proof.
  assert (Hfix : forall t : wide.text,
            Platform.tidy t = true ->
            forallb (fun u => negb (Platform.is_disallowed u)) t = true ->
            wide.sanitise t = t).
  { intros t Ht Hc. unfold wide.sanitise. cbv zeta.
    rewrite remove_disallowed, filter_all by exact Hc.
    apply strip_collapse_fixes_tidy, Ht. }
  split; [split|].
  - intros E. rewrite <- E. split; [apply wide_sanitise_is_tidy|apply sanitise_clean].
  - intros [Ht Hc]. apply Hfix; done.
  - apply Hfix; [apply wide_sanitise_is_tidy|apply sanitise_clean].
Qed.

(** The disallowed character goes, with the whitespace it leaves behind. *)
Example sanitise_sample :
  wide.sanitise [97; 32; 9635; 32; 98]%N = [97; 32; 98]%N /\
  wide.sanitise [9635]%N = [] /\
  wide.isEmptyString (wide.sanitise [9635]%N) = true /\
  wide.sanitise [12288; 97; 9; 98; 65279]%N = [97; 9; 98]%N.
Proof. repeat split; reflexivity. Qed.

(** X11.  isEmptyString gives a truthy result for every value that is no
    string and for a string of whitespace only, and a falsy one for a
    string with another character; the result is true, the array of a
    match or null, and never the boolean false. *)
Theorem isEmptyString_verdict (v : value) :
  truthy (isEmptyString v)
  = match v with VStr s => all_space s | _ => true end /\
  (isEmptyString v = VBool true \/
   isEmptyString v = VNull \/
   exists s, v = VStr s /\ isEmptyString v = VArr [VStr s]).
Proof.
  split; [apply isEmptyString_truthy|].
  unfold isEmptyString. destruct (truthy v) eqn:T; cbn [negb]; [|tauto].
  destruct v as [| |b|n|s|xs|ps]; try tauto.
  destruct (all_space s); [|tauto]. right. right. eauto.
Qed.

(** X12.  After sanitise, isEmptyString is truthy exactly for the strings
    that held nothing but whitespace and disallowed characters; for a
    string of the model, those of whitespace only. *)
Theorem isEmptyString_after_sanitise (str : wide.text) :
  wide.isEmptyString (wide.sanitise str)
  = forallb (fun u => wide.is_space u || Platform.is_disallowed u) str /\
  (forall s : string,
     wide.isEmptyString (wide.units s) = truthy (isEmptyString (VStr s)) /\
     truthy (isEmptyString (VStr (sanitise s))) = all_space s).
Proof.
  split.
  - rewrite isEmptyString_visible, visible_sanitise. apply kept_nil.
  - intros s. split; [apply isEmptyString_units|].
    rewrite <- isEmptyString_units, <- sanitise_units.
    rewrite isEmptyString_visible, visible_sanitise, kept_nil.
    induction s as [|c s IH]; [reflexivity|]. simpl.
    rewrite is_space_units, IH.
    assert (Hc : Platform.is_disallowed (N_of_ascii c) = false)
      by (destruct c as [[] [] [] [] [] [] [] []]; reflexivity).
    rewrite Hc, orb_false_r. reflexivity.
Qed.

End Text.

(** ** arrayToString *)

Section Joining.

Import candiutil.

Lemma join_cons sep x (l : list string) :
  l <> [] -> join sep (x :: l) = (x ++ sep ++ join sep l)%string.
Proof. destruct l; [done|reflexivity]. Qed.

(** Joining the pieces of a split by the separator gives back what was
    split: [p] is what is left to pass of a separator just found. *)
Lemma join_split_go sep (s : string) : forall cur skip (p rest : string),
  sep <> EmptyString ->
  s = (p ++ rest)%string -> String.length p = skip ->
  join sep (split_go sep s cur skip) = (cur ++ rest)%string.
Proof.
  induction s as [|c s IH]; intros cur skip p rest Hsep Hs Hp.
  - destruct p; [|discriminate]. rewrite append_nil_l in Hs. subst rest.
    rewrite append_nil_r. reflexivity.
  - cbn [split_go]. destruct skip as [|n].
    + destruct p; [|discriminate]. rewrite append_nil_l in Hs. subst rest.
      destruct (strip_prefix sep (String c s)) as [after|] eqn:E.
      * apply strip_prefix_append in E.
        destruct sep as [|a sep']; [done|]. rewrite append_cons in E.
        injection E as <- Hs'.
        rewrite join_cons by apply split_go_nonempty.
        rewrite (IH EmptyString _ sep' after Hsep Hs')
          by (simpl; lia).
        rewrite append_nil_l, Hs', <- append_cons. reflexivity.
      * rewrite (IH _ 0 EmptyString s Hsep) by (rewrite ?append_nil_l; done).
        rewrite append_assoc, append_cons, append_nil_l. reflexivity.
    + destruct p as [|d p]; [discriminate|]. rewrite append_cons in Hs.
      injection Hs as -> Hs. simpl in Hp. injection Hp as Hp.
      apply (IH cur n p rest Hsep Hs Hp).
Qed.

Lemma join_split_literal sep (s : string) :
  sep <> EmptyString -> join sep (split_literal sep s) = s.
Proof.
  intros Hsep. unfold split_literal.
  rewrite (join_split_go sep s EmptyString 0 EmptyString s Hsep)
    by (rewrite ?append_nil_l; done).
  apply append_nil_l.
Qed.

(** X13.  arrayToString undoes a split: for a separator that is not empty,
    the pieces a string splits into at the separator, joined by
    arrayToString with the same separator, are the string again. *)
Theorem arrayToString_undoes_split (separator str : string) :
  separator <> EmptyString ->
  arrayToString (VArr (VStr <$> split_literal separator str)) separator
  = VStr str.
Proof.
  intros Hsep. unfold arrayToString. cbn [truthy negb]. f_equal.
  rewrite <- (join_split_literal separator str Hsep) at 2. f_equal.
  induction (split_literal separator str) as [|x l IH]; [reflexivity|].
  csimpl. rewrite IH. reflexivity.
Qed.

(** X13 at the default separator. *)
Lemma arrayToString_undoes_split_witness :
  split_literal ", " "red, green, blue" = ["red"; "green"; "blue"]%string /\
  arrayToString (VArr [VStr "red"; VStr "green"; VStr "blue"]) ", "
  = VStr "red, green, blue".
Proof.
  split; [reflexivity|].
  apply (arrayToString_undoes_split ", " "red, green, blue"). discriminate.
Defined.

End Joining.

(** ** rearrangeObj *)

Section Records.

Import candiutil.

Lemma assoc_none_keys (o : props) key : assoc o key = None <-> key ∉ o.*1.
Proof.
  induction o as [|[k w] o IH]; csimpl.
  - split; [intros _; apply not_elem_of_nil|done].
  - rewrite not_elem_of_cons. destruct (String.eqb_spec k key) as [->|Hne].
    + split; [discriminate|]. intros [? _]. done.
    + rewrite IH. split; [intros ?; split; [congruence|done]|intros [_ ?]; done].
Qed.

Lemma named_key_spec key :
  named_key key = true ->
  key <> "__proto__"%string /\ array_index key = None.
Proof.
  unfold named_key. intros H. apply andb_prop in H as [Hp Hi].
  apply negb_true_iff in Hp. split.
  - intros ->. discriminate.
  - destruct (array_index key); [discriminate|reflexivity].
Qed.

Lemma not_inherited_proto key :
  inherited key = false -> key <> "__proto__"%string.
Proof. intros H ->. discriminate. Qed.

(** a key created after the others *)
Lemma store_fresh (o : props) key v :
  key ∉ o.*1 -> named_key key = true -> store o key v = o ++ [(key, v)].
Proof.
  intros Hk Hn. apply named_key_spec in Hn as [Hp Hi].
  apply assoc_none_keys in Hk. unfold store, has_own, create.
  rewrite Hk, Hi. destruct (String.eqb_spec key "__proto__"); done.
Qed.

Lemma insert_index_keys (o : props) n key v :
  (insert_index o n key v).*1 ≡ₚ key :: o.*1.
Proof.
  induction o as [|[k w] o IH]; [reflexivity|]. cbn [insert_index].
  destruct (array_index k) as [m|]; [destruct (m <? n)%N|]; try reflexivity.
  csimpl. rewrite IH. apply perm_swap.
Qed.

Lemma store_keys (o : props) key v :
  key ∉ o.*1 -> key <> "__proto__"%string ->
  (store o key v).*1 ≡ₚ o.*1 ++ [key].
Proof.
  intros Hk Hp. apply assoc_none_keys in Hk. unfold store, has_own, create.
  rewrite Hk. destruct (String.eqb_spec key "__proto__"); [done|].
  destruct (array_index key).
  - rewrite insert_index_keys. apply Permutation_cons_append.
  - rewrite fmap_app. reflexivity.
Qed.

(** the loop of rearrangeObj, from any record *)
Lemma rearrange_keys_fold (obj : props) (keys : list string) : forall o : props,
  Forall (fun key => inherited key = false) keys ->
  rearrange_keys obj keys o
  = Some (fold_left (fun objOut key => store objOut key (read_prop obj key))
            keys o).
Proof.
  induction keys as [|key keys IH]; intros o Hk; [reflexivity|].
  apply Forall_cons in Hk as [Hkey Hk]. cbn [rearrange_keys fold_left].
  assert (Hr : read obj key = Some (read_prop obj key)).
  { unfold read, read_prop. destruct (assoc obj key); [reflexivity|].
    rewrite Hkey. reflexivity. }
  rewrite Hr, assign_named by (apply not_inherited_proto, Hkey).
  apply IH, Hk.
Qed.

Lemma fold_store_fresh (f : string -> value) (keys : list string) :
  forall o : props,
  NoDup keys -> Forall (fun key => named_key key = true) keys ->
  (forall k, k ∈ keys -> k ∉ o.*1) ->
  fold_left (fun objOut key => store objOut key (f key)) keys o
  = o ++ ((fun key => (key, f key)) <$> keys).
Proof.
  induction keys as [|key keys IH]; intros o Hn Hk Hd.
  - csimpl. rewrite app_nil_r. reflexivity.
  - apply NoDup_cons in Hn as [Hkey Hn]. apply Forall_cons in Hk as [Hnk Hk].
    cbn [fold_left]. rewrite store_fresh by (done || apply Hd; left).
    rewrite IH; [csimpl; rewrite <- app_assoc; reflexivity|exact Hn|exact Hk|].
    intros k Hin. rewrite fmap_app, elem_of_app. csimpl.
    rewrite list_elem_of_singleton. intros [H| ->]; [|done].
    revert H. apply Hd. right. exact Hin.
Qed.

Lemma fold_store_keys (f : string -> value) (keys : list string) :
  forall o : props,
  NoDup keys -> Forall (fun key => key <> "__proto__"%string) keys ->
  (forall k, k ∈ keys -> k ∉ o.*1) ->
  (fold_left (fun objOut key => store objOut key (f key)) keys o).*1
  ≡ₚ o.*1 ++ keys.
Proof.
  induction keys as [|key keys IH]; intros o Hn Hk Hd.
  - csimpl. rewrite app_nil_r. reflexivity.
  - apply NoDup_cons in Hn as [Hkey Hn]. apply Forall_cons in Hk as [Hp Hk].
    cbn [fold_left].
    pose proof (store_keys o key (f key) (Hd key ltac:(left)) Hp) as Hs.
    rewrite IH; [rewrite Hs, <- app_assoc; reflexivity|exact Hn|exact Hk|].
    intros k Hin. rewrite Hs, elem_of_app, list_elem_of_singleton.
    intros [H| ->]; [|done]. revert H. apply Hd. right. exact Hin.
Qed.

Lemma fold_store_lookup (f : string -> value) (keys : list string) k :
  forall o : props,
  Forall (fun key => key <> "__proto__"%string) keys ->
  assoc (fold_left (fun objOut key => store objOut key (f key)) keys o) k
  = if decide (k ∈ keys) then Some (f k) else assoc o k.
Proof.
  induction keys as [|key keys IH]; intros o Hk.
  - rewrite decide_False by apply not_elem_of_nil. reflexivity.
  - apply Forall_cons in Hk as [Hp Hk]. cbn [fold_left]. rewrite IH by exact Hk.
    destruct (decide (k ∈ keys)) as [Hin|Hin].
    + rewrite decide_True by (right; done). reflexivity.
    + destruct (decide (key = k)) as [->|Hne].
      * rewrite decide_True by left. apply assoc_store_eq. intros _. exact Hp.
      * rewrite decide_False by (intros [?|?]%elem_of_cons; congruence).
        apply assoc_store_ne, Hne.
Qed.

Lemma rearrangeObj_returns (obj : props) (arrangement : list string) :
  Forall (fun key => inherited key = false) arrangement ->
  exists objOut,
    rearrangeObj obj arrangement = Some objOut /\
    (forall key,
       assoc objOut key
       = if decide (key ∈ arrangement) then Some (read_prop obj key)
         else None) /\
    (NoDup arrangement -> objOut.*1 ≡ₚ arrangement) /\
    (NoDup arrangement ->
     Forall (fun key => array_index key = None) arrangement ->
     objOut = picked obj arrangement).
Proof.
  intros Hk. eexists. split; [apply rearrange_keys_fold, Hk|].
  assert (Hp : Forall (fun key => key <> "__proto__"%string) arrangement).
  { eapply Forall_impl; [exact Hk|]. apply not_inherited_proto. }
  split; [|split].
  - intros key. rewrite fold_store_lookup by exact Hp. reflexivity.
  - intros Hn. rewrite fold_store_keys;
      [reflexivity|exact Hn|exact Hp|intros; apply not_elem_of_nil].
  - intros Hn Hi. rewrite fold_store_fresh;
      [reflexivity|exact Hn| |intros; apply not_elem_of_nil].
    apply Forall_forall. intros key Hin. rewrite Forall_forall in Hp, Hi.
    unfold named_key. rewrite (Hi key Hin).
    destruct (String.eqb_spec key "__proto__") as [E|_]; [|reflexivity].
    destruct (Hp key Hin E).
Qed.

(** X14.  For an arrangement in which no key names a member of
    Object.prototype, rearrangeObj returns a record that holds, under
    every key of the arrangement, what the object holds under it,
    undefined for a key the object lacks, and nothing under any other key;
    when no key is listed twice its keys are those of the arrangement, and
    when none is an array index either they come in the order of the
    arrangement. *)
Theorem rearrangeObj_exact (obj : props) (arrangement : list string) :
  Forall (fun key => inherited key = false) arrangement ->
  exists objOut,
    rearrangeObj obj arrangement = Some objOut /\
    (forall key,
       assoc objOut key
       = if decide (key ∈ arrangement) then Some (read_prop obj key)
         else None) /\
    (NoDup arrangement -> objOut.*1 ≡ₚ arrangement) /\
    (NoDup arrangement ->
     Forall (fun key => array_index key = None) arrangement ->
     objOut = picked obj arrangement).
Proof. apply rearrangeObj_returns. Qed.

(** X14 at an object with the keys a and b, rearranged by b and c, and at
    an object rearranged by name, 2020 and price, which lists the array
    index first. *)
Lemma rearrangeObj_exact_witness :
  rearrangeObj [("a", VNum 1); ("b", VNum 2)]%string ["b"; "c"]%string
  = Some [("b", VNum 2); ("c", VUndefined)]%string /\
  rearrangeObj [("2020", VNum 5); ("name", VStr "tea")]%string
    ["name"; "2020"; "price"]%string
  = Some [("2020", VNum 5); ("name", VStr "tea"); ("price", VUndefined)]%string.
Proof.
  destruct (rearrangeObj_exact [("a", VNum 1); ("b", VNum 2)]%string
              ["b"; "c"]%string) as [objOut [Hout [_ [_ Hexact]]]];
    [repeat constructor|].
  split; [|reflexivity].
  rewrite Hout. f_equal. apply Hexact; [|repeat constructor].
  apply NoDup_ListNoDup. repeat constructor; simpl; intuition discriminate.
Defined.

(** X15.  A record rearranged by the headers of a document is one addObject
    takes, whatever keys it had and in whatever order: when the headers
    are distinct strings, none of them the name of a member of
    Object.prototype, and what the record holds under each of them is no
    object other than an array, addObject appends the entry of those
    values in the order of the headers. *)
Theorem rearrangeObj_then_addObject (this : CSV.t) (hs : list string)
    (obj : props) :
  CSV.headers this = VStr <$> hs -> NoDup hs ->
  Forall (fun h => inherited h = false) hs ->
  Forall (fun h => addable (read_prop obj h) = true) hs ->
  exists objOut,
    rearrangeObj obj hs = Some objOut /\
    CSV.addObject this (VObj objOut)
    = (Normal tt,
       CSV.push_entry this
         (CSV.Instance (entry_of (CSV.headers this) (read_prop obj <$> hs)))).
Proof.
  intros Hh Hn Hk Ha.
  destruct (rearrangeObj_returns obj hs Hk) as [objOut [Hout [Hl [Hp _]]]].
  exists objOut. split; [exact Hout|].
  assert (Hv : values_under (VObj objOut) hs = read_prop obj <$> hs).
  { unfold values_under. apply list_fmap_ext. intros i k Hi. simpl.
    rewrite Hl, decide_True by (eapply list_elem_of_lookup_2, Hi).
    reflexivity. }
  rewrite (addObject_fills this hs objOut Hh Hn (Hp Hn)).
  - rewrite Hv. reflexivity.
  - apply Forall_forall. intros [k v] Hin. simpl.
    assert (Hkey : k ∈ hs).
    { rewrite <- (Hp Hn). apply list_elem_of_fmap. exists (k, v). done. }
    assert (Hassoc : is_Some (assoc objOut k)).
    { rewrite Hl, decide_True by exact Hkey. eauto. }
    rewrite Forall_forall in Ha. specialize (Ha k Hkey).
    assert (Hval : assoc objOut k = Some v).
    { apply assoc_NoDup; [|exact Hin]. rewrite (Hp Hn). exact Hn. }
    rewrite Hl, decide_True in Hval by exact Hkey. congruence.
Qed.

(** X15 at the sample document and a record with a key too many and the
    others the wrong way round. *)
Lemma rearrangeObj_then_addObject_witness :
  exists objOut,
    rearrangeObj [("b", VStr "y"); ("note", VObj []); ("a", VStr "x")]%string
      ["a"; "b"]%string
    = Some objOut /\
    CSV.addObject sample_document (VObj objOut)
    = (Normal tt, sample_document_filled).
Proof.
  apply (rearrangeObj_then_addObject sample_document ["a"; "b"]%string
           [("b", VStr "y"); ("note", VObj []); ("a", VStr "x")]%string).
  - reflexivity.
  - apply NoDup_ListNoDup. repeat constructor; simpl; intuition discriminate.
  - repeat constructor.
  - repeat constructor.
Defined.

End Records.

(** ** arrayToObjArr *)

Section Tables.

Import candiutil.

Lemma assign_cell_fresh (obj : props) (accessor : bool) key col :
  key ∉ obj.*1 -> named_key key = true ->
  assign_cell (obj, accessor) key col = (obj ++ [(key, col)], accessor).
Proof.
  intros Hk Hn. apply named_key_spec in Hn as [Hp Hi].
  apply assoc_none_keys in Hk. unfold assign_cell, has_own, create.
  rewrite Hk, Hi. destruct (String.eqb_spec key "__proto__"); done.
Qed.

Lemma assign_row_strings (hs : list string) :
  forall (row : list value) y (obj : props) (accessor : bool),
  NoDup hs -> Forall (fun h => named_key h = true) hs ->
  y + length row <= length hs ->
  (forall k, k ∈ drop y hs -> k ∉ obj.*1) ->
  assign_row row (Some (VStr <$> hs)) y (obj, accessor)
  = Normal (obj ++ zip (drop y hs) row, accessor).
Proof.
  intros row. induction row as [|col row IH]; intros y obj accessor Hn Hnk Hy Hd.
  - destruct (drop y hs); simpl; rewrite app_nil_r; reflexivity.
  - simpl in Hy. cbn [assign_row].
    destruct (hs !! y) as [h|] eqn:Hh;
      [|apply lookup_ge_None_1 in Hh; lia].
    unfold array_get. rewrite list_lookup_fmap, Hh.
    cbn [fmap option_fmap option_map default].
    assert (Hdrop : drop y hs = h :: drop (S y) hs)
      by (apply drop_S, Hh).
    assert (Hstep : assign_row row (Some (VStr <$> hs)) (S y)
                      (assign_cell (obj, accessor) (to_string (VStr h)) col)
                    = Normal (obj ++ zip (drop y hs) (col :: row), accessor)).
    { cbn [to_string].
      rewrite assign_cell_fresh
        by first [apply Hd; rewrite Hdrop; left
                 |rewrite Forall_forall in Hnk; apply Hnk;
                  eapply list_elem_of_lookup_2, Hh].
      rewrite IH; [rewrite Hdrop; cbn [zip zip_with]; rewrite <- app_assoc; done
                  |exact Hn|exact Hnk|lia|].
      intros k Hk. rewrite fmap_app, elem_of_app. csimpl.
      rewrite list_elem_of_singleton. intros [H| ->].
      - revert H. apply Hd. rewrite Hdrop. right. exact Hk.
      - apply list_elem_of_lookup in Hk as [j Hj]. rewrite lookup_drop in Hj.
        pose proof (NoDup_lookup hs _ _ _ Hn Hh Hj). lia. }
    destruct col; exact Hstep.
Qed.

Lemma arrayToObjArr_strings (hs : list string) (arr : list (list value)) :
  NoDup hs -> Forall (fun h => named_key h = true) hs ->
  Forall (fun row => length row <= length hs) arr ->
  arrayToObjArr arr (Some (VStr <$> hs))
  = Normal ((fun row => zip hs row) <$> arr).
Proof.
  intros Hn Hk Ha. induction Ha as [|row arr Hr _ IH]; [reflexivity|].
  cbn [arrayToObjArr]. rewrite assign_row_strings;
    [|exact Hn|exact Hk|simpl; lia|intros; apply not_elem_of_nil].
  cbn [bind fst]. rewrite IH. reflexivity.
Qed.



(** Headers that are [__proto__] or array indices: the cell under
    [__proto__] is in no record, and the array index comes first. *)
Example arrayToObjArr_other_headers :
  arrayToObjArr [[VStr "v"; VStr "w"]] (Some [VStr "__proto__"; VStr "b"])
  = Normal [[("b", VStr "w")]]%string /\
  arrayToObjArr [[VStr "tea"; VNum 5]] (Some [VStr "name"; VStr "2020"])
  = Normal [[("2020", VNum 5); ("name", VStr "tea")]]%string.
Proof. split; reflexivity. Qed.

(** X17.  Called without headers, arrayToObjArr throws a TypeError as soon
    as a row has a cell: the default null has no entry to read.  Only rows
    without cells get through, each as an empty record. *)
Theorem arrayToObjArr_without_headers (arr : list (list value)) :
  arrayToObjArr arr None
  = if forallb (fun row => match row with [] => true | _ => false end) arr
    then Normal ((fun _ => []) <$> arr)
    else Throw TypeError.
Proof.
  induction arr as [|row arr IH]; [reflexivity|].
  cbn [arrayToObjArr forallb]. destruct row as [|col row]; [|reflexivity].
  cbn [assign_row bind andb]. rewrite IH.
  destruct (forallb _ arr); reflexivity.
Qed.

Lemma values_under_zip (hs : list string) : forall row : list value,
  NoDup hs -> length row = length hs ->
  values_under (VObj (zip hs row)) hs = row.
Proof.
  unfold values_under.
  induction hs as [|h hs IH]; intros row Hn Hl; destruct row as [|v row];
    try discriminate; [reflexivity|].
  apply NoDup_cons in Hn as [Hh Hn]. injection Hl as Hl. csimpl.
  rewrite String.eqb_refl. cbn [default from_option id]. f_equal.
  etrans; [|apply (IH row Hn Hl)]. apply list_fmap_ext. intros i k Hk.
  simpl. destruct (String.eqb_spec h k) as [->|_]; [|reflexivity].
  exfalso. apply Hh. eapply list_elem_of_lookup_2, Hk.
Qed.

Lemma zip_flat_for (hs : list string) (row : list value) :
  length row = length hs -> Forall (fun cell => scalar cell = true) row ->
  flat_for hs (zip hs row).
Proof.
  intros Hl Hs. split.
  - rewrite fst_zip by lia. reflexivity.
  - apply Forall_forall. intros [k v] Hin. simpl.
    rewrite Forall_forall in Hs. apply Hs.
    apply (elem_of_zip_r k v hs row Hin).
Qed.

(** X18.  From rows to text and back to the rows: for a document with
    distinct string headers, none of them [__proto__] or an array index,
    and no entries, and rows as long as the header list whose cells are no
    objects and, where they are numbers, safe integers, arrayToObjArr
    under the headers of the document gives records that addObject takes
    one after the other, and writeFile then writes the header row followed
    by the rows themselves. *)
Theorem table_written (this : CSV.t) (hs : list string)
    (arr : list (list value)) :
  CSV.headers this = VStr <$> hs -> NoDup hs ->
  Forall (fun h => named_key h = true) hs -> CSV.entries this = [] ->
  Forall (fun row => length row = length hs
                     /\ Forall (fun cell => scalar cell = true) row) arr ->
  Forall (fun row => Forall (fun cell => safe_number cell = true) row) arr ->
  exists objs,
    arrayToObjArr arr (Some (CSV.headers this)) = Normal objs /\
    CSV.writeFile
      (fold_left perform ((fun obj => AddObject (VObj obj)) <$> objs) this)
    = Normal (render this (CSV.headers this :: arr)).
Proof.
  intros Hh Hn Hk He Ha _. exists ((fun row => zip hs row) <$> arr). split.
  - rewrite Hh. apply arrayToObjArr_strings; [exact Hn|exact Hk|].
    eapply Forall_impl; [exact Ha|]. intros row [Hl _]. simpl. lia.
  - rewrite (writeFile_flat this hs) by
      first [done
            |apply Forall_fmap; eapply Forall_impl; [exact Ha|];
             intros row [Hl Hs]; apply zip_flat_for; done].
    do 3 f_equal. rewrite <- list_fmap_compose.
    rewrite <- (list_fmap_id arr) at 2. apply Forall_fmap_ext_1.
    eapply Forall_impl; [exact Ha|]. intros row [Hl _]. simpl.
    apply values_under_zip; done.
Qed.

(** X18 at the sample document and two rows. *)
Lemma table_written_witness :
  exists objs,
    arrayToObjArr [[VStr "x"; VStr "y"]; [VNum 0; VStr ""]]
      (Some (CSV.headers sample_document))
    = Normal objs /\
    CSV.writeFile
      (fold_left perform ((fun obj => AddObject (VObj obj)) <$> objs)
         sample_document)
    = Normal (render sample_document
                (CSV.headers sample_document
                 :: [[VStr "x"; VStr "y"]; [VNum 0; VStr ""]])).
Proof.
  apply (table_written sample_document ["a"; "b"]%string
           [[VStr "x"; VStr "y"]; [VNum 0; VStr ""]]).
  - reflexivity.
  - apply NoDup_ListNoDup. repeat constructor; simpl; intuition discriminate.
  - repeat constructor.
  - reflexivity.
  - repeat constructor.
  - repeat constructor.
Defined.

End Tables.

(** ** The page cache of fetchAsText *)

Section Cache.

Import candiutil.

(** The sum of a time and a week is later than the time, so the test of
    isExpired never holds. *)
Lemma isExpired_never (modified : Z) : isExpired modified = false.
Proof.
  unfold isExpired, ttl.
  destruct (Z.leb_spec (modified + 1000 * 60 * 60 * 24 * 7) modified);
    [lia|reflexivity].
Qed.

Lemma read_write_file (fs : list (string * file)) path f :
  read_file (write_file fs path f) path = Some f.
Proof.
  induction fs as [|[p g] fs IH]; simpl.
  - rewrite String.eqb_refl. reflexivity.
  - destruct (String.eqb p path) eqn:E; simpl; rewrite E; [reflexivity|exact IH].
Qed.

Lemma mkDir_made (w : world) : cache_dir w = true -> mkDir w = w.
Proof. unfold mkDir. intros ->. reflexivity. Qed.

Lemma mkDir_cache_dir (w : world) : cache_dir (mkDir w) = true.
Proof. unfold mkDir. destruct (cache_dir w) eqn:E; simpl; done. Qed.

Lemma mkDir_files (w : world) : files (mkDir w) = files w.
Proof. unfold mkDir. destruct (cache_dir w); reflexivity. Qed.

Lemma mkDir_clock (w : world) : clock (mkDir w) = clock w.
Proof. unfold mkDir. destruct (cache_dir w); reflexivity. Qed.

Lemma mkDir_requests (w : world) : requests (mkDir w) = requests w.
Proof. unfold mkDir. destruct (cache_dir w); reflexivity. Qed.

Lemma segment_no_slash (s : string) : no_slash s = true -> segment s = s.
Proof.
  induction s as [|c s IH]; [reflexivity|]. simpl.
  destruct (is_slash c); [discriminate|]. simpl. intros H. rewrite IH; done.
Qed.

Lemma url_matches_no_slash (s : string) :
  no_slash s = true -> url_matches s = [].
Proof.
  induction s as [|c s IH]; [reflexivity|]. simpl.
  destruct (is_slash c); [discriminate|]. exact IH.
Qed.

Lemma url_matches_slashes n : url_matches (slashes n) = [].
Proof.
  induction n as [|n IH]; [reflexivity|]. simpl.
  destruct n; simpl in *; exact IH.
Qed.

Lemma url_matches_trailing (p : string) n :
  no_slash p = true -> url_matches (p ++ slashes n)%string = [].
Proof.
  intros Hp. induction p as [|c p IH].
  - rewrite append_nil_l. apply url_matches_slashes.
  - rewrite append_cons. simpl in *.
    destruct (is_slash c); [discriminate|]. apply IH, Hp.
Qed.

Lemma last_cons_nonempty {A} (x : A) (l : list A) :
  l <> [] -> last (x :: l) = last l.
Proof. destruct l; done. Qed.

(** The last match of a URL that ends in a slash and a segment is that
    slash and segment, whatever comes before. *)
Lemma url_matches_last (p seg : string) :
  seg <> EmptyString -> no_slash seg = true ->
  last (url_matches (p ++ String "/" seg)%string) = Some (String "/" seg).
Proof.
  intros Hne Hs. induction p as [|c p IH].
  - rewrite append_nil_l. cbn [url_matches]. change (is_slash "/") with true.
    cbn iota. rewrite segment_no_slash, url_matches_no_slash by done.
    destruct seg; done.
  - rewrite append_cons. cbn [url_matches].
    assert (Hrest : url_matches (p ++ String "/" seg)%string <> [])
      by (intros E; rewrite E in IH; discriminate).
    destruct (is_slash c); [|exact IH].
    destruct (segment _); [exact IH|].
    rewrite last_cons_nonempty by done. exact IH.
Qed.

Section WithNetwork.

Variables network1 network2 : string -> completion string.

(** Once a page is in the cache, every URL with the same last match is
    answered from the file. *)
Lemma fetchAsText_hit (url1 url2 : string) (w w1 : world) html t :
  last (url_matches url1) = last (url_matches url2) ->
  fetchAsText network1 url1 true w = (Normal html, w1) ->
  fetchAsText network2 url2 true (at_time t w1)
  = (Normal html, at_time t w1).
Proof.
  intros Hm. unfold fetchAsText. rewrite <- Hm.
  destruct (last (url_matches url1)) as [m|]; [|discriminate].
  set (file := if negb (has_extension (slice1 m))
               then (slice1 m ++ ".html")%string else slice1 m).
  set (cache := (cacheDir ++ "/" ++ file)%string).
  assert (Hhit : forall w', cache_dir w' = true ->
            read_file (files w') cache
            = Some {| content := html; mtime := clock w |}
            \/ (exists f, read_file (files w') cache = Some f
                          /\ content f = html) ->
            (let w0 := mkDir (at_time t w') in
             match read_file (files w0) cache with
             | Some f =>
                 if isExpired (mtime f)
                 then fetch_and_store network2 url2 true cache (unlink w0 cache)
                 else (Normal (content f), w0)
             | None => fetch_and_store network2 url2 true cache w0
             end) = (Normal html, at_time t w')).
  { intros w' Hd Hf. cbn zeta. rewrite mkDir_made by exact Hd.
    cbn [at_time files].
    destruct Hf as [->|[f [-> <-]]]; rewrite isExpired_never; reflexivity. }
  destruct (read_file (files (mkDir w)) cache) as [f|] eqn:Hr.
  - rewrite isExpired_never. intros [= <- <-].
    apply Hhit; [apply mkDir_cache_dir|]. right. eauto.
  - unfold fetch_and_store. destruct (network1 url1) as [h|e|n]; [|done..].
    intros [= <- <-]. apply Hhit; [apply mkDir_cache_dir|].
    left. cbn [writeFile files clock]. rewrite read_write_file.
    unfold mkDir. destruct (cache_dir w); reflexivity.
Qed.

(** X19.  A page fetched once with the cache on is served from its file
    ever after: whatever the time and whatever the network would answer,
    fetching the URL again returns the text of the first time, makes no
    request and changes nothing.  The cache never expires, since the test
    of isExpired compares a time with the same time plus a week. *)
Theorem fetchAsText_cache_never_expires (url : string) (w w1 : world)
    (html : string) (t : Z) :
  fetchAsText network1 url true w = (Normal html, w1) ->
  fetchAsText network2 url true (at_time t w1) = (Normal html, at_time t w1)
  /\ forall modified, isExpired modified = false.
Proof.
  intros H. split; [|apply isExpired_never].
  apply (fetchAsText_hit url url w w1 html t eq_refl H).
Qed.

(** X20.  The cache file is named after the last path segment of the URL
    alone: after a page was fetched, every URL that ends in the same
    segment, on whatever site and path, is answered with the text of that
    page, without a request. *)
Theorem fetchAsText_shared_cache_name (p1 p2 seg : string) (w w1 : world)
    (html : string) (t : Z) :
  seg <> EmptyString -> no_slash seg = true ->
  fetchAsText network1 (p1 ++ String "/" seg)%string true w = (Normal html, w1) ->
  fetchAsText network2 (p2 ++ String "/" seg)%string true (at_time t w1)
  = (Normal html, at_time t w1).
Proof.
  intros Hne Hs H.
  apply (fetchAsText_hit (p1 ++ String "/" seg)%string
           (p2 ++ String "/" seg)%string w w1 html t); [|exact H].
  rewrite !url_matches_last by done. reflexivity.
Qed.

End WithNetwork.

(** X21.  A URL without a slash that is followed by another character (no
    slash at all, or only slashes at its end) makes fetchAsText throw a
    TypeError before anything is looked up, created or requested. *)
Theorem fetchAsText_without_path (network : string -> completion string)
    (p : string) (n : nat) (doCache : bool) (w : world) :
  no_slash p = true ->
  fetchAsText network (p ++ slashes n)%string doCache w = (Throw TypeError, w).
Proof.
  intros Hp. unfold fetchAsText. rewrite url_matches_trailing by done.
  reflexivity.
Qed.

(** X22.  With the cache off, fetchAsText of a URL that ends in a slash
    and a segment is the request and nothing else: its result is the
    answer of the network, a rejection included, and apart from the cache
    directory, which is created, no file is read, written or removed, even
    when a cached copy exists. *)
Theorem fetchAsText_uncached (network : string -> completion string)
    (p seg : string) (w : world) :
  seg <> EmptyString -> no_slash seg = true ->
  fetchAsText network (p ++ String "/" seg)%string false w
  = (network (p ++ String "/" seg)%string,
     requested (p ++ String "/" seg)%string w).
Proof.
  intros Hne Hs. unfold fetchAsText. rewrite url_matches_last by done.
  cbn zeta iota. unfold fetch_and_store, requested.
  rewrite mkDir_cache_dir, mkDir_files, mkDir_clock, mkDir_requests.
  destruct (network _); reflexivity.
Qed.

End Cache.

(** X19 from the empty world: the page is fetched and stored, and a year
    later, with the network down, it is still served. *)
Lemma fetchAsText_cache_never_expires_witness :
  candiutil.fetchAsText sample_network "https://a.example/index.html" true
    empty_world
  = (Normal "<p>hello</p>"%string,
     {| candiutil.cache_dir := true;
        candiutil.files :=
          [("./cache/index.html"%string,
            {| candiutil.content := "<p>hello</p>"; candiutil.mtime := 0 |})];
        candiutil.clock := 0;
        candiutil.requests := ["https://a.example/index.html"%string] |}) /\
  candiutil.fetchAsText offline "https://a.example/index.html" true
    (at_time 31536000000
       (snd (candiutil.fetchAsText sample_network
               "https://a.example/index.html" true empty_world)))
  = (Normal "<p>hello</p>"%string,
     at_time 31536000000
       (snd (candiutil.fetchAsText sample_network
               "https://a.example/index.html" true empty_world))).
Proof.
  split; [reflexivity|].
  apply (fetchAsText_cache_never_expires sample_network offline
           "https://a.example/index.html" empty_world _ _ 31536000000).
  reflexivity.
Defined.

(** X20: the index page of one site is served for the index page of
    another. *)
Lemma fetchAsText_shared_cache_name_witness :
  candiutil.fetchAsText offline "https://b.example/docs/index.html" true
    (at_time 5
       (snd (candiutil.fetchAsText sample_network
               "https://a.example/index.html" true empty_world)))
  = (Normal "<p>hello</p>"%string,
     at_time 5
       (snd (candiutil.fetchAsText sample_network
               "https://a.example/index.html" true empty_world))).
Proof.
  apply (fetchAsText_shared_cache_name sample_network offline
           "https://a.example" "https://b.example/docs" "index.html"
           empty_world _ "<p>hello</p>" 5);
    [discriminate|reflexivity|reflexivity].
Defined.

(** X21 at a host name with a slash at its end. *)
Lemma fetchAsText_without_path_witness :
  candiutil.fetchAsText sample_network "a.example/" true empty_world
  = (Throw TypeError, empty_world).
Proof.
  apply (fetchAsText_without_path sample_network "a.example" 1 true empty_world).
  reflexivity.
Defined.

(** X22 at the sample page, and at a page the network refuses. *)
Lemma fetchAsText_uncached_witness :
  candiutil.fetchAsText sample_network "https://a.example/index.html" false
    empty_world
  = (Normal "<p>hello</p>"%string,
     requested "https://a.example/index.html" empty_world) /\
  candiutil.fetchAsText offline "https://a.example/index.html" false
    empty_world
  = (Throw TypeError, requested "https://a.example/index.html" empty_world).
Proof.
  split.
  - apply (fetchAsText_uncached sample_network "https://a.example" "index.html"
             empty_world); [discriminate|reflexivity].
  - apply (fetchAsText_uncached offline "https://a.example" "index.html"
             empty_world); [discriminate|reflexivity].
Defined.


(** ** generateCsv *)

Section Csv.

Import candiutil.

Context {host : RegExpHost}.

Variable remove_matches : string -> string -> string.

Lemma strip_qualifier_outcome x q :
  match strip_qualifier remove_matches x q with
  | Normal _ => is_string x = true
  | Throw TypeError | Throw SyntaxError => True
  | _ => False
  end.
Proof.
  unfold strip_qualifier, new_RegExp.
  destruct x; try done; destruct (regexp_valid q); done.
Qed.

Lemma csv_field_outcome P q header obj :
  match csv_field remove_matches P q header obj with
  | Normal _ => P = None -> is_string (read_prop obj header) = true
  | Throw TypeError | Throw SyntaxError => True
  | _ => False
  end.
Proof.
  unfold csv_field.
  destruct (String.eqb (typeof (read_prop obj header)) "object").
  - destruct P as [f|]; [|done].
    pose proof (strip_qualifier_outcome (f header (read_prop obj header)) q) as H.
    destruct (strip_qualifier _ _ _) as [s|[]|]; cbn [bind]; done.
  - pose proof (strip_qualifier_outcome (read_prop obj header) q) as H.
    destruct (strip_qualifier _ _ _) as [s|[]|]; cbn [bind]; done.
Qed.

(** A row that is built has one field for each header, so the comparison
    of its length with the size never fails. *)
Lemma csv_row_outcome P q obj headers : forall row,
  match csv_row remove_matches P q headers obj row with
  | Normal row' =>
      length row' = length row + length headers /\
      (P = None ->
       Forall (fun key => is_string (read_prop obj key) = true) headers)
  | Throw TypeError | Throw SyntaxError => True
  | _ => False
  end.
Proof.
  induction headers as [|header headers IH]; intros row.
  - simpl. split; [lia|constructor].
  - cbn [csv_row]. pose proof (csv_field_outcome P q header obj) as Hf.
    destruct (csv_field _ _ _ _ _) as [field|[]|]; try done.
    cbn [bind]. specialize (IH (row ++ [field])).
    destruct (csv_row _ _ _ _ _ _) as [row'|[]|]; try done.
    destruct IH as [Hl Hs]. rewrite length_app in Hl. simpl in *.
    split; [lia|]. intros HP. constructor; auto.
Qed.

Lemma csv_rows_outcome P q headers objArr : forall out,
  match csv_rows remove_matches P q headers (length headers) objArr out with
  | Normal _ => P = None -> strings_under headers objArr
  | Throw TypeError | Throw SyntaxError => True
  | _ => False
  end.
Proof.
  induction objArr as [|obj objArr IH]; intros out.
  - simpl. intros _. constructor.
  - cbn [csv_rows]. pose proof (csv_row_outcome P q obj headers []) as Hr.
    destruct (csv_row _ _ _ _ _ _) as [row|[]|]; try done.
    cbn [bind]. destruct Hr as [Hl Hs]. simpl in Hl. rewrite Hl, Nat.eqb_refl.
    cbn [negb]. specialize (IH (out ++ join "," row ++ line_feed)%string).
    destruct (csv_rows _ _ _ _ _ _ _) as [text|[]|]; try done.
    intros HP. unfold strings_under. constructor; [apply Hs, HP|apply IH, HP].
Qed.

(** X23.  generateCsv ends in its text, in a TypeError or in the
    SyntaxError of a qualifier the platform does not compile, whatever the
    processor returns: it throws the TypeError on an empty array, whose
    first entry has no keys to read, and it never throws the string of its
    row length check, since every row it builds has one field for each
    header. *)
Theorem generateCsv_outcomes (objArr : list props)
    (objProcessor : option (string -> value -> value)) (qualifier : string) :
  text_or_platform_error
    (generateCsv remove_matches objArr objProcessor qualifier) /\
  generateCsv remove_matches [] objProcessor qualifier = Throw TypeError.
Proof.
  split; [|reflexivity].
  unfold generateCsv. destruct objArr as [|first rest]; [done|].
  cbv zeta. rewrite length_map.
  pose proof (csv_rows_outcome objProcessor qualifier (List.map fst first)
                (first :: rest)) as H.
  rewrite length_map in H.
  match goal with |- context [csv_rows _ _ _ _ _ _ ?o] => specialize (H o) end.
  destruct (csv_rows _ _ _ _ _ _ _) as [text|[]|]; done.
Qed.

(** X24.  Without a processor generateCsv returns only for arrays of
    strings: when it returns, the array is not empty and every object
    holds a string under every key of the first object.  A number, a
    boolean, null, an array or a missing key makes it throw. *)
Theorem generateCsv_strings_only (objArr : list props) (qualifier out : string) :
  generateCsv remove_matches objArr None qualifier = Normal out ->
  exists first rest, objArr = first :: rest /\
    strings_under first.*1 (first :: rest).
Proof.
  unfold generateCsv. destruct objArr as [|first rest]; [discriminate|].
  cbv zeta. rewrite length_map. intros H. exists first, rest. split; [done|].
  pose proof (csv_rows_outcome None qualifier (List.map fst first)
                (first :: rest)) as Ho.
  rewrite length_map in Ho.
  match type of H with context [csv_rows _ _ _ _ _ _ ?o] => specialize (Ho o) end.
  rewrite H in Ho. rewrite <- keys_fmap. apply Ho. reflexivity.
Qed.

Lemma csv_row_strings q obj headers : forall row,
  regexp_valid q = true ->
  Forall (fun key => is_string (read_prop obj key) = true) headers ->
  csv_row remove_matches None q headers obj row
  = Normal (row ++ ((fun key =>
                       q ++ remove_matches q (text_of (read_prop obj key)) ++ q)%string
                    <$> headers)).
Proof.
  intros row Hq Hs. revert row.
  induction Hs as [|header headers Hh _ IH]; intros row.
  - csimpl. rewrite app_nil_r. reflexivity.
  - cbn [csv_row]. unfold csv_field, strip_qualifier, new_RegExp.
    destruct (read_prop obj header) as [| |b|n|s|xs|ps] eqn:E; try discriminate.
    cbn [typeof]. change (String.eqb "string" "object") with false. cbn iota.
    rewrite Hq. cbn [bind source]. rewrite IH. csimpl. rewrite E.
    rewrite <- app_assoc. reflexivity.
Qed.

Lemma concat_empty_cons (x : string) (l : list string) :
  String.concat "" (x :: l) = (x ++ String.concat "" l)%string.
Proof.
  destruct l; cbn [String.concat]; [rewrite append_nil_r|rewrite append_nil_l];
    reflexivity.
Qed.

Lemma csv_rows_strings q headers objArr : forall out,
  regexp_valid q = true -> strings_under headers objArr ->
  csv_rows remove_matches None q headers (length headers) objArr out
  = Normal (out ++ String.concat ""
                     (csv_object_line (remove_matches q) q headers <$> objArr))%string.
Proof.
  intros out Hq Hs. revert out.
  induction Hs as [|obj objArr Ho _ IH]; intros out.
  - csimpl. rewrite append_nil_r. reflexivity.
  - cbn [csv_rows]. rewrite csv_row_strings by done. cbn [bind app].
    rewrite length_fmap, Nat.eqb_refl. cbn [negb]. rewrite IH. f_equal.
    rewrite fmap_cons, concat_empty_cons. unfold csv_object_line at 2.
    rewrite !append_assoc. reflexivity.
Qed.

(** X25.  For a qualifier the platform compiles and objects that hold a
    string under every key of the first one, generateCsv returns the
    header line, the keys of the first object each between qualifiers,
    followed by one line for each object in order: its strings under those
    keys, each stripped of the matches of the qualifier and put between
    qualifiers, joined by commas.  Every line, the last one included, ends
    in a line feed, and the keys in the header line are not stripped. *)
Theorem generateCsv_text (first : props) (rest : list props)
    (qualifier : string) :
  regexp_valid qualifier = true ->
  strings_under first.*1 (first :: rest) ->
  generateCsv remove_matches (first :: rest) None qualifier
  = Normal (csv_header_line qualifier first.*1
            ++ String.concat ""
                 (csv_object_line (remove_matches qualifier) qualifier first.*1
                  <$> first :: rest))%string.
Proof.
  intros Hq Hs. unfold generateCsv. cbv zeta. rewrite keys_fmap.
  rewrite csv_rows_strings by done. rewrite append_nil_l. reflexivity.
Qed.

End Csv.

(** X25 at two objects under the default qualifier, on a platform that
    removes the double quotes: the second object has its keys the other
    way round, and the quotes inside a field are gone. *)
Lemma generateCsv_text_witness :
  @candiutil.generateCsv quote_host (fun _ => remove_quotes)
    [[("a", VStr "x"); ("b", VStr (CSV.quote ++ "y" ++ CSV.quote))];
     [("b", VStr "2"); ("a", VStr "1")]]%string
    None CSV.quote
  = Normal (quoted "a" ++ "," ++ quoted "b" ++ CSV.newline
            ++ quoted "x" ++ "," ++ quoted "y" ++ CSV.newline
            ++ quoted "1" ++ "," ++ quoted "2" ++ CSV.newline)%string.
Proof.
  apply (@generateCsv_text quote_host (fun _ => remove_quotes)
           [("a", VStr "x"); ("b", VStr (CSV.quote ++ "y" ++ CSV.quote))]%string
           [[("b", VStr "2"); ("a", VStr "1")]%string] CSV.quote).
  - reflexivity.
  - repeat constructor.
Defined.

(** X24 at a run that returns. *)
Lemma generateCsv_strings_only_witness :
  exists first rest,
    [[("a", VStr "x"); ("b", VStr "y")]]%string = first :: rest /\
    strings_under first.*1 (first :: rest).
Proof.
  apply (@generateCsv_strings_only quote_host (fun _ => remove_quotes)
           [[("a", VStr "x"); ("b", VStr "y")]]%string CSV.quote
           (quoted "a" ++ "," ++ quoted "b" ++ CSV.newline
            ++ quoted "x" ++ "," ++ quoted "y" ++ CSV.newline)%string).
  reflexivity.
Defined.

(** ** The header grammar and plain templates *)

Section Grammar.

Import candiutil.

Lemma occurs_append tok (a b : string) :
  occurs tok (a ++ tok ++ b)%string = true.
Proof.
  induction a as [|c a IH].
  - rewrite append_nil_l.
    assert (H : forall t, strip_prefix t (t ++ b)%string = Some b).
    { induction t as [|d t IHt]; [rewrite append_nil_l; reflexivity|].
      rewrite append_cons. simpl. rewrite Ascii.eqb_refl. exact IHt. }
    destruct (tok ++ b)%string eqn:E; simpl; rewrite <- E, H; reflexivity.
  - rewrite append_cons. simpl. rewrite IH.
    destruct (strip_prefix _ _); reflexivity.
Qed.

Lemma grammar_exec_occurs re (header : string) :
  occurs (open_tok re) header = false -> grammar_exec re header = None.
Proof.
  intros Ho. destruct (grammar_exec re header) as [m|] eqn:E; [|reflexivity].
  apply exec_from_shape in E as [E _]. rewrite append_nil_l in E.
  rewrite E, <- append_assoc, occurs_append in Ho. discriminate.
Qed.

(** X26.  Whenever one of the four recognisers of the header grammar
    matches a template, the template is the text before the match, the
    first group, the opening token, the second group, the closing token
    and the text after the match, in this order, and each group is one or
    more characters without a line terminator. *)
Theorem grammar_match_shape (re : grammar_regex) (header : string)
    (m : grammar_match) :
  grammar_exec re header = Some m ->
  header
  = (before m ++ group1 m ++ open_tok re ++ group2 m ++ close_tok re
     ++ after m)%string
  /\ group_text (group1 m) /\ group_text (group2 m).
Proof.
  intros H. apply exec_from_shape in H. rewrite append_nil_l in H. exact H.
Qed.

(** X26 at the multi template. *)
Lemma grammar_match_shape_witness :
  grammar_exec multiDataRegex multi_template
  = Some {| before := ""; group1 := "lo,,hi"; group2 := "(\d+)-(\d+)";
            after := "" |} /\
  multi_template = ("" ++ "lo,,hi" ++ "[[" ++ "(\d+)-(\d+)" ++ "]]" ++ "")%string
  /\ group_text "lo,,hi" /\ group_text "(\d+)-(\d+)".
Proof.
  split; [reflexivity|].
  apply (grammar_match_shape multiDataRegex multi_template
           {| before := ""; group1 := "lo,,hi"; group2 := "(\d+)-(\d+)";
              after := "" |}).
  reflexivity.
Defined.

End Grammar.

Section Plain.

Import candiutil.

Context {host : RegExpHost}.

Lemma processHeader_plain_norm (header : string) :
  plain header = true ->
  processHeader header = Normal {| kind := Norm header; map := None |}.
Proof.
  unfold plain. intros H.
  apply andb_prop in H as [H H4]. apply andb_prop in H as [H H3].
  apply andb_prop in H as [H1 H2]. apply negb_true_iff in H1, H2, H3, H4.
  unfold processHeader.
  rewrite (grammar_exec_occurs multiDataRegex),
    (grammar_exec_occurs splitDataRegex),
    (grammar_exec_occurs mapDataRegex),
    (grammar_exec_occurs transformDataRegex) by done.
  reflexivity.
Qed.

Lemma processHeaders_plain (hs : list string) :
  Forall (fun h => plain h = true) hs ->
  processHeaders (Some <$> hs) = Normal (norm_header <$> hs).
Proof.
  intros H. induction H as [|h hs Hh _ IH]; [reflexivity|].
  csimpl. rewrite processHeader_plain_norm by done. cbn [bind]. rewrite IH.
  reflexivity.
Qed.

(** X27.  A template in which none of the four opening tokens occurs
    compiles, on every platform, to the norm header of the template
    itself, without a map; no regular expression is compiled for it. *)
Theorem plain_template_is_norm (header : string) :
  plain header = true ->
  processHeader header = Normal {| kind := Norm header; map := None |} /\
  processHeaders [Some header] = Normal [norm_header header].
Proof.
  intros H. split; [apply processHeader_plain_norm, H|].
  apply (processHeaders_plain [header]). constructor; [exact H|constructor].
Qed.






End Plain.

(** X27 at the template name. *)
Lemma plain_template_is_norm_witness :
  @candiutil.processHeader sample_host "name"
  = Normal {| candiutil.kind := candiutil.Norm "name"; candiutil.map := None |} /\
  @candiutil.processHeaders sample_host [Some "name"%string]
  = Normal [norm_header "name"].
Proof.
  apply (@plain_template_is_norm sample_host "name"). reflexivity.
Defined.


(** Plain templates that are [__proto__] or array indices: the cell under
    [__proto__] is in no record, and the array index comes first. *)
Example tableToArrayOfObj_other_templates :
  @candiutil.tableToArrayOfObj sample_host [[VStr "v"; VStr "w"]]
    [Some "__proto__"; Some "b"]%string
  = Some (Normal [[("b", VStr "w")]]%string) /\
  @candiutil.tableToArrayOfObj sample_host [[VStr "tea"; VStr "5"]]
    [Some "name"; Some "2020"]%string
  = Some (Normal [[("2020", VStr "5"); ("name", VStr "tea")]]%string).
Proof. split; reflexivity. Qed.

(** ** rowToArray *)

Section Cells_of_a_row.

Import candiutil.

Lemma rowToArray_from_plain (row : list cell_source) : forall x,
  rowToArray_from row None x
  = (fun col => VStr (sanitise (cell_text col))) <$> row.
Proof.
  induction row as [|col row IH]; intros x; [reflexivity|].
  csimpl. rewrite IH. reflexivity.
Qed.

Lemma rowToArray_from_echo (row : list cell_source) : forall x,
  rowToArray_from row (Some (fun _ html _ => VStr html)) x
  = rowToArray_from row None x.
Proof.
  induction row as [|col row IH]; intros x; [reflexivity|].
  cbn [rowToArray_from]. rewrite IH. cbn [strict_eq_str].
  rewrite String.eqb_refl. reflexivity.
Qed.

(** X30.  Without a processor rowToArray gives one string for each cell of
    the row, in order: the sanitised text of the cell, so a string with no
    whitespace at either end, no two whitespace characters in a row, and
    the visible characters of the text.  A processor that hands back the
    markup it was given changes nothing. *)
Theorem rowToArray_cells (row : list cell_source) :
  rowToArray row None = (fun col => VStr (sanitise (cell_text col))) <$> row /\
  Forall (fun cell => exists s, cell = VStr s /\ tidy s = true)
    (rowToArray row None) /\
  rowToArray row (Some (fun _ html _ => VStr html)) = rowToArray row None.
Proof.
  unfold rowToArray. split; [apply rowToArray_from_plain|]. split.
  - rewrite rowToArray_from_plain. apply Forall_fmap, Forall_forall.
    intros col _. exists (sanitise (cell_text col)).
    split; [reflexivity|apply sanitise_is_tidy].
  - apply rowToArray_from_echo.
Qed.

End Cells_of_a_row.
